(** * ts_tcs_wep: wavefront estimation pipeline, controller and catalog store

  A shallow embedding of the parts of the repository the specification
  speaks about, and of the code next to them:

  - [testScript/cwfs/runWEP.py]            (module [RunWEP]),
  - [wep/WEPController.py]                 (module [WEPController]),
  - [python/lsst/ts/wep/bsc/LocalDatabase.py] (module [LocalDatabase]),
  - [python/lsst/ts/wep/FitsFormat.py]     (module [FitsFormat]),
  - [python/lsst/ts/wep/MockMiddleware.py] (module [MockMiddleware]).

  Python dictionaries are finite maps ([gmap]), Python lists are lists,
  [None] is [None], and a Python call that may raise is a value of [res].
  Python [str] values are modelled by [string]; the characters are the code
  points 0..255.  Where the characters beyond them matter, in the names
  [__getSensorInfo] accepts, [WEPController.Unicode] has the embedding
  over texts of any code points. *)

From Stdlib Require Import ZArith QArith Ascii String.
From stdpp Require Import base option list gmap strings pretty.

Local Open Scope string_scope.
Local Open Scope list_scope.

(** ** Exceptions and fallible results *)

Inductive exn : Type :=
| TypeError (msg : string)
| RuntimeError (msg : string)
| ValueError (msg : string)
| KeyError
| IndexError
| UnboundLocalError
| SqliteError.

Inductive res (A : Type) : Type :=
| Ok (a : A)
| Raise (e : exn).
Arguments Ok {A} a.
Arguments Raise {A} e.

#[global] Instance res_ret : MRet res := λ A a, Ok a.
#[global] Instance res_bind : MBind res := λ A B k m,
  match m with
  | Ok a => k a
  | Raise e => Raise e
  end.
#[global] Instance res_fmap : FMap res := λ A B f m,
  match m with
  | Ok a => Ok (f a)
  | Raise e => Raise e
  end.

(** Stateful code that may raise: a state transformer whose result is a
    value or an exception.  The state reached when the exception is raised
    is kept, as Python keeps the effects made before a [raise]. *)
Definition M (S A : Type) : Type := S → res A * S.

#[global] Instance M_ret {S} : MRet (M S) := λ A a s, (Ok a, s).
#[global] Instance M_bind {S} : MBind (M S) := λ A B k m s,
  match m s with
  | (Ok a, s') => k a s'
  | (Raise e, s') => (Raise e, s')
  end.

Definition raise {S A} (e : exn) : M S A := λ s, (Raise e, s).
Definition lift {S A} (r : res A) : M S A := λ s, (r, s).
Definition get_state {S} : M S S := λ s, (Ok s, s).
Definition modify {S} (f : S → S) : M S unit := λ s, (Ok tt, f s).

(** A [for] loop in [M]: the body runs for its effect, in order, until
    the list is exhausted or an exception is raised. *)
Fixpoint for_ {S A} (l : list A) (body : A → M S unit) : M S unit :=
  match l with
  | [] => mret tt
  | a :: l' => _ ← body a; for_ l' body
  end.

(** A [for] loop in [M] that updates local variables [b]. *)
Fixpoint foldM {S A B} (body : B → A → M S B) (l : list A) (b : B) : M S B :=
  match l with
  | [] => mret b
  | a :: l' => b' ← body b a; foldM body l' b'
  end.

(** [d[k]] on a dictionary: raises [KeyError] when the key is absent. *)
Definition getitem `{Countable K} {V} (d : gmap K V) (k : K) : res V :=
match d !! k with
| Some v => Ok v
| None => Raise KeyError
end.

(** [d.pop(k)] on a dictionary: raises [KeyError] when the key is absent. *)
Definition pop `{Countable K} {V} (k : K) (d : gmap K V) : res (gmap K V) :=
  match d !! k with
  | Some _ => Ok (delete k d)
  | None => Raise KeyError
  end.

(** The position [l[i]] designates in a list of length [len]: a negative
    index counts from the end. *)
Definition py_index (len : nat) (i : Z) : res nat :=
  if bool_decide (0 ≤ i < Z.of_nat len)%Z then Ok (Z.to_nat i)
  else if bool_decide (- Z.of_nat len ≤ i < 0)%Z
  then Ok (Z.to_nat (Z.of_nat len + i))
  else Raise IndexError.

(** [l[i]] on a list, for a non-negative index. *)
Definition list_getitem {A} (l : list A) (i : nat) : res A :=
match l !! i with
| Some v => Ok v
| None => Raise IndexError
end.

(** A [for] loop whose body may raise: the loop stops at the first
  exception. *)
Fixpoint for_each {A S} (body : S → A → res S) (l : list A) (s : S) : res S :=
match l with
| [] => Ok s
| a :: l' => s' ← body s a; for_each body l' s'
end.

(** A loop that returns has run every iteration of its body. *)
Lemma for_each_cons_Ok {A S} (body : S → A → res S) a l s r :
  for_each body (a :: l) s = Ok r →
  ∃ s', body s a = Ok s' ∧ for_each body l s' = Ok r.
Proof.
  cbn [for_each]. unfold mbind, res_bind.
  destruct (body s a) as [s'|e]; [eauto|done].
Qed.

(** An invariant of the body is an invariant of the loop. *)
Lemma for_each_invariant {A S} (P : S → Prop) (body : S → A → res S) l s r :
  (∀ s a s', a ∈ l → P s → body s a = Ok s' → P s') →
  P s → for_each body l s = Ok r → P r.
Proof.
  revert s. induction l as [|a l IH]; intros s Hbody Hs Hr.
  - by injection Hr as <-.
  - apply for_each_cons_Ok in Hr as (s' & Ha & Hr).
    apply (IH s'); [|by eapply Hbody; [left|..]|done].
    intros s1 b s2 Hb. apply Hbody. by right.
Qed.

(** A loop whose body always returns, returns. *)
Lemma for_each_returns {A S} (body : S → A → res S) l s :
  (∀ s a, a ∈ l → ∃ s', body s a = Ok s') → ∃ r, for_each body l s = Ok r.
Proof.
  revert s. induction l as [|a l IH]; intros s Hbody; [by eexists|].
  cbn [for_each]. destruct (Hbody s a) as [s' ->]; [by left|].
  cbn [mbind res_bind]. apply IH. intros s1 b Hb. apply Hbody. by right.
Qed.

Lemma for_each_snoc_Ok {A S} (body : S → A → res S) l a s r :
  for_each body (l ++ [a]) s = Ok r →
  ∃ s', for_each body l s = Ok s' ∧ body s' a = Ok r.
Proof.
  revert s. induction l as [|b l IH]; intros s Hr.
  - apply for_each_cons_Ok in Hr as (s' & Ha & [= <-]). by exists s.
  - apply for_each_cons_Ok in Hr as (s1 & Hb & Hr).
    destruct (IH _ Hr) as (s' & Hl & Ha). exists s'. split; [|done].
    cbn [for_each]. by rewrite Hb.
Qed.

(** ** Python string primitives *)

Module PyStr.

(** The one-character string holding a line feed. *)
Definition nl : string := String "010"%char EmptyString.

(** [str.isspace] on one character, for the code points 0..255:
    tab..carriage return, the four separators 28..31, space, NEL and the
    no-break space. *)
Definition isspace (c : ascii) : bool :=
  let n := N_of_ascii c in
  ((9 <=? n) && (n <=? 13) || (28 <=? n) && (n <=? 32)
   || (n =? 133) || (n =? 160))%N.

Fixpoint lstrip (s : string) : string :=
  match s with
  | String c s' => if isspace c then lstrip s' else s
  | EmptyString => EmptyString
  end.

Definition rstrip (s : string) : string :=
  String.rev (lstrip (String.rev s)).

(** [s.strip()] *)
Definition strip (s : string) : string := rstrip (lstrip s).

(** [s.startswith(p)] *)
Definition startswith (s p : string) : bool := String.prefix p s.

(** [len(s)] *)
Definition len (s : string) : Z := Z.of_nat (String.length s).

Definition isdigit (c : ascii) : bool :=
  let n := N_of_ascii c in ((48 <=? n) && (n <=? 57))%N.

(** [c.upper()] for one character; only the ASCII letters have a
    case mapping here (the camera filters are ASCII letters).  Python
    maps the letters of the code points 224..254 too, and 181, 223 and
    255 to texts outside the code points 0..255; what is proved takes the
    table name of a filter as it is, for any filter. *)
Definition upper_char (c : ascii) : ascii :=
  let n := N_of_ascii c in
  if ((97 <=? n) && (n <=? 122))%N then ascii_of_N (n - 32) else c.

Fixpoint upper (s : string) : string :=
  match s with
  | String c s' => String (upper_char c) (upper s')
  | EmptyString => EmptyString
  end.

End PyStr.

(** * testScript/cwfs/runWEP.py *)

Module RunWEP.

(** Truth value of a Python integer. *)
Definition truthy (z : Z) : bool := negb (z =? 0)%Z.

(** One iteration of the loop over the lines of the definition file.
    The state is the flag [iscomment] and the list of strings written to
    [fout] so far.  The flag starts as [False], which is the integer 0;
    [~iscomment] is the bitwise complement on integers. *)
Definition readLine (st : Z * list string) (line : string) : Z * list string :=
  let '(iscomment, fout) := st in
  let line := PyStr.strip line in
  let iscomment :=
    if PyStr.startswith line "###" then Z.lnot iscomment else iscomment in
  if negb (PyStr.startswith line "#") && negb (truthy iscomment)
     && (0 <? PyStr.len line)%Z
  then (iscomment, fout ++ [line +:+ PyStr.nl])
  else (iscomment, fout).

(** [__readConfigFile(fout, config, configName)]: [fout] is the list of
    strings written so far, [filename] is [config.filename] and [fconfig]
    the lines the opened file yields. *)
Definition readConfigFile (fout : list string) (filename : string)
    (fconfig : list string) (configName : string) : list string :=
  let fout := fout ++ [PyStr.nl] in
  let fout :=
    fout ++ ["---" +:+ configName +:+ " file: --- " +:+ filename
             +:+ " ----------" +:+ PyStr.nl] in
  snd (foldl readLine (0%Z, fout) fconfig).

(** *** The format in the words of the specification *)

(** A line opens or closes a block comment when its stripped form starts
    with the delimiter. *)
Definition is_delimiter (line : string) : bool :=
  PyStr.startswith (PyStr.strip line) "###".

Definition is_hash_comment (line : string) : bool :=
  PyStr.startswith (PyStr.strip line) "#".

Definition is_blank (line : string) : bool :=
  match PyStr.strip line with EmptyString => true | _ => false end.

(** Number of delimiter lines among [lines]. *)
Definition delimiters (lines : list string) : nat :=
  length (filter (λ l, is_delimiter l = true) lines).

(** Line number [i] lies inside a block when an odd number of delimiter
    lines precedes it. *)
Definition inside_block (lines : list string) (i : nat) : bool :=
  Nat.odd (delimiters (take i lines)).

Definition is_pair_line (lines : list string) (i : nat) (line : string) : bool :=
  negb (is_hash_comment line) && negb (inside_block lines i)
  && negb (is_blank line).

(** The configuration pairs of a file, in input order. *)
Definition pair_lines (lines : list string) : list string :=
  omap (λ i, line ← lines !! i;
             if is_pair_line lines i line then Some (PyStr.strip line)
             else None)
       (seq 0 (length lines)).

(** The value of [iscomment] after the lines [lines]. *)
Definition flag_after (lines : list string) : Z :=
  if Nat.odd (delimiters lines) then (-1)%Z else 0%Z.

(** The first two writes: an empty line and the banner. *)
Definition banner (filename configName : string) : list string :=
  [PyStr.nl; "---" +:+ configName +:+ " file: --- " +:+ filename
         +:+ " ----------" +:+ PyStr.nl].

(** *** Properties *)

Lemma omap_ext_in {A B} (f g : A → option B) (l : list A) :
  (∀ x, x ∈ l → f x = g x) → omap f l = omap g l.
Proof.
  induction l as [|a l IH]; intros Hfg; [done|].
  csimpl. rewrite (Hfg a) by left.
  rewrite IH; [done|]. intros x Hx. apply Hfg. by right.
Qed.

Lemma delimiters_snoc lines line :
  delimiters (lines ++ [line]) =
  (delimiters lines + (if is_delimiter line then 1 else 0))%nat.
Proof.
  unfold delimiters. rewrite filter_app, length_app. f_equal.
  rewrite filter_cons, filter_nil.
  destruct (is_delimiter line); case_decide; simpl; congruence.
Qed.

Lemma flag_after_snoc lines line :
  flag_after (lines ++ [line]) =
  if is_delimiter line then Z.lnot (flag_after lines) else flag_after lines.
Proof.
  unfold flag_after. rewrite delimiters_snoc.
  destruct (is_delimiter line).
  - rewrite Nat.add_1_r, Nat.odd_succ, <- Nat.negb_odd.
    by destruct (Nat.odd (delimiters lines)).
  - by rewrite Nat.add_0_r.
Qed.

Lemma truthy_flag_after lines :
  truthy (flag_after lines) = Nat.odd (delimiters lines).
Proof. unfold flag_after. by destruct (Nat.odd _). Qed.

Lemma delimiter_is_hash_comment line :
  is_delimiter line = true → is_hash_comment line = true.
Proof.
  unfold is_delimiter, is_hash_comment, PyStr.startswith.
  destruct (PyStr.strip line) as [|c s]; [done|].
  cbn [String.prefix]. destruct (ascii_dec "#"%char c); [|done].
  intros _. by destruct s.
Qed.

Lemma len_pos_not_blank line :
  (0 <? PyStr.len (PyStr.strip line))%Z = negb (is_blank line).
Proof.
  unfold is_blank, PyStr.len. destruct (PyStr.strip line); [done|].
  simpl negb. apply Z.ltb_lt. cbn [String.length]. lia.
Qed.

Lemma pair_lines_snoc lines line :
  pair_lines (lines ++ [line]) =
  pair_lines lines ++
  (if is_pair_line (lines ++ [line]) (length lines) line
   then [PyStr.strip line] else []).
Proof.
  unfold pair_lines. rewrite length_app. simpl length.
  rewrite seq_app, omap_app. f_equal.
  - apply omap_ext_in. intros i Hi. apply elem_of_seq in Hi.
    rewrite lookup_app_l by lia.
    destruct (lines !! i) as [l|]; [|done]. simpl.
    unfold is_pair_line, inside_block. by rewrite take_app_le by lia.
  - simpl. rewrite list_lookup_middle by done. simpl.
    by destruct (is_pair_line _ _ _).
Qed.

(** The loop invariant: after the lines [lines] the flag is [flag_after]
    and the writes are the pair lines seen so far. *)
Lemma foldl_readLine fout lines :
  foldl readLine (0%Z, fout) lines =
  (flag_after lines, fout ++ ((λ l, l +:+ PyStr.nl) <$> pair_lines lines)).
Proof.
  induction lines as [|line lines IH] using rev_ind.
  - simpl. by rewrite app_nil_r.
  - rewrite foldl_snoc, IH. unfold readLine.
    rewrite pair_lines_snoc, fmap_app, app_assoc, flag_after_snoc.
    fold (is_delimiter line). fold (is_hash_comment line).
    rewrite len_pos_not_blank.
    unfold is_pair_line, inside_block. rewrite take_app_length.
    destruct (is_delimiter line) eqn:Hd.
    + rewrite (delimiter_is_hash_comment _ Hd). simpl. by rewrite app_nil_r.
    + rewrite truthy_flag_after.
      destruct (negb (is_hash_comment line) && negb (Nat.odd (delimiters lines))
                && negb (is_blank line)); simpl; [done|by rewrite app_nil_r].
Qed.

(** C8. [__readConfigFile] writes an empty line and the banner, and then
    echoes the definition file: what it writes after the banner is exactly
    the stripped lines that are neither '#' lines (the '###' delimiter
    lines are among them), nor inside a '###' block, nor empty, each
    followed by a newline, in input order.  This holds for every file, so
    in particular for those whose block comments are balanced. *)
Theorem readConfigFile_echoes_pair_lines fout filename fconfig configName :
  readConfigFile fout filename fconfig configName =
  fout ++ banner filename configName
       ++ ((λ l, l +:+ PyStr.nl) <$> pair_lines fconfig).
Proof.
  unfold readConfigFile, banner. rewrite foldl_readLine. simpl.
  by rewrite <- !app_assoc.
Qed.

(** A definition file with a comment line, a block comment and two pairs. *)
Example readConfigFile_sample :
  readConfigFile [] "lsst.param"
    ["# pupil" +:+ PyStr.nl; "Obscuration 0.61" +:+ PyStr.nl;
     "###" +:+ PyStr.nl; "old 1" +:+ PyStr.nl; "  ###" +:+ PyStr.nl;
     PyStr.nl; "  Pixel_size 10.0e-6 " +:+ PyStr.nl] "instrument" =
  [PyStr.nl; "---instrument file: --- lsst.param ----------" +:+ PyStr.nl;
   "Obscuration 0.61" +:+ PyStr.nl; "Pixel_size 10.0e-6" +:+ PyStr.nl].
Proof. reflexivity. Qed.

(** *** A block comment that is not closed *)

Lemma foldl_readLine_inside iscomment fout lines :
  truthy iscomment = true →
  Forall (λ line, is_delimiter line = false) lines →
  foldl readLine (iscomment, fout) lines = (iscomment, fout).
Proof.
  intros Hflag Hlines. induction Hlines as [|line lines Hline _ IH]; [done|].
  cbn [foldl]. unfold readLine at 2. unfold is_delimiter in Hline.
  rewrite Hline, Hflag. cbn [negb andb]. by rewrite andb_false_r.
Qed.

(** A block comment that is opened and never closed hides the rest of
    the file: when the lines before a delimiter line hold an even number
    of delimiter lines and no delimiter line follows it, what is written
    is what the lines before it give; nothing is written for the lines
    after it, whatever they are, and no error is raised. *)
Theorem readConfigFile_unclosed_block fout filename configName before opener
    rest :
  Nat.even (delimiters before) = true →
  is_delimiter opener = true →
  Forall (λ line, is_delimiter line = false) rest →
  readConfigFile fout filename (before ++ opener :: rest) configName
  = readConfigFile fout filename before configName.
Proof.
  intros Heven Hopener Hrest. unfold readConfigFile. cbv zeta.
  rewrite foldl_app, foldl_readLine. cbn [foldl].
  assert (flag_after before = 0%Z) as ->.
  { unfold flag_after. by rewrite <- Nat.negb_even, Heven. }
  unfold readLine at 2. fold (is_delimiter opener). rewrite Hopener.
  fold (is_hash_comment opener).
  rewrite (delimiter_is_hash_comment _ Hopener). cbn [negb andb].
  by rewrite foldl_readLine_inside.
Qed.

(** A file whose second line opens a block that is not closed. *)
Lemma readConfigFile_unclosed_block_witness :
  readConfigFile [] "lsst.param"
    (["Obscuration 0.61" +:+ PyStr.nl]
       ++ ("###" +:+ PyStr.nl) :: ["Pixel_size 10.0e-6" +:+ PyStr.nl])
    "instrument"
  = readConfigFile [] "lsst.param" ["Obscuration 0.61" +:+ PyStr.nl]
      "instrument".
Proof.
  apply (readConfigFile_unclosed_block [] "lsst.param" "instrument").
  - reflexivity.
  - reflexivity.
  - by repeat constructor.
Defined.

End RunWEP.

(** ** NeighboringStar (shared by the catalog store and the controller) *)

(** Modelled from the spec: the class [NeighboringStar] is not part of the
    sources at hand.  It holds, per bright star id, the ids of its
    neighbors ([SimobjID], a dictionary, here in insertion order), and per
    star id the sky position and the magnitude in each band. *)
Record NeighboringStar : Type := {
  SimobjID : list (Z * list Z);
  RaDecl : gmap Z (Q * Q);
  LSSTMagU : gmap Z Q;
  LSSTMagG : gmap Z Q;
  LSSTMagR : gmap Z Q;
  LSSTMagI : gmap Z Q;
  LSSTMagZ : gmap Z Q;
  LSSTMagY : gmap Z Q
}.

(** [d[k]] on a dictionary kept in insertion order. *)
Definition assoc_getitem {V} (d : list (Z * V)) (k : Z) : res V :=
  match list_find (λ kv, kv.1 = k) d with
  | Some (_, (_, v)) => Ok v
  | None => Raise KeyError
  end.

(** ** DefocalImage and DonutImage *)

(** Modelled from the spec: the classes [DefocalImage] and [DonutImage]
    (wep/DefocalImage.py) are not among the sources at hand.  A defocal
    image is a pair of optional images, the intra-focal and the
    extra-focal one; [setImg] stores the images it is given and leaves a
    role it is not given as it is. *)
Record DefocalImage (Img : Type) : Type := mkDefocalImage {
  intraImg : option Img;
  extraImg : option Img
}.
Arguments mkDefocalImage {Img} intraImg extraImg.
Arguments intraImg {Img} d.
Arguments extraImg {Img} d.

Definition DefocalImage_setImg {Img} (d : DefocalImage Img)
    (intra extra : option Img) : DefocalImage Img :=
  mkDefocalImage
    (match intra with Some _ => intra | None => intraImg d end)
    (match extra with Some _ => extra | None => extraImg d end).

(** Modelled from the spec: a [DonutImage] is the defocal image pair of one
    star, with the id of the star and its pixel position on the detector;
    [DonutImage(starId, pixelX, pixelY)] has no image yet. *)
Record DonutImage (Img Num : Type) : Type := mkDonutImage {
  starId : Z;
  pixelX : Num;
  pixelY : Num;
  donutImgs : DefocalImage Img
}.
Arguments mkDonutImage {Img Num} starId pixelX pixelY donutImgs.
Arguments starId {Img Num} d.
Arguments pixelX {Img Num} d.
Arguments pixelY {Img Num} d.
Arguments donutImgs {Img Num} d.

Definition newDonutImage {Img Num} (starId : Z) (pixelX pixelY : Num)
    : DonutImage Img Num :=
  mkDonutImage starId pixelX pixelY (mkDefocalImage None None).

Definition DonutImage_setImg {Img Num} (d : DonutImage Img Num)
    (intra extra : option Img) : DonutImage Img Num :=
  mkDonutImage (starId d) (pixelX d) (pixelY d)
               (DefocalImage_setImg (donutImgs d) intra extra).

(** * python/lsst/ts/wep/bsc/LocalDatabase.py *)

Module LocalDatabase.

(** ** The catalog store

    The sqlite3 connection is an external collaborator.  A catalog table
    is a list of rows in insertion order; REAL values are exact rationals.
    The connection sees its own pending changes ([conn_view]); [commit]
    publishes them ([conn_file]). *)

Record row : Type := Row {
  row_id : Z;
  row_simobjid : Z;
  row_ra : Q;
  row_decl : Q;
  row_mag : Q;
  row_bright_star : bool
}.

Record connection : Type := Connection {
  conn_view : gmap string (list row);
  conn_file : gmap string (list row)
}.

(** [self.connection.commit()] *)
Definition commit : M connection unit :=
  modify (λ c, Connection (conn_view c) (conn_view c)).

(** The table of a filter: ["BrightStarCatalog" + cameraFilter.upper()]. *)
Definition tableName (cameraFilter : string) : string :=
  "BrightStarCatalog" +:+ PyStr.upper cameraFilter.

(** The table a statement names; sqlite3 raises when it does not exist. *)
Definition table_of (name : string) : M connection (list row) :=
  c ← get_state;
  match conn_view c !! name with
  | Some rows => mret rows
  | None => raise SqliteError
  end.

(** The integer nearest to [q], ties to even: the rounding of ["%f"]. *)
Definition round_half_even (q : Q) : Z :=
  let n := Qnum q in
  let d := Z.pos (Qden q) in
  let fl := (n / d)%Z in
  let r2 := (2 * (n mod d))%Z in
  if (r2 <? d)%Z then fl
  else if (d <? r2)%Z then (fl + 1)%Z
  else if Z.even fl then fl else (fl + 1)%Z.

(** The number the text ["%f" % x] denotes: [x] rounded to six decimal
    places.  Coordinates are rationals here.  A Python float is a binary
    fraction, and ["%f"] rounds its binary value: for a decimal with a
    five in its seventh place the float lies next to the tie and the text
    may fall on the other side (["%f" % 0.3000005] is "0.300001").  What
    is proved of the search is stated at positions from which no digit is
    rounded away ([six_decimals]), or at an input away from a tie. *)
Definition percent_f (x : Q) : Q :=
  Qmake (round_half_even (x * 1000000)) 1000000.

(** ["SELECT id FROM <table> WHERE ra = <ra> AND decl = <decl>"] followed
    by [fetchall()]: the ids of the rows whose coordinates equal the two
    literals. *)
Definition select_id_where_ra_decl (table : string) (ra decl : Q)
    : M connection (list Z) :=
  rows ← table_of table;
  mret (row_id <$> filter (λ r, Qeq_bool (row_ra r) ra = true
                               ∧ Qeq_bool (row_decl r) decl = true) rows).

(** The id sqlite3 gives a new row: one more than the largest one. *)
Definition next_id (rows : list row) : Z :=
  (foldr Z.max 0 (row_id <$> rows) + 1)%Z.

(** ["INSERT INTO <table> (simobjid, ra, decl, <f>mag, bright_star)
    VALUES (?, ?, ?, ?, ?)"] with the five bound values. *)
Definition insert_into (table : string) (task : Z * Q * Q * Q * bool)
    : M connection unit :=
  rows ← table_of table;
  let '(simobjid, ra, decl, mag, brightStar) := task in
  let r := Row (next_id rows) simobjid ra decl mag brightStar in
  modify (λ c, Connection (<[table := rows ++ [r]]> (conn_view c)) (conn_file c)).

(** Modelled from the spec: the filter constants of the base class
    [BrightStarDatabase] ("Filter type of camera: u, g, r, i, z, y"). *)
Definition FilterU : string := "u".
Definition FilterG : string := "g".
Definition FilterR : string := "r".
Definition FilterI : string := "i".
Definition FilterZ : string := "z".
Definition FilterY : string := "y".

(** ** searchRaDecl *)

Definition searchRaDecl (cameraFilter : string) (ra decl : Q)
    : M connection (list Z) :=
  select_id_where_ra_decl (tableName cameraFilter)
                          (percent_f ra) (percent_f decl).

(** ** insertData *)

(** [x in l] on a list of ids. *)
Definition id_in (x : Z) (l : list Z) : bool := bool_decide (x ∈ l).

(** First loop: the bright stars whose position is already in the table. *)
Definition existing_ids (cameraFilter : string) (nsm : NeighboringStar)
    (brightStarList : list Z) : M connection (list Z) :=
  foldM (λ existIdList id,
           raDec ← lift (getitem (RaDecl nsm) id);
           found ← searchRaDecl cameraFilter raDec.1 raDec.2;
           mret (match found with
                 | [] => existIdList
                 | _ => existIdList ++ [id]
                 end))
        brightStarList [].

(** Inner loop: the neighbors of one bright star not listed yet. *)
Definition add_neighbors (allStarList neighbors : list Z) : list Z :=
  foldl (λ allStarList starID,
           if id_in starID allStarList then allStarList
           else allStarList ++ [starID])
        allStarList neighbors.

(** Second loop: [(remainIdList, allStarList)]. *)
Definition remaining_ids (nsm : NeighboringStar)
    (brightStarList existIdList : list Z) : res (list Z * list Z) :=
  for_each (λ '(remainIdList, allStarList) id,
              if id_in id existIdList then Ok (remainIdList, allStarList)
              else
                neighbors ← assoc_getitem (SimobjID nsm) id;
                Ok (remainIdList ++ [id],
                    add_neighbors (allStarList ++ [id]) neighbors))
           brightStarList ([], []).

(** The [if]/[elif] chain that binds [mag]; [None] when no branch is
    taken and the name stays unbound. *)
Definition magnitude (cameraFilter : string) (nsm : NeighboringStar)
    (simobjID : Z) : res (option Q) :=
  if String.eqb cameraFilter FilterU then Some <$> getitem (LSSTMagU nsm) simobjID
  else if String.eqb cameraFilter FilterG then Some <$> getitem (LSSTMagG nsm) simobjID
  else if String.eqb cameraFilter FilterR then Some <$> getitem (LSSTMagR nsm) simobjID
  else if String.eqb cameraFilter FilterI then Some <$> getitem (LSSTMagI nsm) simobjID
  else if String.eqb cameraFilter FilterZ then Some <$> getitem (LSSTMagZ nsm) simobjID
  else if String.eqb cameraFilter FilterY then Some <$> getitem (LSSTMagY nsm) simobjID
  else Ok None.

(** Body of the third loop: insert one star. *)
Definition insert_star (cameraFilter : string) (nsm : NeighboringStar)
    (remainIdList : list Z) (simobjID : Z) : M connection unit :=
  raDec ← lift (getitem (RaDecl nsm) simobjID);
  omag ← lift (magnitude cameraFilter nsm simobjID);
  let brightStar := id_in simobjID remainIdList in
  match omag with
  | None => raise UnboundLocalError
  | Some mag =>
      insert_into (tableName cameraFilter)
                  (simobjID, raDec.1, raDec.2, mag, brightStar)
  end.

Definition insertData (cameraFilter : string) (nsm : NeighboringStar)
    : M connection unit :=
  let brightStarList := (SimobjID nsm).*1 in
  existIdList ← existing_ids cameraFilter nsm brightStarList;
  '(remainIdList, allStarList) ←
     lift (remaining_ids nsm brightStarList existIdList);
  _ ← for_ allStarList (insert_star cameraFilter nsm remainIdList);
  commit.

(** ** updateData *)

Section UpdateData.

(** The new values are arbitrary Python objects; [str] renders them into
    the statement text, and may raise as any Python call may. *)
Context {V : Type} (str : V → res string).

(** ["UPDATE <table> SET <column>=<value> WHERE id=?"] bound to one id:
    the statement is run by sqlite3, which may refuse it with an
    exception of any class. *)
Context (update_set : string → string → string → Z → M connection unit).

(** The tuple of the membership test. *)
Definition updatable : list string :=
  ["simobjid"; "ra"; "decl"; "mag"; "bright_star"].

(** First loop: every item must be one that can be updated. *)
Definition check_items (listOfItemToChange : list string) : res unit :=
  for_each (λ _ item,
              if bool_decide (item ∈ updatable) then Ok tt
              else Raise (ValueError ("'" +:+ item +:+ "' can not be updated.")))
           listOfItemToChange tt.

(** The column an item names: ["mag"] is the magnitude of the filter. *)
Definition column (cameraFilter itemToChange : string) : string :=
  if String.eqb itemToChange "mag" then cameraFilter +:+ itemToChange
  else itemToChange.

(** Body of the second loop: the command is built from the item and from
    [str] of the new value, then run for the id. *)
Definition update_one (cameraFilter : string) (listID : list Z)
    (listOfItemToChange : list string) (listOfNewValue : list V) (ii : nat)
    : M connection unit :=
  itemToChange ← lift (list_getitem listOfItemToChange ii);
  let itemToChange := column cameraFilter itemToChange in
  newValue ← lift (list_getitem listOfNewValue ii);
  value ← lift (str newValue);
  id ← lift (list_getitem listID ii);
  update_set (tableName cameraFilter) itemToChange value id.

Definition updateData (cameraFilter : string) (listID : list Z)
    (listOfItemToChange : list string) (listOfNewValue : list V)
    : M connection unit :=
  _ ← lift (check_items listOfItemToChange);
  _ ← for_ (seq 0 (length listID))
           (update_one cameraFilter listID listOfItemToChange listOfNewValue);
  commit.

(** *** Properties of updateData *)

Lemma check_items_Ok items :
  Forall (λ item, item ∈ updatable) items → check_items items = Ok tt.
Proof.
  unfold check_items. induction 1 as [|item items Hin _ IH]; [done|].
  cbn [for_each]. rewrite bool_decide_eq_true_2 by done. exact IH.
Qed.

Lemma check_items_Raise items :
  ¬ Forall (λ item, item ∈ updatable) items →
  ∃ item, item ∈ items ∧ (item ∉ updatable) ∧
    check_items items = Raise (ValueError ("'" +:+ item +:+ "' can not be updated.")).
Proof.
  unfold check_items. induction items as [|item items IH]; intros Hno.
  - destruct Hno. constructor.
  - cbn [for_each]. destruct (decide (item ∈ updatable)) as [Hin|Hout].
    + rewrite bool_decide_eq_true_2 by done.
      destruct IH as (bad & ? & ? & ?).
      { intros HF. apply Hno. by constructor. }
      exists bad. split_and!; [by right|done|done].
    + rewrite bool_decide_eq_false_2 by done.
      exists item. split_and!; [by left|done|done].
Qed.

Lemma for_raises {S A} (l : list A) (body : A → M S unit) s e :
  (for_ l body s).1 = Raise e → ∃ a s0, a ∈ l ∧ (body a s0).1 = Raise e.
Proof.
  revert s. induction l as [|a l IH]; intros s; [done|].
  cbn [for_]. unfold mbind, M_bind.
  destruct (body a s) as [[[]|e'] s'] eqn:Hb.
  - intros Hl. destruct (IH _ Hl) as (b & s0 & ? & ?).
    exists b, s0. split; [by right|done].
  - simpl. intros [= ->]. exists a, s. split; [by left|]. by rewrite Hb.
Qed.

(** The statement [updateData] runs for one id, with its item and its
    new value: the column of the item "mag" is the magnitude column of
    the filter, the column of another item is the item. *)
Definition statement (cameraFilter : string)
    (idItemValue : Z * (string * V)) : M connection unit :=
  value ← lift (str idItemValue.2.2);
  update_set (tableName cameraFilter)
             (if String.eqb idItemValue.2.1 "mag"
              then cameraFilter +:+ "mag" else idItemValue.2.1)
             value idItemValue.1.

(** The loop over the positions of [listID] runs the statements of the
    ids with the items and the values at their positions. *)
Lemma for_update_one_zip cameraFilter listID items values ids :
  ∀ k its vals c,
    drop k listID = ids → drop k items = its → drop k values = vals →
    length its = length ids → length vals = length ids →
    for_ (seq k (length ids))
         (update_one cameraFilter listID items values) c
    = for_ (zip ids (zip its vals)) (statement cameraFilter) c.
Proof.
  induction ids as [|id ids IH]; intros k its vals c Hids Hits Hvals Hl1 Hl2;
    [done|].
  destruct its as [|item its]; [done|]. destruct vals as [|value vals]; [done|].
  assert (∀ {A} (l : list A) x l', drop k l = x :: l' →
            l !! k = Some x ∧ drop (S k) l = l') as Hdrop.
  { intros A l x l' Hl.
    assert (l !! k = Some x) as Hx.
    { pose proof (lookup_drop l k 0) as H0. rewrite Hl, Nat.add_0_r in H0.
      by rewrite <- H0. }
    split; [done|]. rewrite (drop_S _ _ _ Hx) in Hl. by injection Hl. }
  apply Hdrop in Hids as [Hid Hids], Hits as [Hitem Hits],
    Hvals as [Hvalue Hvals].
  cbn [length seq zip zip_with for_]. unfold mbind, M_bind.
  assert (update_one cameraFilter listID items values k c
          = statement cameraFilter (id, (item, value)) c) as ->.
  { unfold update_one, statement, column, lift, list_getitem.
    unfold mbind, M_bind. rewrite Hitem, Hvalue, Hid. cbn [fst snd].
    destruct (str value) as [text|e]; [|done].
    destruct (String.eqb_spec item "mag") as [->|]; done. }
  destruct (statement cameraFilter (id, (item, value)) c) as [[[]|e] c1];
    [|done].
  apply IH; [done..|cbn in Hl1; lia|cbn in Hl2; lia].
Qed.

(** C9, as amended.  When some entry of [listOfItemToChange] is outside
    ("simobjid", "ra", "decl", "mag", "bright_star"), [updateData] raises
    the [ValueError] that names the first such entry, whatever [str] and
    sqlite3 do: no statement is run and the connection is as it was
    before the call.  When every entry is inside (and the three lists
    have one length), the check raises nothing and [updateData] runs,
    for the ids in order, the statement of the item and of [str] of the
    new value, the item "mag" naming the magnitude column of the filter,
    and then commits; an exception, a [ValueError] among them, then comes
    from [str] or from sqlite3. *)
Theorem updateData_rejects_unknown_items cameraFilter listID items values c :
  ((∃ item, item ∈ items ∧ item ∉ updatable) →
   ∃ item, item ∈ items ∧ (item ∉ updatable) ∧
     updateData cameraFilter listID items values c
     = (Raise (ValueError ("'" +:+ item +:+ "' can not be updated.")), c))
  ∧ (Forall (λ item, item ∈ updatable) items →
     length items = length listID → length values = length listID →
     updateData cameraFilter listID items values c
     = (_ ← for_ (zip listID (zip items values)) (statement cameraFilter);
        commit) c).
Proof.
  split.
  - intros (item & Hin & Hout).
    destruct (check_items_Raise items) as (bad & Hbad & Hnot & Hchk).
    { intros HF. apply Hout. by eapply Forall_forall in HF. }
    exists bad. split_and!; [done..|].
    unfold updateData, lift, mbind, M_bind. by rewrite Hchk.
  - intros Hvalid Hitems Hvalues. unfold updateData, lift.
    unfold mbind at 1, M_bind at 1. rewrite (check_items_Ok _ Hvalid).
    unfold mbind, M_bind.
    by rewrite (for_update_one_zip cameraFilter listID items values listID
                  0%nat items values c).
Qed.

End UpdateData.

(** *** Worked inputs *)

(** A stand-in for the engine: the statement is accepted when the table
    exists (the rows are left as they are). *)
Definition update_set_checked (table col value : string) (id : Z)
    : M connection unit :=
  _ ← table_of table; mret tt.

(** A catalog with the empty table of the g filter. *)
Definition empty_catalog : connection :=
  Connection {["BrightStarCatalogG" := []]} {["BrightStarCatalogG" := []]}.

(** One bright star, no neighbor, at the given right ascension. *)
Definition lone_star (ra : Q) : NeighboringStar := {|
  SimobjID := [(123%Z, [])];
  RaDecl := {[123%Z := (ra, 2.1%Q)]};
  LSSTMagU := {[123%Z := 2%Q]};
  LSSTMagG := {[123%Z := 2%Q]};
  LSSTMagR := {[123%Z := 2%Q]};
  LSSTMagI := {[123%Z := 2%Q]};
  LSSTMagZ := {[123%Z := 2%Q]};
  LSSTMagY := {[123%Z := 2%Q]}
|}.

(** The number of rows of the g table after [n] calls of [insertData]. *)
Fixpoint rows_after (n : nat) (nsm : NeighboringStar) (c : connection)
    : option nat :=
  match n with
  | O => length <$> conn_view c !! "BrightStarCatalogG"
  | S n' =>
      match insertData "g" nsm c with
      | (Ok _, c') => rows_after n' nsm c'
      | (Raise _, _) => None
      end
  end.

(** An item list with the unknown item "magnitude". *)
Lemma updateData_rejects_unknown_items_witness :
  ∃ item, item ∈ ["ra"; "magnitude"] ∧ (item ∉ updatable) ∧
    updateData (λ z : Z, Ok (pretty z)) update_set_checked "g" [1%Z; 2%Z]
               ["ra"; "magnitude"] [10%Z; 20%Z] (Connection ∅ ∅)
    = (Raise (ValueError ("'" +:+ item +:+ "' can not be updated.")),
       Connection ∅ ∅).
Proof.
  apply (updateData_rejects_unknown_items (λ z : Z, Ok (pretty z))
           update_set_checked "g" [1%Z; 2%Z] ["ra"; "magnitude"]
           [10%Z; 20%Z] (Connection ∅ ∅)).
  exists "magnitude". split; [right; by left|].
  unfold updatable. intros Hin.
  repeat (apply elem_of_cons in Hin as [[=]|Hin]). by apply elem_of_nil in Hin.
Defined.

(** *** insertData called twice *)

(** The text ["%f" % 0.1234567] is 0.123457. *)
Example percent_f_rounds :
  percent_f 0.1234567 = (123457 # 1000000)%Q ∧ percent_f 0.1 = (100000 # 1000000)%Q.
Proof. split; reflexivity. Qed.

(** With a position of at most six decimals the second call inserts
    nothing. *)
Example insertData_twice_short_position :
  rows_after 1 (lone_star 0.1) empty_catalog = Some 1%nat ∧
  rows_after 2 (lone_star 0.1) empty_catalog = Some 1%nat.
Proof. split; vm_compute; reflexivity. Qed.

(** C10, at the failing input.  The right ascension 0.1234567 has seven
    decimals: [searchRaDecl] looks for 0.123457, does not find the star the
    first call stored, and the second call stores it again. *)
Theorem insertData_twice_inserts_again :
  (searchRaDecl "g" 0.1234567 2.1
     (insertData "g" (lone_star 0.1234567) empty_catalog).2).1 = Ok [] ∧
  rows_after 1 (lone_star 0.1234567) empty_catalog = Some 1%nat ∧
  rows_after 2 (lone_star 0.1234567) empty_catalog = Some 2%nat.
Proof. split_and!; vm_compute; reflexivity. Qed.

(** ** deleteData and getAllId *)

(** ["DELETE FROM <table> WHERE id=?"] bound to one id. *)
Definition delete_where_id (table : string) (id : Z) : M connection unit :=
  rows ← table_of table;
  modify (λ c, Connection
                 (<[table := filter (λ r, row_id r ≠ id) rows]> (conn_view c))
                 (conn_file c)).

Definition deleteData (cameraFilter : string) (listID : list Z)
    : M connection unit :=
  _ ← for_ listID (delete_where_id (tableName cameraFilter));
  commit.

(** ["SELECT id FROM <table>"] followed by [fetchall()]: one tuple of
    one id per row. *)
Definition select_id (table : string) : M connection (list Z) :=
  rows ← table_of table;
  mret (row_id <$> rows).

(** What [tolist()] gives: a number or a list of numbers. *)
Inductive idResult : Type :=
  | IdScalar (id : Z)
  | IdList (ids : list Z).

(** [np.asarray(listID).squeeze().tolist()] on a list of tuples of one
    id: [squeeze] drops every axis of length one, so the array of one
    row becomes an array without axis, whose [tolist()] is a number. *)
Definition squeeze_tolist (ids : list Z) : idResult :=
  match ids with
  | [id] => IdScalar id
  | _ => IdList ids
  end.

Definition getAllId (cameraFilter : string) : M connection idResult :=
  listID ← select_id (tableName cameraFilter);
  mret (squeeze_tolist listID).

(** *** Properties of deleteData *)

Lemma filter_not_listed_nil (rows : list row) :
  filter (λ r, row_id r ∉ @nil Z) rows = rows.
Proof.
  induction rows as [|r rows IH]; [done|].
  rewrite filter_cons, decide_True by apply not_elem_of_nil.
  by rewrite IH.
Qed.

Lemma for_delete_where_id table listID c rows :
  conn_view c !! table = Some rows →
  for_ listID (delete_where_id table) c
  = (Ok tt,
     match listID with
     | [] => c
     | _ => Connection
              (<[table := filter (λ r, row_id r ∉ listID) rows]> (conn_view c))
              (conn_file c)
     end).
Proof.
  revert c rows. induction listID as [|id listID IH]; intros c rows Hrows.
  - done.
  - cbn [for_]. unfold mbind at 1, M_bind at 1.
    unfold delete_where_id at 1, table_of, get_state, modify, mbind, M_bind.
    rewrite Hrows. cbn.
    rewrite (IH _ (filter (λ r, row_id r ≠ id) rows)) by apply lookup_insert_eq.
    f_equal. cbn [conn_view conn_file].
    assert (filter (λ r, row_id r ∉ listID) (filter (λ r, row_id r ≠ id) rows)
            = filter (λ r, row_id r ∉ id :: listID) rows) as Hfilter.
    { clear. induction rows as [|r rows IH]; [done|].
      rewrite !filter_cons. destruct (decide (row_id r ≠ id)) as [Hne|Heq].
      - rewrite filter_cons.
        destruct (decide (row_id r ∉ listID)) as [Hout|Hin].
        + rewrite decide_True by (by apply not_elem_of_cons). by rewrite IH.
        + rewrite decide_False; [done|].
          intros [_ ?]%not_elem_of_cons. done.
      - rewrite decide_False; [done|].
        intros [? _]%not_elem_of_cons. done. }
    destruct listID as [|id' listID].
    + by rewrite <- Hfilter, filter_not_listed_nil.
    + by rewrite insert_insert_eq, Hfilter.
Qed.


(** *** Properties of getAllId *)

Lemma getAllId_rows cameraFilter c rows :
  conn_view c !! tableName cameraFilter = Some rows →
  getAllId cameraFilter c
  = (Ok (match rows with
         | [r] => IdScalar (row_id r)
         | _ => IdList (row_id <$> rows)
         end), c).
Proof.
  intros Hrows.
  unfold getAllId, select_id, table_of, get_state, mbind, M_bind.
  rewrite Hrows. cbn. by destruct rows as [|r [|r' rows]].
Qed.

(** After [deleteData], [getAllId] gives the ids of the rows that were
    not listed, in the order of the rows: as a list, unless exactly one
    row is left; then it gives the id of that row as a number, not as a
    list of one number. *)
Theorem deleteData_then_getAllId cameraFilter listID c rows :
  conn_view c !! tableName cameraFilter = Some rows →
  ∃ c',
    deleteData cameraFilter listID c = (Ok tt, c') ∧
    getAllId cameraFilter c'
    = (Ok (match filter (λ r, row_id r ∉ listID) rows with
           | [r] => IdScalar (row_id r)
           | kept => IdList (row_id <$> kept)
           end), c').
Proof.
  intros Hrows. unfold deleteData, mbind, M_bind.
  rewrite (for_delete_where_id _ _ _ rows Hrows).
  eexists. split; [reflexivity|].
  rewrite (getAllId_rows _ _ (filter (λ r, row_id r ∉ listID) rows)).
  - by destruct (filter _ rows) as [|r [|r' kept]].
  - destruct listID as [|id listID]; cbn [commit modify conn_view].
    + by rewrite Hrows, filter_not_listed_nil.
    + apply lookup_insert_eq.
Qed.

(** *** Properties of insertData *)

(** One iteration of the first loop. *)
Definition search_step (cameraFilter : string) (nsm : NeighboringStar)
    (existIdList : list Z) (id : Z) : M connection (list Z) :=
  raDec ← lift (getitem (RaDecl nsm) id);
  found ← searchRaDecl cameraFilter raDec.1 raDec.2;
  mret (match found with
        | [] => existIdList
        | _ => existIdList ++ [id]
        end).

(** One iteration of the second loop. *)
Definition remain_step (nsm : NeighboringStar) (existIdList : list Z)
    : list Z * list Z → Z → res (list Z * list Z) :=
  λ '(remainIdList, allStarList) id,
    if id_in id existIdList then Ok (remainIdList, allStarList)
    else
      neighbors ← assoc_getitem (SimobjID nsm) id;
      Ok (remainIdList ++ [id], add_neighbors (allStarList ++ [id]) neighbors).

(** The rows at the position the text of [ra] and [decl] denotes. *)
Definition rows_at (rows : list row) (ra decl : Q) : list row :=
  filter (λ r, Qeq_bool (row_ra r) (percent_f ra) = true
               ∧ Qeq_bool (row_decl r) (percent_f decl) = true) rows.

(** The search for the position of star [id] finds a row. *)
Definition stored (rows : list row) (nsm : NeighboringStar) (id : Z) : bool :=
  match RaDecl nsm !! id with
  | Some (ra, decl) =>
      match rows_at rows ra decl with
      | [] => false
      | _ => true
      end
  | None => false
  end.

(** The text ["%f" % x] denotes [x] itself: [x] has at most six
    decimals. *)
Definition six_decimals (x : Q) : Prop := (percent_f x == x)%Q.

(** These are the multiples of a millionth: for them no digit is rounded
    away, whichever way ["%f"] rounds. *)
Lemma six_decimals_iff x :
  six_decimals x ↔ ∃ n : Z, (x == n # 1000000)%Q.
Proof.
  unfold six_decimals, percent_f. split.
  - intros Hx. exists (round_half_even (x * 1000000)). by symmetry.
  - intros [n Hn]. rewrite Hn at 2.
    assert (round_half_even (x * 1000000) = n) as ->; [|reflexivity].
    unfold Qeq in Hn. cbn [Qnum Qden] in Hn.
    unfold round_half_even. cbn [Qmult Qnum Qden].
    rewrite Pos.mul_1_r, Hn.
    rewrite Z.div_mul, Z.mod_mul by done.
    done.
Qed.

Lemma searchRaDecl_rows cameraFilter ra decl c rows :
  conn_view c !! tableName cameraFilter = Some rows →
  searchRaDecl cameraFilter ra decl c
  = (Ok (row_id <$> rows_at rows ra decl), c).
Proof.
  intros Hrows.
  unfold searchRaDecl, select_id_where_ra_decl, table_of, get_state.
  unfold mbind, M_bind. by rewrite Hrows.
Qed.

Lemma search_step_found cameraFilter nsm acc id c rows :
  conn_view c !! tableName cameraFilter = Some rows →
  is_Some (RaDecl nsm !! id) →
  search_step cameraFilter nsm acc id c
  = (Ok (if stored rows nsm id then acc ++ [id] else acc), c).
Proof.
  intros Hrows [[ra decl] Hrd]. unfold search_step, lift, getitem.
  unfold mbind at 1, M_bind at 1. rewrite Hrd.
  unfold mbind, M_bind. cbn [fst snd].
  rewrite (searchRaDecl_rows _ _ _ _ rows Hrows).
  unfold stored. rewrite Hrd. by destruct (rows_at rows ra decl).
Qed.

Lemma search_step_inv cameraFilter nsm acc id c r c' :
  search_step cameraFilter nsm acc id c = (r, c') →
  c' = c ∧
  (∀ acc', r = Ok acc' →
     is_Some (conn_view c !! tableName cameraFilter) ∧
     is_Some (RaDecl nsm !! id)).
Proof.
  unfold search_step, lift, getitem.
  unfold mbind at 1, M_bind at 1.
  destruct (RaDecl nsm !! id) as [[ra decl]|] eqn:Hrd.
  - unfold mbind, M_bind. cbn [fst snd].
    unfold searchRaDecl, select_id_where_ra_decl, table_of, get_state.
    unfold mbind, M_bind.
    destruct (conn_view c !! tableName cameraFilter) as [rows|] eqn:Hrows.
    + intros [= <- <-]. eauto.
    + intros [= <- <-]. split; [done|]. intros ? [=].
  - intros [= <- <-]. split; [done|]. intros ? [=].
Qed.

Lemma existing_ids_inv cameraFilter nsm l acc c exist c' :
  foldM (search_step cameraFilter nsm) l acc c = (Ok exist, c') →
  c' = c ∧
  (l ≠ [] → is_Some (conn_view c !! tableName cameraFilter)) ∧
  Forall (λ id, is_Some (RaDecl nsm !! id)) l ∧
  (∀ rows, conn_view c !! tableName cameraFilter = Some rows →
     exist = acc ++ filter (λ id, stored rows nsm id) l).
Proof.
  revert acc. induction l as [|id l IH]; intros acc.
  - intros [= <- <-]. split_and!; [done|done|done|].
    intros rows _. by rewrite app_nil_r.
  - cbn [foldM]. unfold mbind at 1, M_bind at 1.
    destruct (search_step cameraFilter nsm acc id c) as [[acc1|e] c1] eqn:Hstep;
      [|done].
    destruct (search_step_inv _ _ _ _ _ _ _ Hstep) as [-> Hsome].
    destruct (Hsome _ eq_refl) as [Htable Hrd].
    intros Hl. destruct (IH _ Hl) as (-> & _ & HF & Hexist).
    split_and!; [done|done|by constructor|].
    intros rows Hrows. rewrite (Hexist rows Hrows).
    rewrite (search_step_found _ _ _ _ _ rows Hrows Hrd) in Hstep.
    injection Hstep as <-. rewrite filter_cons.
    destruct (stored rows nsm id).
    + rewrite decide_True by done. by rewrite <- app_assoc.
    + by rewrite decide_False by (intros []).
Qed.


Lemma elem_of_add_neighbors x allStarList neighbors :
  x ∈ add_neighbors allStarList neighbors ↔ x ∈ allStarList ∨ x ∈ neighbors.
Proof.
  unfold add_neighbors. revert allStarList.
  induction neighbors as [|n neighbors IH]; intros allStarList; cbn [foldl].
  - rewrite elem_of_nil. tauto.
  - rewrite IH, elem_of_cons. unfold id_in. case_bool_decide as Hin.
    + split; [tauto|]. intros [?|[->|?]]; tauto.
    + rewrite elem_of_app, list_elem_of_singleton. tauto.
Qed.

Lemma NoDup_add_neighbors allStarList neighbors :
  NoDup allStarList → NoDup (add_neighbors allStarList neighbors).
Proof.
  unfold add_neighbors. revert allStarList.
  induction neighbors as [|n neighbors IH]; intros allStarList Hnd; cbn [foldl];
    [done|].
  apply IH. unfold id_in. case_bool_decide as Hin; [done|].
  apply NoDup_app. split_and!; [done| |apply NoDup_singleton].
  intros x Hx ->%list_elem_of_singleton. done.
Qed.



Lemma remaining_ids_NoDup nsm exist l remain allStars remain' allStars' :
  for_each (remain_step nsm exist) l (remain, allStars)
  = Ok (remain', allStars') →
  NoDup allStars → NoDup l → (∀ x, x ∈ allStars → x ∉ l) →
  (∀ id neighbors x, id ∈ l →
     assoc_getitem (SimobjID nsm) id = Ok neighbors → x ∈ neighbors → x ∉ l) →
  NoDup allStars'.
Proof.
  revert remain allStars. induction l as [|id l IH];
    intros remain allStars Hl Hnd Hl_nd Hfresh Hnb.
  - by injection Hl as <- <-.
  - apply for_each_cons_Ok in Hl as ([remain1 all1] & Hstep & Hl).
    apply NoDup_cons in Hl_nd as [Hid Hl_nd].
    unfold remain_step, id_in in Hstep. case_bool_decide as Hin.
    + injection Hstep as <- <-. apply (IH _ _ Hl); [done|done| |].
      * intros x Hx Hxl. apply (Hfresh x Hx). by right.
      * intros b nbrs x Hb Hnbrs Hx Hxl.
        apply (Hnb b nbrs x); [by right|done|done|by right].
    + destruct (assoc_getitem (SimobjID nsm) id) as [neighbors|e] eqn:Hnbrs;
        [|done].
      cbn in Hstep. injection Hstep as <- <-. apply (IH _ _ Hl).
      * apply NoDup_add_neighbors, NoDup_app.
        split_and!; [done| |apply NoDup_singleton].
        intros x Hx ->%list_elem_of_singleton. apply (Hfresh id Hx). by left.
      * done.
      * intros x [[Hx| ->%list_elem_of_singleton]%elem_of_app|Hx]%elem_of_add_neighbors Hxl.
        -- apply (Hfresh x Hx). by right.
        -- done.
        -- apply (Hnb id neighbors x); [by left|done|done|by right].
      * intros b nbrs x Hb Hnbrs' Hx Hxl.
        apply (Hnb b nbrs x); [by right|done|done|by right].
Qed.

(** The rows the third loop writes: one per star of [allStarList], in
    its order, after the rows the table has. *)
Lemma for_insert_star cameraFilter nsm remain allStars c c' rows :
  conn_view c !! tableName cameraFilter = Some rows →
  for_ allStars (insert_star cameraFilter nsm remain) c = (Ok tt, c') →
  ∃ new,
    conn_view c' = <[tableName cameraFilter := rows ++ new]> (conn_view c) ∧
    conn_file c' = conn_file c ∧
    row_simobjid <$> new = allStars ∧
    Forall (λ r, RaDecl nsm !! row_simobjid r = Some (row_ra r, row_decl r) ∧
                 magnitude cameraFilter nsm (row_simobjid r)
                 = Ok (Some (row_mag r)) ∧
                 row_bright_star r = id_in (row_simobjid r) remain) new.
Proof.
  revert c rows. induction allStars as [|id allStars IH]; intros c rows Hrows.
  - intros [= <-]. exists []. split_and!; [|done|done|done].
    by rewrite app_nil_r, insert_id.
  - cbn [for_]. unfold mbind at 1, M_bind at 1.
    destruct (insert_star cameraFilter nsm remain id c) as [[[]|e] c1] eqn:Hone;
      [|done].
    unfold insert_star, lift, getitem in Hone.
    unfold mbind at 1, M_bind at 1 in Hone.
    destruct (RaDecl nsm !! id) as [[ra decl]|] eqn:Hrd; [|done].
    unfold mbind at 1, M_bind at 1 in Hone.
    destruct (magnitude cameraFilter nsm id) as [[mag|]|e] eqn:Hmag; [|done|done].
    unfold insert_into, table_of, get_state, modify, mbind, M_bind in Hone.
    rewrite Hrows in Hone. cbn in Hone. injection Hone as <-.
    intros Hl. eapply IH in Hl as (new & Hview & Hfile & Hids & HF);
      [|apply lookup_insert_eq].
    exists (Row (next_id rows) id ra decl mag (id_in id remain) :: new).
    split_and!.
    + rewrite Hview. cbn. by rewrite insert_insert_eq, <- app_assoc.
    + by rewrite Hfile.
    + by rewrite fmap_cons, Hids.
    + constructor; [|done]. by cbn.
Qed.

Lemma existing_ids_unfold cameraFilter nsm l :
  existing_ids cameraFilter nsm l = foldM (search_step cameraFilter nsm) l [].
Proof. reflexivity. Qed.

Lemma remaining_ids_unfold nsm l exist :
  remaining_ids nsm l exist = for_each (remain_step nsm exist) l ([], []).
Proof. reflexivity. Qed.

Lemma insertData_inv cameraFilter nsm c c' rows :
  insertData cameraFilter nsm c = (Ok tt, c') →
  conn_view c !! tableName cameraFilter = Some rows →
  ∃ remain allStars new,
    remaining_ids nsm (SimobjID nsm).*1
      (filter (λ id, stored rows nsm id) (SimobjID nsm).*1)
    = Ok (remain, allStars) ∧
    c' = Connection (<[tableName cameraFilter := rows ++ new]> (conn_view c))
                    (<[tableName cameraFilter := rows ++ new]> (conn_view c)) ∧
    row_simobjid <$> new = allStars ∧
    Forall (λ r, RaDecl nsm !! row_simobjid r = Some (row_ra r, row_decl r) ∧
                 magnitude cameraFilter nsm (row_simobjid r)
                 = Ok (Some (row_mag r)) ∧
                 row_bright_star r = id_in (row_simobjid r) remain) new.
Proof.
  intros Hins Hrows. unfold insertData in Hins. cbv zeta in Hins.
  unfold mbind at 1, M_bind at 1 in Hins.
  rewrite existing_ids_unfold in Hins.
  destruct (foldM _ _ _ c) as [[exist|e] c1] eqn:Hexist; [|done].
  destruct (existing_ids_inv _ _ _ _ _ _ _ Hexist) as (-> & _ & _ & Hfilter).
  rewrite (Hfilter rows Hrows) in Hins. cbn [app] in Hins.
  unfold mbind at 1, M_bind at 1, lift in Hins.
  destruct (remaining_ids nsm _ _) as [[remain allStars]|e] eqn:Hremain; [|done].
  unfold mbind, M_bind in Hins.
  destruct (for_ allStars _ c) as [[[]|e] c2] eqn:Hfor; [|done].
  injection Hins as <-.
  destruct (for_insert_star _ _ _ _ _ _ rows Hrows Hfor)
    as (new & Hview & _ & Hids & HF).
  exists remain, allStars, new. by rewrite Hview.
Qed.

Lemma insertData_no_table cameraFilter nsm c c' :
  insertData cameraFilter nsm c = (Ok tt, c') →
  conn_view c !! tableName cameraFilter = None →
  c' = Connection (conn_view c) (conn_view c).
Proof.
  intros Hins Hnone. unfold insertData in Hins. cbv zeta in Hins.
  unfold mbind at 1, M_bind at 1 in Hins.
  rewrite existing_ids_unfold in Hins.
  destruct (foldM _ _ _ c) as [[exist|e] c1] eqn:Hexist; [|done].
  destruct (existing_ids_inv _ _ _ _ _ _ _ Hexist) as (-> & Htable & _ & _).
  destruct ((SimobjID nsm).*1) as [|id l].
  - injection Hexist as <-. by injection Hins as <-.
  - destruct Htable as [rows Hrows]; [done|congruence].
Qed.


(** [insertData] only appends: when it returns, the rows the table had
    are still there, unchanged and in their order, followed by the new
    rows; every new row carries the position and the magnitude that
    [neighborStarMap] gives for its star; the other tables are as they
    were; and the change is committed. *)
Theorem insertData_appends_rows cameraFilter nsm c c' :
  insertData cameraFilter nsm c = (Ok tt, c') →
  conn_file c' = conn_view c' ∧
  (∀ table, table ≠ tableName cameraFilter →
     conn_view c' !! table = conn_view c !! table) ∧
  ∃ new,
    conn_view c' !! tableName cameraFilter
    = (λ rows, rows ++ new) <$> conn_view c !! tableName cameraFilter ∧
    Forall (λ r, RaDecl nsm !! row_simobjid r = Some (row_ra r, row_decl r) ∧
                 magnitude cameraFilter nsm (row_simobjid r)
                 = Ok (Some (row_mag r))) new.
Proof.
  intros Hins.
  destruct (conn_view c !! tableName cameraFilter) as [rows|] eqn:Hrows.
  - destruct (insertData_inv _ _ _ _ rows Hins Hrows)
      as (remain & allStars & new & _ & -> & _ & HF).
    cbn [conn_view conn_file]. split_and!; [done| |].
    + intros table Hne. by rewrite lookup_insert_ne.
    + exists new. split; [by rewrite lookup_insert_eq|].
      eapply Forall_impl; [exact HF|]. cbn. tauto.
  - rewrite (insertData_no_table _ _ _ _ Hins Hrows).
    cbn [conn_view conn_file]. split_and!; [done|done|].
    exists []. by rewrite Hrows.
Qed.

(** The keys of a dictionary are distinct, and [d[k]] is the value
    stored under [k]. *)
Lemma assoc_getitem_elem_of {V} (d : list (Z * V)) k v :
  assoc_getitem d k = Ok v → (k, v) ∈ d.
Proof.
  unfold assoc_getitem.
  destruct (list_find _ d) as [[i [k' v']]|] eqn:Hfind; [|done].
  intros [= <-]. apply list_find_Some in Hfind as (Hi & Hk & _).
  cbn in Hk. subst k'. by eapply list_elem_of_lookup_2.
Qed.

(** Each star is inserted once: when no bright star is listed among the
    neighbors of a bright star, the rows one call adds belong to
    distinct stars. *)
Theorem insertData_inserts_each_star_once cameraFilter nsm c c' rows new :
  insertData cameraFilter nsm c = (Ok tt, c') →
  conn_view c !! tableName cameraFilter = Some rows →
  conn_view c' !! tableName cameraFilter = Some (rows ++ new) →
  NoDup (SimobjID nsm).*1 →
  (∀ id neighbors x, (id, neighbors) ∈ SimobjID nsm → x ∈ neighbors →
     x ∉ (SimobjID nsm).*1) →
  NoDup (row_simobjid <$> new).
Proof.
  intros Hins Hrows Hrows' Hkeys Hnb.
  destruct (insertData_inv _ _ _ _ rows Hins Hrows)
    as (remain & allStars & new' & Hremain & -> & Hids & _).
  cbn [conn_view] in Hrows'. rewrite lookup_insert_eq in Hrows'.
  injection Hrows' as ->%app_inv_head. rewrite Hids.
  rewrite remaining_ids_unfold in Hremain.
  eapply remaining_ids_NoDup;
    [exact Hremain|constructor|done|by intros x []%elem_of_nil|].
  intros id neighbors x _ Hget Hx. eapply Hnb; [|done].
  by apply assoc_getitem_elem_of.
Qed.










(** *** updateData with lists of unequal length *)


Section UpdateDataShortLists.

(** [str] returns on the new values at hand: it is a total function
    here. *)
Context {V : Type} (str : V → string).
Context (update_set : string → string → string → Z → M connection unit).

(** The engine accepts the statements, and a statement does not commit. *)
Hypothesis update_set_accepted : ∀ table col value id c,
  ∃ c', update_set table col value id c = (Ok tt, c') ∧
        conn_file c' = conn_file c.



End UpdateDataShortLists.

(** *** Worked inputs for the catalog *)

(** A bright star with one neighbor. *)
Definition star_with_neighbor : NeighboringStar := {|
  SimobjID := [(123%Z, [456%Z])];
  RaDecl := {[123%Z := (0.1%Q, 2.1%Q); 456%Z := (0.2%Q, 2.2%Q)]};
  LSSTMagU := {[123%Z := 2%Q; 456%Z := 3%Q]};
  LSSTMagG := {[123%Z := 2%Q; 456%Z := 3%Q]};
  LSSTMagR := {[123%Z := 2%Q; 456%Z := 3%Q]};
  LSSTMagI := {[123%Z := 2%Q; 456%Z := 3%Q]};
  LSSTMagZ := {[123%Z := 2%Q; 456%Z := 3%Q]};
  LSSTMagY := {[123%Z := 2%Q; 456%Z := 3%Q]}
|}.

(** The two rows the first call stores for it. *)
Definition two_rows : list row :=
  [Row 1 123 0.1 2.1 2 true; Row 2 456 0.2 2.2 3 false].

Definition two_row_catalog : connection :=
  Connection {["BrightStarCatalogG" := two_rows]}
             {["BrightStarCatalogG" := two_rows]}.


(** A stand-in for sqlite3 on the column bright_star: the statement sets
    the flag of the row of the id.  A text that cannot be encoded as
    UTF-8 makes [cursor.execute] raise [UnicodeEncodeError], which is a
    [ValueError]; the six characters of [surrogate] stand for the text
    of one lone surrogate. *)
Definition surrogate : string := "\ud800".

Definition update_set_flag (table col value : string) (id : Z)
    : M connection unit :=
  rows ← table_of table;
  if String.eqb value surrogate
  then raise (ValueError "'utf-8' codec can't encode character '\ud800'")
  else
    modify (λ c,
      Connection
        (<[table := (λ r, if (row_id r =? id)%Z
                          then Row (row_id r) (row_simobjid r) (row_ra r)
                                   (row_decl r) (row_mag r)
                                   (String.eqb value "1")
                          else r) <$> rows]> (conn_view c))
        (conn_file c)).

(** C9, the claim at items that can all be updated.  The second new
    value cannot be encoded: the statement of the first id has run and
    cleared the flag of its row when sqlite3 raises the [ValueError] for
    the second, where the claim has a [ValueError] only for an item
    outside the tuple, and no row modified when it is raised. *)
Lemma updateData_ValueError_after_update :
  Forall (λ item, item ∈ updatable) ["bright_star"; "bright_star"] ∧
  ∃ msg c',
    updateData Ok update_set_flag "g" [1%Z; 2%Z]
               ["bright_star"; "bright_star"] ["0"; surrogate] two_row_catalog
    = (Raise (ValueError msg), c') ∧
    row_bright_star <$> conn_view two_row_catalog !!! "BrightStarCatalogG"
    = [true; false] ∧
    row_bright_star <$> conn_view c' !!! "BrightStarCatalogG"
    = [false; false].
Proof.
  split; [by repeat constructor|].
  eexists _, _. split_and!; vm_compute; reflexivity.
Qed.

Lemma insertData_star_with_neighbor :
  insertData "g" star_with_neighbor empty_catalog = (Ok tt, two_row_catalog).
Proof. vm_compute. reflexivity. Qed.


Lemma deleteData_then_getAllId_witness :
  ∃ c',
    deleteData "g" [2%Z; 7%Z] two_row_catalog = (Ok tt, c') ∧
    getAllId "g" c'
    = (Ok (match filter (λ r, row_id r ∉ [2%Z; 7%Z]) two_rows with
           | [r] => IdScalar (row_id r)
           | kept => IdList (row_id <$> kept)
           end), c').
Proof.
  apply (deleteData_then_getAllId "g" [2%Z; 7%Z] two_row_catalog two_rows).
  reflexivity.
Defined.

(** One row is left: its id comes back as a number. *)
Example getAllId_after_deleteData :
  (getAllId "g" (deleteData "g" [2%Z; 7%Z] two_row_catalog).2).1
  = Ok (IdScalar 1).
Proof. vm_compute. reflexivity. Qed.

Lemma insertData_appends_rows_witness :
  conn_file two_row_catalog = conn_view two_row_catalog ∧
  (∀ table, table ≠ tableName "g" →
     conn_view two_row_catalog !! table = conn_view empty_catalog !! table) ∧
  ∃ new,
    conn_view two_row_catalog !! tableName "g"
    = (λ rows, rows ++ new) <$> conn_view empty_catalog !! tableName "g" ∧
    Forall (λ r, RaDecl star_with_neighbor !! row_simobjid r
                 = Some (row_ra r, row_decl r) ∧
                 magnitude "g" star_with_neighbor (row_simobjid r)
                 = Ok (Some (row_mag r))) new.
Proof.
  apply (insertData_appends_rows "g" star_with_neighbor empty_catalog).
  vm_compute. reflexivity.
Defined.

Lemma insertData_inserts_each_star_once_witness :
  NoDup (row_simobjid <$> two_rows).
Proof.
  apply (insertData_inserts_each_star_once "g" star_with_neighbor
           empty_catalog two_row_catalog [] two_rows).
  - vm_compute. reflexivity.
  - reflexivity.
  - reflexivity.
  - apply NoDup_singleton.
  - intros id neighbors x Hin Hx. apply list_elem_of_singleton in Hin.
    injection Hin as -> ->. apply list_elem_of_singleton in Hx as ->.
    by intros [=]%list_elem_of_singleton.
Defined.





End LocalDatabase.

(** * Regular expressions of the module [re]

    The fragment the sources use: classes of one character, greedy
    repetition of a class, sequences, capturing groups, an optional part
    and the anchor [$].  The matcher backtracks as [re.match] does: a
    repetition first takes as many characters as it can, an optional part
    is first tried and then skipped. *)

Module Regex.

Inductive re : Type :=
  | Chr (p : ascii → bool)
  | Star (p : ascii → bool)
  | Seq (r1 r2 : re)
  | Group (r : re)
  | Opt (r : re)
  | Dollar.

(** A literal text. *)
Fixpoint Lit (s : string) : re :=
  match s with
  | EmptyString => Star (λ _, false)
  | String c EmptyString => Chr (Ascii.eqb c)
  | String c s' => Seq (Chr (Ascii.eqb c)) (Lit s')
  end.

(** The classes [\d], [\D] and [\S] on the code points 0..255. *)
Definition digit : ascii → bool := PyStr.isdigit.
Definition nondigit (c : ascii) : bool := negb (PyStr.isdigit c).
Definition nonspace (c : ascii) : bool := negb (PyStr.isspace c).

(** The number of capturing groups of an expression. *)
Fixpoint ngroups (r : re) : nat :=
  match r with
  | Chr _ | Star _ | Dollar => 0
  | Seq r1 r2 => ngroups r1 + ngroups r2
  | Group r => S (ngroups r)
  | Opt r => ngroups r
  end.

(** The text between the position [s] and the later position [s']. *)
Definition consumed (s s' : string) : string :=
  substring 0 (String.length s - String.length s') s.

Section Matcher.

Context {R : Type}.

(** Greedy repetition of a class: the longest run first, then shorter
    ones, until the rest [k] of the expression matches. *)
Fixpoint star (p : ascii → bool) (s : string) (k : string → option R)
    : option R :=
  match s with
  | String c s' =>
      if p c then
        match star p s' k with
        | Some x => Some x
        | None => k s
        end
      else k s
  | EmptyString => k s
  end.

(** [go r s caps k]: match [r] at [s], the groups closed so far being
    [caps], and go on with [k]. *)
Fixpoint go (r : re) (s : string) (caps : list (option string))
    (k : string → list (option string) → option R) : option R :=
  match r with
  | Chr p =>
      match s with
      | String c s' => if p c then k s' caps else None
      | EmptyString => None
      end
  | Star p => star p s (λ s', k s' caps)
  | Seq r1 r2 => go r1 s caps (λ s' caps', go r2 s' caps' k)
  | Group r =>
      go r s caps (λ s' caps', k s' (caps' ++ [Some (consumed s s')]))
  | Opt r =>
      match go r s caps k with
      | Some x => Some x
      | None => k s (caps ++ replicate (ngroups r) None)
      end
  | Dollar =>
      if String.eqb s "" || String.eqb s PyStr.nl then k s caps else None
  end.

End Matcher.

(** [re.match(r, s)]: the matched text [m.group()] and the groups
    [m.groups()], or [None]. *)
Definition rmatch (r : re) (s : string)
    : option (string * list (option string)) :=
  go r s [] (λ s' caps, Some (consumed s s', caps)).

(** *** Properties of the consumed text *)

Lemma consumed_cons c s s' :
  (String.length s' ≤ String.length s)%nat →
  consumed (String c s) s' = String c (consumed s s').
Proof.
  intros Hle. unfold consumed. cbn [String.length].
  by rewrite Nat.sub_succ_l by done.
Qed.

Lemma consumed_nil s : consumed s s = "".
Proof. unfold consumed. rewrite Nat.sub_diag. by destruct s. Qed.

Lemma consumed_one c s : consumed (String c s) s = String c "".
Proof. by rewrite consumed_cons, consumed_nil. Qed.

Lemma length_append s1 s2 :
  String.length (s1 +:+ s2) = (String.length s1 + String.length s2)%nat.
Proof.
  induction s1 as [|c s1 IH]; [done|].
  unfold String.append; fold String.append. cbn [String.length].
  by rewrite IH.
Qed.

Lemma consumed_app s1 s2 : consumed (s1 +:+ s2) s2 = s1.
Proof.
  induction s1 as [|c s1 IH]; [apply consumed_nil|].
  unfold String.append; fold String.append.
  rewrite consumed_cons, IH; [done|]. rewrite length_append. lia.
Qed.

(** *** Properties of the repetition *)

Section StarFacts.

Context {R : Type}.

(** All characters of a text are in a class. *)
Fixpoint all_in (p : ascii → bool) (s : string) : bool :=
  match s with
  | EmptyString => true
  | String c s' => p c && all_in p s'
  end.

(** A repetition stops where the class stops. *)
Lemma star_stop p s (k : string → option R) :
  match s with String c _ => p c = false | EmptyString => True end →
  star p s k = k s.
Proof. destruct s as [|c s]; [done|]. cbn [star]. by intros ->. Qed.

(** A match found after a run of the class is the match of the
    repetition started before the run: the longest run wins. *)
Lemma star_run p run s (k : string → option R) x :
  all_in p run = true → star p s k = Some x →
  star p (run +:+ s) k = Some x.
Proof.
  intros Hrun Hs. induction run as [|c run IH]; [by unfold String.append|].
  cbn [all_in] in Hrun. apply andb_true_iff in Hrun as [Hc Hrun].
  unfold String.append; fold String.append. cbn [star].
  by rewrite Hc, (IH Hrun).
Qed.

(** The rest of the expression matches at no position of a text. *)
Fixpoint nowhere (k : string → option R) (s : string) : Prop :=
  k s = None ∧
  match s with
  | String _ s' => nowhere k s'
  | EmptyString => True
  end.

(** When the rest matches nowhere in a text, the repetition fails. *)
Lemma star_None p s (k : string → option R) :
  nowhere k s → star p s k = None.
Proof.
  induction s as [|c s IH]; intros [Hhere Hlater]; [done|].
  cbn [star]. rewrite (IH Hlater), Hhere. by destruct (p c).
Qed.

(** The matcher depends on the rest of the expression by its values
    only. *)
Lemma star_ext p s (k1 k2 : string → option R) :
  (∀ s', k1 s' = k2 s') → star p s k1 = star p s k2.
Proof.
  intros Hk. induction s as [|c s IH]; cbn [star]; [apply Hk|].
  by rewrite IH, Hk.
Qed.

Lemma go_ext r s caps (k1 k2 : string → list (option string) → option R) :
  (∀ s' caps', k1 s' caps' = k2 s' caps') → go r s caps k1 = go r s caps k2.
Proof.
  revert s caps k1 k2.
  induction r as [p|p|r1 IH1 r2 IH2|r IH|r IH|]; intros s caps k1 k2 Hk;
    cbn [go].
  - destruct s as [|c s]; [done|]. by rewrite Hk.
  - apply star_ext. intros s'. apply Hk.
  - apply IH1. intros s' caps'. by apply IH2.
  - apply IH. intros s' caps'. apply Hk.
  - by rewrite (IH s caps k1 k2 Hk), Hk.
  - by rewrite Hk.
Qed.

Lemma go_Seq r1 r2 s caps (k : string → list (option string) → option R) :
  go (Seq r1 r2) s caps k = go r1 s caps (λ s' caps', go r2 s' caps' k).
Proof. reflexivity. Qed.

End StarFacts.

(** A function applied to the result of the match can be applied to the
    result of the rest. *)
Lemma star_fmap {R R'} (g : R → R') p s (k : string → option R) :
  star p s (λ s', g <$> k s') = g <$> star p s k.
Proof.
  induction s as [|c s IH]; cbn [star]; [done|].
  rewrite IH. destruct (p c); [|done]. by destruct (star p s k).
Qed.

Lemma go_fmap {R R'} (g : R → R') r s caps
    (k : string → list (option string) → option R) :
  go r s caps (λ s' caps', g <$> k s' caps') = g <$> go r s caps k.
Proof.
  revert s caps k.
  induction r as [p|p|r1 IH1 r2 IH2|r IH|r IH|]; intros s caps k; cbn [go].
  - destruct s as [|c s]; [done|]. by destruct (p c).
  - apply (star_fmap g p s (λ s', k s' caps)).
  - rewrite <- IH1. apply go_ext. intros s' caps'. apply IH2.
  - apply (IH s caps (λ s' caps', k s' (caps' ++ [Some (consumed s s')]))).
  - rewrite IH. by destruct (go r s caps k).
  - by destruct (_ || _).
Qed.

(** [m.groups()[i]] *)
Definition group (groups : list (option string)) (i : nat) : string :=
  default "" (mjoin (groups !! i)).

Lemma digit_not_underscore c : PyStr.isdigit c = true → Ascii.eqb "_" c = false.
Proof.
  intros Hc. destruct (Ascii.eqb_spec "_" c) as [<-|]; [|done].
  by vm_compute in Hc.
Qed.

End Regex.

(** ** Python [int] on texts *)

Module PyInt.

(** The value of a text of decimal digits, read from the left. *)
Definition digits_value (s : string) : Z :=
  foldl (λ n c, 10 * n + Z.of_N (N_of_ascii c) - 48)%Z 0%Z
        (list_ascii_of_string s).

(** [int(s)] for a text of decimal digits: the empty text is not a
    number. *)
Definition int_of_digits (s : string) : res Z :=
  if Regex.all_in Regex.digit s && negb (String.eqb s "")
  then Ok (digits_value s)
  else Raise (ValueError ("invalid literal for int() with base 10: '"
                          +:+ s +:+ "'")).

End PyInt.

(** * wep/WEPController.py *)

Module WEPController.

(** ** Sensor names *)

(** Consume the literal [p] at the head of [s]. *)
Fixpoint lit (p s : string) : option string :=
  match p with
  | EmptyString => Some s
  | String a p' =>
      match s with
      | String b s' => if Ascii.eqb a b then lit p' s' else None
      | EmptyString => None
      end
  end.

(** The group [(\d,\d)]: the captured text and what follows it.  On the
    code points 0..255 the class [\d] is '0'..'9'. *)
Definition digit_comma_digit (s : string) : option (string * string) :=
  match s with
  | String a (String c (String b rest)) =>
      if PyStr.isdigit a && Ascii.eqb c "," && PyStr.isdigit b
      then Some (String a (String c (String b EmptyString)), rest)
      else None
  | _ => None
  end.

(** The character class [[A,B]]: its members are 'A', ',' and 'B'. *)
Definition in_class_A_comma_B (c : ascii) : bool :=
  Ascii.eqb c "A" || Ascii.eqb c "," || Ascii.eqb c "B".

(** The anchor [$]: the end of the string, or just before a line feed
    that ends the string. *)
Definition at_dollar (s : string) : bool :=
  String.eqb s "" || String.eqb s PyStr.nl.

(** The tail [(?:,([A,B]))?$]: the optional group is tried first, then
    skipped.  The result is the capture of the inner group. *)
Definition channel_tail (s : string) : option (option string) :=
  let with_group :=
    match s with
    | String c (String ch rest) =>
        if Ascii.eqb c "," && in_class_A_comma_B ch && at_dollar rest
        then Some (Some (String ch EmptyString))
        else None
    | _ => None
    end in
  match with_group with
  | Some g => Some g
  | None => if at_dollar s then Some None else None
  end.

(** [re.match(r"R:(\d,\d) S:(\d,\d)(?:,([A,B]))?$", sensorName)]: the
    three groups of the match, if there is one. *)
Definition match_sensorName (sensorName : string)
    : option (string * string * option string) :=
  rest ← lit "R:" sensorName;
  '(raft, rest) ← digit_comma_digit rest;
  rest ← lit " S:" rest;
  '(sensor, rest) ← digit_comma_digit rest;
  channel ← channel_tail rest;
  Some (raft, sensor, channel).

(** [__getSensorInfo]: (raft, sensor, channel), each [None] without a
    match; the channel is also [None] when its group did not take part. *)
Definition getSensorInfo (sensorName : string)
    : option string * option string * option string :=
  match match_sensorName sensorName with
  | Some (raft, sensor, channel) => (Some raft, Some sensor, channel)
  | None => (None, None, None)
  end.

(** The canonical detector names of the specification:
    "R:<digit>,<digit> S:<digit>,<digit>", then nothing, ",A" or ",B". *)
Definition canonical (sensorName : string) : Prop :=
  ∃ r0 r1 s0 s1 suffix,
    PyStr.isdigit r0 = true ∧ PyStr.isdigit r1 = true ∧
    PyStr.isdigit s0 = true ∧ PyStr.isdigit s1 = true ∧
    suffix ∈ [""; ",A"; ",B"] ∧
    sensorName =
      "R:" +:+ String r0 ("," +:+ String r1 (" S:" +:+ String s0 (","
           +:+ String s1 suffix))).

(** ** getTargetStarByFile *)

Section TargetStar.

(** Modelled from the spec: the class [StarData] is not among the sources
    at hand; of a detector's star list only the right ascensions [RA] are
    read here.  [Corners] are the corners of a detector. *)
Context {StarData Corners : Type}.
Context (RA : StarData → list Q).

(** The three maps keyed by the detector name. *)
Definition starMaps : Type :=
  gmap string NeighboringStar * gmap string StarData * gmap string Corners.

(** First loop of [__analyzeStarMap]: the detectors without a star. *)
Definition noStarSensors (starMap : gmap string StarData) : list string :=
  (filter (λ kv, length (RA kv.2) = 0%nat) (map_to_list starMap)).*1.

(** Body of the second loop: the key is popped from the three maps. *)
Definition popSensor (maps : starMaps) (aKey : string) : res starMaps :=
  let '(neighborStarMap, starMap, wavefrontSensors) := maps in
  neighborStarMap ← pop aKey neighborStarMap;
  starMap ← pop aKey starMap;
  wavefrontSensors ← pop aKey wavefrontSensors;
  Ok (neighborStarMap, starMap, wavefrontSensors).

Definition analyzeStarMap (neighborStarMap : gmap string NeighboringStar)
    (starMap : gmap string StarData) (wavefrontSensors : gmap string Corners)
    : res starMaps :=
  let noStarSensorList := noStarSensors starMap in
  for_each popSensor noStarSensorList
           (neighborStarMap, starMap, wavefrontSensors).

(** The source selector and its database are external collaborators that
    act on a world [W]: the attributes [name] and [LocalDb] of the
    selector, and the calls [getFilter], [connect], [db.createTable],
    [db.insertDataByFile], [getTargetStar], [db.deleteTable] and
    [disconnect]. *)
Context {W Pointing Rotation Orientation : Type}.
Context (sourSelc_name sourSelc_LocalDb : W → string).
Context (sourSelc_getFilter : M W string).
Context (sourSelc_connect : string → M W unit).
Context (db_createTable : string → string → M W unit).
Context (db_insertDataByFile : string → string → string → Z → M W unit).
Context (sourSelc_getTargetStar :
  Pointing → Rotation → option Orientation → string → M W starMaps).
Context (db_deleteTable : string → M W unit).
Context (sourSelc_disconnect : M W unit).

Definition getTargetStarByFile (dbAdress skyInfoFilePath : string)
    (pointing : Pointing) (cameraRotation : Rotation)
    (orientation : option Orientation) (tableName : string)
    : M W starMaps :=
  w ← get_state;
  if bool_decide (sourSelc_name w ≠ sourSelc_LocalDb w) then
    raise (TypeError "The database type is not LocalDatabaseDecorator.")
  else
    aFilter ← sourSelc_getFilter;
    _ ← sourSelc_connect dbAdress;
    _ ← db_createTable aFilter tableName;
    _ ← db_insertDataByFile aFilter tableName skyInfoFilePath 1;
    '(neighborStarMap, starMap, wavefrontSensors) ←
       sourSelc_getTargetStar pointing cameraRotation orientation tableName;
    maps ← lift (analyzeStarMap neighborStarMap starMap wavefrontSensors);
    _ ← db_deleteTable tableName;
    _ ← sourSelc_disconnect;
    mret maps.

(** *** Properties of __analyzeStarMap *)

Lemma elem_of_noStarSensors starMap k :
  k ∈ noStarSensors starMap ↔ ∃ item, starMap !! k = Some item ∧ RA item = [].
Proof.
  unfold noStarSensors. rewrite list_elem_of_fmap. split.
  - intros ([k' item] & -> & Hin). apply list_elem_of_filter in Hin as [Hlen Hin].
    apply elem_of_map_to_list in Hin. exists item. split; [done|].
    by apply nil_length_inv.
  - intros (item & Hk & Hnil). exists (k, item). split; [done|].
    apply list_elem_of_filter. split; [by simpl; rewrite Hnil|].
    by apply elem_of_map_to_list.
Qed.

Lemma NoDup_noStarSensors starMap : NoDup (noStarSensors starMap).
Proof.
  unfold noStarSensors.
  apply (sublist_NoDup _ ((map_to_list starMap).*1));
    [apply NoDup_fst_map_to_list|].
  apply fmap_sublist, sublist_filter.
Qed.

Lemma popSensor_Ok n s w k n' s' w' :
  popSensor (n, s, w) k = Ok (n', s', w') →
  n' = delete k n ∧ s' = delete k s ∧ w' = delete k w.
Proof.
  unfold popSensor, pop, mbind, res_bind.
  destruct (n !! k); [|done]. destruct (s !! k); [|done].
  destruct (w !! k); [|done]. by intros [= <- <- <-].
Qed.

(** The second loop deletes the listed keys and nothing else. *)
Lemma for_each_popSensor keys n s w n' s' w' k :
  for_each popSensor keys (n, s, w) = Ok (n', s', w') →
  (k ∈ keys → n' !! k = None ∧ s' !! k = None ∧ w' !! k = None) ∧
  (k ∉ keys → n' !! k = n !! k ∧ s' !! k = s !! k ∧ w' !! k = w !! k).
Proof.
  revert n s w. induction keys as [|a keys IH]; intros n s w Hloop.
  - injection Hloop as <- <- <-. split; [|done].
    intros Hin. by apply elem_of_nil in Hin.
  - apply for_each_cons_Ok in Hloop as ([[n1 s1] w1] & Hpop & Hloop).
    apply popSensor_Ok in Hpop as (-> & -> & ->).
    destruct (IH _ _ _ Hloop) as [Hin Hout].
    destruct (decide (k ∈ keys)) as [Hk|Hk].
    + split; [by auto|]. intros Hno. destruct Hno. by right.
    + destruct (Hout Hk) as (-> & -> & ->). split.
      * intros [->|?]%elem_of_cons; [|done]. by rewrite !lookup_delete_eq.
      * intros Hno. apply not_elem_of_cons in Hno as [Hne _].
        by rewrite !lookup_delete_ne.
Qed.

(** The maps [__analyzeStarMap] returns, when it returns. *)
Lemma analyzeStarMap_Ok n s w n' s' w' :
  analyzeStarMap n s w = Ok (n', s', w') →
  (∀ k item, s !! k = Some item → RA item = [] →
     n' !! k = None ∧ s' !! k = None ∧ w' !! k = None) ∧
  (∀ k item, s' !! k = Some item → s !! k = Some item ∧ RA item ≠ []) ∧
  (∀ k item, s !! k = Some item → RA item ≠ [] →
     n' !! k = n !! k ∧ s' !! k = Some item ∧ w' !! k = w !! k).
Proof.
  unfold analyzeStarMap. cbv zeta. intros Hloop. split_and!.
  - intros k item Hk Hnil.
    pose proof (for_each_popSensor _ _ _ _ _ _ _ k Hloop) as [Hin _].
    apply Hin, elem_of_noStarSensors. eauto.
  - intros k item Hk.
    pose proof (for_each_popSensor _ _ _ _ _ _ _ k Hloop) as [Hin Hout].
    destruct (decide (k ∈ noStarSensors s)) as [Hno|Hno].
    + destruct (Hin Hno) as (_ & Hs' & _). congruence.
    + destruct (Hout Hno) as (_ & Hs' & _). rewrite Hs' in Hk.
      split; [done|]. intros Hnil. apply Hno, elem_of_noStarSensors. eauto.
  - intros k item Hk Hstars.
    pose proof (for_each_popSensor _ _ _ _ _ _ _ k Hloop) as [_ Hout].
    destruct Hout as (-> & -> & ->); [|done].
    intros (item' & Hk' & Hnil)%elem_of_noStarSensors. congruence.
Qed.

Lemma for_each_popSensor_returns keys n s w :
  NoDup keys →
  (∀ k, k ∈ keys → is_Some (n !! k) ∧ is_Some (s !! k) ∧ is_Some (w !! k)) →
  ∃ maps, for_each popSensor keys (n, s, w) = Ok maps.
Proof.
  revert n s w. induction keys as [|a keys IH]; intros n s w Hnodup Hkeys.
  - by eexists.
  - apply NoDup_cons in Hnodup as [Ha Hnodup]. cbn [for_each].
    destruct (Hkeys a) as ([na Hna] & [sa Hsa] & [wa Hwa]); [by left|].
    unfold popSensor, pop, mbind, res_bind. rewrite Hna, Hsa, Hwa.
    apply (IH (delete a n) (delete a s) (delete a w)); [done|].
    intros k Hk. rewrite !lookup_delete_ne by (intros ->; done).
    apply Hkeys. by right.
Qed.

(** [__analyzeStarMap] returns when the three maps have the detectors of
    the star map. *)
Lemma analyzeStarMap_returns n s w :
  (∀ k, is_Some (s !! k) → is_Some (n !! k) ∧ is_Some (w !! k)) →
  ∃ maps, analyzeStarMap n s w = Ok maps.
Proof.
  unfold analyzeStarMap. intros Hdom.
  apply for_each_popSensor_returns; [apply NoDup_noStarSensors|].
  intros k (item & Hk & _)%elem_of_noStarSensors.
  destruct (Hdom k) as [? ?]; eauto.
Qed.

(** *** Properties of getTargetStarByFile *)

(** C5. When the database type of the source selector is not the local
    one, [getTargetStarByFile] raises a [TypeError] and the world is as it
    was before the call: no connection, table creation, insertion or
    matching has taken place. *)
Theorem getTargetStarByFile_TypeError dbAdress skyInfoFilePath pointing
    cameraRotation orientation tableName w :
  sourSelc_name w ≠ sourSelc_LocalDb w →
  getTargetStarByFile dbAdress skyInfoFilePath pointing cameraRotation
                      orientation tableName w
  = (Raise (TypeError "The database type is not LocalDatabaseDecorator."), w).
Proof.
  intros Hne. unfold getTargetStarByFile, mbind, M_bind, get_state.
  by rewrite bool_decide_eq_true_2.
Qed.



(** *** Further properties of __analyzeStarMap *)

(** The pops raise nothing but [KeyError]. *)
Lemma for_each_popSensor_Raise keys maps e :
  for_each popSensor keys maps = Raise e → e = KeyError.
Proof.
  revert maps. induction keys as [|a keys IH]; intros [[n s] w]; [done|].
  cbn [for_each]. unfold mbind at 1, res_bind at 1.
  destruct (popSensor (n, s, w) a) as [maps|e0] eqn:Hpop; [apply IH|].
  intros [= <-]. unfold popSensor, pop, mbind, res_bind in Hpop.
  destruct (n !! a); [|congruence]. destruct (s !! a); [|congruence].
  destruct (w !! a); congruence.
Qed.

(** Pops that return have found their keys. *)
Lemma for_each_popSensor_Ok_keys keys n s w maps k :
  for_each popSensor keys (n, s, w) = Ok maps →
  k ∈ keys → NoDup keys → is_Some (n !! k) ∧ is_Some (w !! k).
Proof.
  revert n s w. induction keys as [|a keys IH]; intros n s w Hok Hin Hnodup.
  - by apply elem_of_nil in Hin.
  - apply for_each_cons_Ok in Hok as ([[n1 s1] w1] & Hpop & Hok).
    apply NoDup_cons in Hnodup as [Ha Hnodup].
    apply elem_of_cons in Hin as [->|Hin].
    + unfold popSensor, pop, mbind, res_bind in Hpop.
      destruct (n !! a); [|done]. destruct (s !! a); [|done].
      destruct (w !! a); [|done]. eauto.
    + apply popSensor_Ok in Hpop as (-> & -> & ->).
      assert (a ≠ k) as Hne by (intros ->; done).
      destruct (IH _ _ _ Hok Hin Hnodup) as [Hn Hw].
      rewrite lookup_delete_ne in Hn by done.
      by rewrite lookup_delete_ne in Hw by done.
Qed.

(** [__analyzeStarMap] returns exactly when every detector without a star
    is a key of the neighboring star map and of the corner map; otherwise
    it raises [KeyError]. *)
Theorem analyzeStarMap_returns_iff n s w :
  ((∀ k item, s !! k = Some item → RA item = [] →
      is_Some (n !! k) ∧ is_Some (w !! k))
   ↔ ∃ maps, analyzeStarMap n s w = Ok maps)
  ∧ ((∃ k item, s !! k = Some item ∧ RA item = [] ∧
        (n !! k = None ∨ w !! k = None))
     → analyzeStarMap n s w = Raise KeyError).
Proof.
  assert ((∃ maps, analyzeStarMap n s w = Ok maps) →
          ∀ k item, s !! k = Some item → RA item = [] →
            is_Some (n !! k) ∧ is_Some (w !! k)) as Hback.
  { intros [maps Hok] k item Hk Hnil. unfold analyzeStarMap in Hok.
    eapply for_each_popSensor_Ok_keys; [exact Hok| |apply NoDup_noStarSensors].
    apply elem_of_noStarSensors. eauto. }
  split; [split; [|exact Hback]|].
  - intros Hdom. unfold analyzeStarMap.
    apply for_each_popSensor_returns; [apply NoDup_noStarSensors|].
    intros k (item & Hk & Hnil)%elem_of_noStarSensors.
    destruct (Hdom k item Hk Hnil). eauto.
  - intros (k & item & Hk & Hnil & Hmiss).
    destruct (analyzeStarMap n s w) as [maps|e] eqn:Hres.
    + destruct (Hback (ex_intro _ maps eq_refl) k item Hk Hnil) as [[? Hn] [? Hw]].
      destruct Hmiss; congruence.
    + unfold analyzeStarMap in Hres.
      by rewrite (for_each_popSensor_Raise _ _ _ Hres).
Qed.

(** [__analyzeStarMap] keeps every detector that has a star, with its
    entries in the three maps as they were. *)
Theorem analyzeStarMap_keeps_detectors_with_stars n s w n' s' w' k item :
  analyzeStarMap n s w = Ok (n', s', w') →
  s !! k = Some item → RA item ≠ [] →
  n' !! k = n !! k ∧ s' !! k = Some item ∧ w' !! k = w !! k.
Proof.
  intros Hok Hk Hstars.
  destruct (analyzeStarMap_Ok _ _ _ _ _ _ Hok) as (_ & _ & Hkeep). eauto.
Qed.

(** [__analyzeStarMap] applied to the maps it returned returns them
    again: no detector is left to remove. *)
Theorem analyzeStarMap_idempotent n s w n' s' w' :
  analyzeStarMap n s w = Ok (n', s', w') →
  analyzeStarMap n' s' w' = Ok (n', s', w').
Proof.
  intros Hok. destruct (analyzeStarMap_Ok _ _ _ _ _ _ Hok) as (_ & Hstars & _).
  unfold analyzeStarMap.
  assert (noStarSensors s' = []) as ->; [|done].
  destruct (noStarSensors s') as [|k keys] eqn:Hkeys; [done|].
  assert (k ∈ noStarSensors s') as Hin by (rewrite Hkeys; left).
  apply elem_of_noStarSensors in Hin as (item & Hk & Hnil).
  by destruct (Hstars k item Hk).
Qed.

End TargetStar.

(** ** doISR *)

Section DoISR.

(** The ISR wrapper is an external collaborator acting on a world [W]:
    [isrWrapper.doISR(visit, snap, raft, sensor, channel=...,
    fakeDatasetType=..., outputDatasetType=...)]. *)
Context {W : Type}.
Context (isrWrapper_doISR :
  Z → Z → string → option string → option string → string → string
  → M W unit).

Definition doISR (visit : Z) (sensorName : string) (snap : Z)
    (fakeDatasetType outputDatasetType : string) : M W unit :=
  let '(raft, sensor, channel) := getSensorInfo sensorName in
  match raft with
  | Some raft =>
      isrWrapper_doISR visit snap raft sensor None
                       fakeDatasetType outputDatasetType
  | None =>
      raise (RuntimeError ("Sensor name: '" +:+ sensorName
                           +:+ "' is not allowed."))
  end.

(** *** Properties of doISR *)

(** Every canonical name is matched, with its raft and sensor. *)
Lemma getSensorInfo_canonical sensorName :
  canonical sensorName →
  ∃ raft sensor channel,
    getSensorInfo sensorName = (Some raft, Some sensor, channel).
Proof.
  intros (r0 & r1 & s0 & s1 & suffix & Hr0 & Hr1 & Hs0 & Hs1 & Hsuf & ->).
  unfold getSensorInfo, match_sensorName.
  unfold String.append.
  cbn [lit Ascii.eqb Bool.eqb mbind option_bind digit_comma_digit].
  rewrite Hr0, Hr1.
  cbn [andb lit Ascii.eqb Bool.eqb mbind option_bind digit_comma_digit].
  rewrite Hs0, Hs1.
  cbn [andb lit Ascii.eqb Bool.eqb mbind option_bind].
  repeat (apply elem_of_cons in Hsuf as [->|Hsuf]); [..|by apply elem_of_nil in Hsuf];
    vm_compute channel_tail; simpl; eauto.
Qed.

(** A canonical name is dispatched to the ISR wrapper. *)
Lemma doISR_canonical visit sensorName snap fakeDatasetType outputDatasetType :
  canonical sensorName →
  ∃ raft sensor,
    doISR visit sensorName snap fakeDatasetType outputDatasetType
    = isrWrapper_doISR visit snap raft sensor None
                       fakeDatasetType outputDatasetType.
Proof.
  intros Hc. destruct (getSensorInfo_canonical _ Hc) as (raft & sensor & ch & H).
  unfold doISR. rewrite H. eauto.
Qed.

Lemma not_canonical_double_comma : ¬ canonical "R:0,0 S:2,2,,".
Proof.
  intros (r0 & r1 & s0 & s1 & suffix & _ & _ & _ & _ & Hsuf & Heq).
  unfold String.append in Heq. injection Heq as <- <- <- <- <-.
  repeat (apply elem_of_cons in Hsuf as [Hsuf|Hsuf]; [discriminate|]).
  by apply elem_of_nil in Hsuf.
Qed.

(** C6, at the failing input.  The name "R:0,0 S:2,2,," is not canonical,
    yet the class [[A,B]] takes the second comma as the channel: no
    [RuntimeError] is raised and the name is dispatched to the ISR
    wrapper. *)
Theorem doISR_accepts_double_comma visit snap fakeDatasetType outputDatasetType :
  ¬ canonical "R:0,0 S:2,2,," ∧
  getSensorInfo "R:0,0 S:2,2,," = (Some "0,0", Some "2,2", Some ",") ∧
  doISR visit "R:0,0 S:2,2,," snap fakeDatasetType outputDatasetType
  = isrWrapper_doISR visit snap "0,0" (Some "2,2") None
                     fakeDatasetType outputDatasetType.
Proof. split_and!; [apply not_canonical_double_comma|reflexivity..]. Qed.

(** The anchor [$] also lets a name that ends in a line feed through. *)
Example getSensorInfo_trailing_newline :
  getSensorInfo ("R:2,2 S:1,1" +:+ PyStr.nl) = (Some "2,2", Some "1,1", None).
Proof. reflexivity. Qed.

Example getSensorInfo_rejects :
  getSensorInfo "R:2,2 S:1,1,C" = (None, None, None) ∧
  getSensorInfo "R:22 S:11" = (None, None, None) ∧
  getSensorInfo "R:0,0 S:2,2,A" = (Some "0,0", Some "2,2", Some "A").
Proof. split_and!; reflexivity. Qed.

(** *** The names doISR accepts *)

(** The names of code points 0..255 that the regular expression matches,
    with the groups of the match: a canonical name, or a canonical stem
    followed by two commas, and then possibly one line feed. *)
Definition accepted (sensorName raft sensor : string)
    (channel : option string) : Prop :=
  ∃ r0 r1 s0 s1 suffix eol,
    PyStr.isdigit r0 = true ∧ PyStr.isdigit r1 = true ∧
    PyStr.isdigit s0 = true ∧ PyStr.isdigit s1 = true ∧
    (suffix, channel) ∈ [("", None); (",A", Some "A"); (",B", Some "B");
                         (",,", Some ",")] ∧
    eol ∈ [""; PyStr.nl] ∧
    raft = String r0 ("," +:+ String r1 "") ∧
    sensor = String s0 ("," +:+ String s1 "") ∧
    sensorName = "R:" +:+ raft +:+ " S:" +:+ sensor +:+ suffix +:+ eol.

Lemma lit_Some p s rest : lit p s = Some rest → s = p +:+ rest.
Proof.
  revert s. induction p as [|a p IH]; intros s; cbn [lit].
  - by intros [= ->].
  - destruct s as [|b s]; [done|].
    destruct (Ascii.eqb_spec a b) as [->|]; [|done].
    intros Hrest. unfold String.append; fold String.append.
    by rewrite (IH _ Hrest).
Qed.

Lemma digit_comma_digit_Some s group rest :
  digit_comma_digit s = Some (group, rest) →
  ∃ a b, PyStr.isdigit a = true ∧ PyStr.isdigit b = true ∧
    group = String a ("," +:+ String b "") ∧ s = group +:+ rest.
Proof.
  unfold digit_comma_digit. destruct s as [|a [|c [|b s]]]; try done.
  destruct (PyStr.isdigit a) eqn:Ha; [|done].
  destruct (Ascii.eqb_spec c ",") as [->|]; [|done].
  destruct (PyStr.isdigit b) eqn:Hb; [|done].
  intros [= <- <-]. by exists a, b.
Qed.

Lemma at_dollar_true s : at_dollar s = true → s ∈ [""; PyStr.nl].
Proof.
  unfold at_dollar. intros [H|H]%orb_true_iff; apply String.eqb_eq in H as ->.
  - left.
  - right. left.
Qed.

Lemma channel_tail_Some s channel :
  channel_tail s = Some channel →
  ∃ suffix eol,
    (suffix, channel) ∈ [("", None); (",A", Some "A"); (",B", Some "B");
                         (",,", Some ",")] ∧
    eol ∈ [""; PyStr.nl] ∧ s = suffix +:+ eol.
Proof.
  unfold channel_tail.
  assert (at_dollar s = true → Some (@None string) = Some channel →
          ∃ suffix eol,
            (suffix, channel) ∈ [("", None); (",A", Some "A");
                                 (",B", Some "B"); (",,", Some ",")] ∧
            eol ∈ [""; PyStr.nl] ∧ s = suffix +:+ eol) as Hskip.
  { intros Hs [= <-]. exists "", s. split_and!; [left|by apply at_dollar_true|done]. }
  destruct s as [|c [|ch rest]].
  - intros H. by apply Hskip.
  - destruct (at_dollar _) eqn:Hd; [|done]. intros H. by apply Hskip.
  - destruct (Ascii.eqb_spec c ",") as [->|]; cbn [andb].
    2: { destruct (at_dollar _) eqn:Hd; [|done]. intros H. by apply Hskip. }
    destruct (in_class_A_comma_B ch) eqn:Hch; cbn [andb].
    2: { destruct (at_dollar _) eqn:Hd; [|done]. intros H. by apply Hskip. }
    destruct (at_dollar rest) eqn:Hrest.
    2: { destruct (at_dollar _) eqn:Hd; [|done]. intros H. by apply Hskip. }
    intros [= <-]. apply at_dollar_true in Hrest.
    unfold in_class_A_comma_B in Hch.
    destruct (Ascii.eqb_spec ch "A") as [->|];
      [|destruct (Ascii.eqb_spec ch ",") as [->|];
        [|destruct (Ascii.eqb_spec ch "B") as [->|]; [|done]]].
    + exists ",A", rest. split_and!; [right; left|done|done].
    + exists ",,", rest. split_and!; [do 3 right; left|done|done].
    + exists ",B", rest. split_and!; [do 2 right; left|done|done].
Qed.

(** On names of code points 0..255, [__getSensorInfo] finds a raft
    exactly for the accepted ones. *)
Lemma getSensorInfo_accepted sensorName raft sensor channel :
  getSensorInfo sensorName = (Some raft, Some sensor, channel)
  ↔ accepted sensorName raft sensor channel.
Proof.
  unfold getSensorInfo, match_sensorName. split.
  - destruct (lit "R:" sensorName) as [rest1|] eqn:H1; [|done].
    cbn [mbind option_bind].
    destruct (digit_comma_digit rest1) as [[raft' rest2]|] eqn:H2; [|done].
    cbn [mbind option_bind].
    destruct (lit " S:" rest2) as [rest3|] eqn:H3; [|done].
    cbn [mbind option_bind].
    destruct (digit_comma_digit rest3) as [[sensor' rest4]|] eqn:H4; [|done].
    cbn [mbind option_bind].
    destruct (channel_tail rest4) as [channel'|] eqn:H5; [|done].
    cbn [mbind option_bind]. intros [= <- <- <-].
    apply lit_Some in H1 as ->. apply lit_Some in H3 as ->.
    apply digit_comma_digit_Some in H2 as (r0 & r1 & Hr0 & Hr1 & -> & ->).
    apply digit_comma_digit_Some in H4 as (s0 & s1 & Hs0 & Hs1 & -> & ->).
    apply channel_tail_Some in H5 as (suffix & eol & Hsuf & Heol & ->).
    exists r0, r1, s0, s1, suffix, eol. split_and!; try done.
  - intros (r0 & r1 & s0 & s1 & suffix & eol & Hr0 & Hr1 & Hs0 & Hs1 & Hsuf
            & Heol & -> & -> & ->).
    unfold String.append; fold String.append.
    cbn [lit Ascii.eqb Bool.eqb mbind option_bind digit_comma_digit].
    rewrite Hr0, Hr1.
    cbn [andb lit Ascii.eqb Bool.eqb mbind option_bind digit_comma_digit].
    rewrite Hs0, Hs1.
    cbn [andb lit Ascii.eqb Bool.eqb mbind option_bind].
    repeat (apply elem_of_cons in Hsuf as [[= -> ->]|Hsuf]);
      [..|by apply elem_of_nil in Hsuf];
      (repeat (apply elem_of_cons in Heol as [->|Heol]);
       [..|by apply elem_of_nil in Heol]); reflexivity.
Qed.

(** [doISR] on names of code points 0..255: an accepted name goes to the
    ISR wrapper with its raft and its sensor, and without its channel. *)
Lemma doISR_accepted visit sensorName snap fakeDatasetType outputDatasetType
    raft sensor channel :
  accepted sensorName raft sensor channel →
  doISR visit sensorName snap fakeDatasetType outputDatasetType
  = isrWrapper_doISR visit snap raft (Some sensor) None
                     fakeDatasetType outputDatasetType.
Proof.
  intros Hacc%getSensorInfo_accepted. unfold doISR. by rewrite Hacc.
Qed.

End DoISR.

(** ** Sensor names of any characters

    A Python 3 [str] is a sequence of Unicode code points, and in a [str]
    pattern the class [\d] holds the decimal digits of every script: the
    characters of category Nd, those [str.isdecimal] accepts.  Among the
    code points 0..255 these are '0'..'9', which is what [getSensorInfo]
    above tests.  [Unicode] embeds [__getSensorInfo] and [doISR] for
    names of any code points. *)

Module Unicode.

(** A [str]: its code points. *)
Definition text : Type := list N.

(** [ord(c)] *)
Definition ord (c : ascii) : N := N_of_ascii c.

(** The text of a string literal of the source. *)
Definition of_string (s : string) : text := ord <$> list_ascii_of_string s.

(** What a call gives: the value it returns, or the exception it raises,
    with its class and its message. *)
Inductive outcome (A : Type) : Type :=
| Returns (a : A)
| Raises (exception : string) (msg : text).
Arguments Returns {A} a.
Arguments Raises {A} exception msg.

Section Names.

(** [str.isdecimal] on one character, as the Unicode database of the
    interpreter has it. *)
Context (isdecimal : N → bool).

(** Consume the literal [p] at the head of [s]. *)
Fixpoint lit (p s : text) : option text :=
  match p with
  | [] => Some s
  | a :: p' =>
      match s with
      | b :: s' => if (a =? b)%N then lit p' s' else None
      | [] => None
      end
  end.

(** The group [(\d,\d)]: the captured text and what follows it. *)
Definition digit_comma_digit (s : text) : option (text * text) :=
  match s with
  | a :: c :: b :: rest =>
      if isdecimal a && (c =? ord ",")%N && isdecimal b
      then Some ([a; c; b], rest)
      else None
  | _ => None
  end.

(** The character class [[A,B]]: its members are 'A', ',' and 'B'. *)
Definition in_class_A_comma_B (c : N) : bool :=
  ((c =? ord "A") || (c =? ord ",") || (c =? ord "B"))%N.

(** The anchor [$]: the end of the text, or just before a line feed that
    ends the text. *)
Definition at_dollar (s : text) : bool :=
  bool_decide (s = []) || bool_decide (s = of_string PyStr.nl).

(** The tail [(?:,([A,B]))?$]: the optional group is tried first, then
    skipped.  The result is the capture of the inner group. *)
Definition channel_tail (s : text) : option (option text) :=
  let with_group :=
    match s with
    | c :: ch :: rest =>
        if (c =? ord ",")%N && in_class_A_comma_B ch && at_dollar rest
        then Some (Some [ch])
        else None
    | _ => None
    end in
  match with_group with
  | Some g => Some g
  | None => if at_dollar s then Some None else None
  end.

(** [re.match(r"R:(\d,\d) S:(\d,\d)(?:,([A,B]))?$", sensorName)]: the
    three groups of the match, if there is one. *)
Definition match_sensorName (sensorName : text)
    : option (text * text * option text) :=
  rest ← lit (of_string "R:") sensorName;
  '(raft, rest) ← digit_comma_digit rest;
  rest ← lit (of_string " S:") rest;
  '(sensor, rest) ← digit_comma_digit rest;
  channel ← channel_tail rest;
  Some (raft, sensor, channel).

(** [__getSensorInfo]: (raft, sensor, channel), each [None] without a
    match; the channel is also [None] when its group did not take part. *)
Definition getSensorInfo (sensorName : text)
    : option text * option text * option text :=
  match match_sensorName sensorName with
  | Some (raft, sensor, channel) => (Some raft, Some sensor, channel)
  | None => (None, None, None)
  end.

(** The ISR wrapper, an external collaborator acting on a world [W]. *)
Context {W : Type}.
Context (isrWrapper_doISR :
  Z → Z → text → option text → option text → text → text
  → W → outcome unit * W).

Definition doISR (visit : Z) (sensorName : text) (snap : Z)
    (fakeDatasetType outputDatasetType : text) : W → outcome unit * W :=
  let '(raft, sensor, channel) := getSensorInfo sensorName in
  match raft with
  | Some raft =>
      isrWrapper_doISR visit snap raft sensor None
                       fakeDatasetType outputDatasetType
  | None =>
      λ w, (Raises "RuntimeError"
                   (of_string "Sensor name: '" ++ sensorName
                    ++ of_string "' is not allowed."), w)
  end.

(** The names the regular expression matches, with the groups of the
    match: "R:d,d S:d,d" where each d is a decimal digit of any script,
    then nothing, ",A", ",B" or ",,", and then possibly one line feed. *)
Definition accepted (sensorName raft sensor : text)
    (channel : option text) : Prop :=
  ∃ r0 r1 s0 s1 suffix eol,
    isdecimal r0 = true ∧ isdecimal r1 = true ∧
    isdecimal s0 = true ∧ isdecimal s1 = true ∧
    (suffix, channel) ∈ [([], None);
                         (of_string ",A", Some (of_string "A"));
                         (of_string ",B", Some (of_string "B"));
                         (of_string ",,", Some (of_string ","))] ∧
    eol ∈ [[]; of_string PyStr.nl] ∧
    raft = [r0; ord ","; r1] ∧
    sensor = [s0; ord ","; s1] ∧
    sensorName = of_string "R:" ++ raft ++ of_string " S:" ++ sensor
                 ++ suffix ++ eol.

Lemma lit_text_Some p s rest : lit p s = Some rest → s = p ++ rest.
Proof.
  revert s. induction p as [|a p IH]; intros s; cbn [lit].
  - by intros [= ->].
  - destruct s as [|b s]; [done|].
    destruct (N.eqb_spec a b) as [->|]; [|done].
    intros Hrest. cbn [app]. by rewrite (IH _ Hrest).
Qed.

Lemma digit_comma_digit_text_Some s group rest :
  digit_comma_digit s = Some (group, rest) →
  ∃ a b, isdecimal a = true ∧ isdecimal b = true ∧
    group = [a; ord ","; b] ∧ s = group ++ rest.
Proof.
  unfold digit_comma_digit. destruct s as [|a [|c [|b s]]]; try done.
  destruct (isdecimal a) eqn:Ha; [|done].
  destruct (N.eqb_spec c (ord ",")) as [->|]; [|done].
  destruct (isdecimal b) eqn:Hb; [|done].
  intros [= <- <-]. by exists a, b.
Qed.

Lemma at_dollar_text_true s :
  at_dollar s = true → s ∈ [[]; of_string PyStr.nl].
Proof.
  unfold at_dollar.
  intros [H|H]%orb_true_iff; apply bool_decide_eq_true in H as ->.
  - left.
  - right. left.
Qed.

Lemma channel_tail_text_Some s channel :
  channel_tail s = Some channel →
  ∃ suffix eol,
    (suffix, channel) ∈ [([], None);
                         (of_string ",A", Some (of_string "A"));
                         (of_string ",B", Some (of_string "B"));
                         (of_string ",,", Some (of_string ","))] ∧
    eol ∈ [[]; of_string PyStr.nl] ∧ s = suffix ++ eol.
Proof.
  unfold channel_tail.
  assert (at_dollar s = true → Some (@None text) = Some channel →
          ∃ suffix eol,
            (suffix, channel) ∈ [([], None);
                                 (of_string ",A", Some (of_string "A"));
                                 (of_string ",B", Some (of_string "B"));
                                 (of_string ",,", Some (of_string ","))] ∧
            eol ∈ [[]; of_string PyStr.nl] ∧ s = suffix ++ eol) as Hskip.
  { intros Hs [= <-]. exists [], s.
    split_and!; [left|by apply at_dollar_text_true|done]. }
  destruct s as [|c [|ch rest]].
  - intros H. by apply Hskip.
  - destruct (at_dollar _) eqn:Hd; [|done]. intros H. by apply Hskip.
  - destruct (N.eqb_spec c (ord ",")) as [->|]; cbn [andb].
    2: { destruct (at_dollar _) eqn:Hd; [|done]. intros H. by apply Hskip. }
    destruct (in_class_A_comma_B ch) eqn:Hch; cbn [andb].
    2: { destruct (at_dollar _) eqn:Hd; [|done]. intros H. by apply Hskip. }
    destruct (at_dollar rest) eqn:Hrest.
    2: { destruct (at_dollar _) eqn:Hd; [|done]. intros H. by apply Hskip. }
    intros [= <-]. apply at_dollar_text_true in Hrest.
    unfold in_class_A_comma_B in Hch.
    destruct (N.eqb_spec ch (ord "A")) as [->|];
      [|destruct (N.eqb_spec ch (ord ",")) as [->|];
        [|destruct (N.eqb_spec ch (ord "B")) as [->|]; [|done]]].
    + exists (of_string ",A"), rest. split_and!; [right; left|done|done].
    + exists (of_string ",,"), rest. split_and!; [do 3 right; left|done|done].
    + exists (of_string ",B"), rest. split_and!; [do 2 right; left|done|done].
Qed.

Lemma getSensorInfo_text_accepted sensorName raft sensor channel :
  getSensorInfo sensorName = (Some raft, Some sensor, channel)
  ↔ accepted sensorName raft sensor channel.
Proof.
  unfold getSensorInfo, match_sensorName. split.
  - destruct (lit (of_string "R:") sensorName) as [rest1|] eqn:H1; [|done].
    cbn [mbind option_bind].
    destruct (digit_comma_digit rest1) as [[raft' rest2]|] eqn:H2; [|done].
    cbn [mbind option_bind].
    destruct (lit (of_string " S:") rest2) as [rest3|] eqn:H3; [|done].
    cbn [mbind option_bind].
    destruct (digit_comma_digit rest3) as [[sensor' rest4]|] eqn:H4; [|done].
    cbn [mbind option_bind].
    destruct (channel_tail rest4) as [channel'|] eqn:H5; [|done].
    cbn [mbind option_bind]. intros [= <- <- <-].
    apply lit_text_Some in H1 as ->. apply lit_text_Some in H3 as ->.
    apply digit_comma_digit_text_Some in H2 as (r0 & r1 & Hr0 & Hr1 & -> & ->).
    apply digit_comma_digit_text_Some in H4 as (s0 & s1 & Hs0 & Hs1 & -> & ->).
    apply channel_tail_text_Some in H5 as (suffix & eol & Hsuf & Heol & ->).
    exists r0, r1, s0, s1, suffix, eol. split_and!; try done.
  - intros (r0 & r1 & s0 & s1 & suffix & eol & Hr0 & Hr1 & Hs0 & Hs1 & Hsuf
            & Heol & -> & -> & ->).
    change (of_string "R:") with [ord "R"; ord ":"].
    change (of_string " S:") with [ord " "; ord "S"; ord ":"].
    cbn [app lit]. rewrite !N.eqb_refl.
    cbn [mbind option_bind digit_comma_digit]. rewrite Hr0, Hr1, N.eqb_refl.
    cbn [andb lit mbind option_bind]. rewrite !N.eqb_refl.
    cbn [mbind option_bind digit_comma_digit]. rewrite Hs0, Hs1, N.eqb_refl.
    cbn [andb mbind option_bind].
    repeat (apply elem_of_cons in Hsuf as [[= -> ->]|Hsuf]);
      [..|by apply elem_of_nil in Hsuf];
      (repeat (apply elem_of_cons in Heol as [->|Heol]);
       [..|by apply elem_of_nil in Heol]); reflexivity.
Qed.

(** [__getSensorInfo] finds a raft exactly for the accepted names, and
    its groups are those of the name; for every other name the three
    results are [None]. *)
Theorem getSensorInfo_accepts_exactly sensorName :
  (∀ raft sensor channel,
     getSensorInfo sensorName = (Some raft, Some sensor, channel)
     ↔ accepted sensorName raft sensor channel) ∧
  ((¬ ∃ raft sensor channel, accepted sensorName raft sensor channel)
   ↔ getSensorInfo sensorName = (None, None, None)).
Proof.
  split; [intros; apply getSensorInfo_text_accepted|].
  split.
  - intros Hno. unfold getSensorInfo.
    destruct (match_sensorName sensorName)
      as [[[raft sensor] channel]|] eqn:Hm; [|done].
    destruct Hno. exists raft, sensor, channel.
    apply getSensorInfo_text_accepted. unfold getSensorInfo. by rewrite Hm.
  - intros Hnone (raft & sensor & channel & Hacc).
    apply getSensorInfo_text_accepted in Hacc. congruence.
Qed.

(** [doISR] hands an accepted name to the ISR wrapper with its raft and
    its sensor, and without its channel; on every other name it raises
    its [RuntimeError] and leaves the world alone, the ISR wrapper not
    being called. *)
Theorem doISR_dispatches_accepted_names visit sensorName snap fakeDatasetType
    outputDatasetType :
  (∀ raft sensor channel,
     accepted sensorName raft sensor channel →
     doISR visit sensorName snap fakeDatasetType outputDatasetType
     = isrWrapper_doISR visit snap raft (Some sensor) None
                        fakeDatasetType outputDatasetType) ∧
  ((¬ ∃ raft sensor channel, accepted sensorName raft sensor channel) →
   ∀ w, doISR visit sensorName snap fakeDatasetType outputDatasetType w
        = (Raises "RuntimeError"
                  (of_string "Sensor name: '" ++ sensorName
                   ++ of_string "' is not allowed."), w)).
Proof.
  split.
  - intros raft sensor channel Hacc%getSensorInfo_text_accepted.
    unfold doISR. by rewrite Hacc.
  - intros Hno w. unfold doISR.
    destruct (getSensorInfo sensorName) as [[[raft|] sensor] channel] eqn:Hinfo;
      [|done].
    destruct Hno. exists raft.
    unfold getSensorInfo in Hinfo.
    destruct (match_sensorName sensorName)
      as [[[raft' sensor'] channel']|] eqn:Hm; [|done].
    injection Hinfo as <- <- <-. exists sensor', channel'.
    apply getSensorInfo_text_accepted. unfold getSensorInfo. by rewrite Hm.
Qed.

(** A digit of another script is a digit of the class [\d]: with the
    Arabic-Indic digit two (code point 1634) the name is matched, and
    the raft holds that digit. *)
Lemma getSensorInfo_arabic_indic_digit :
  isdecimal 1634 = true → isdecimal (ord "1") = true →
  isdecimal (ord "2") = true →
  getSensorInfo (of_string "R:" ++ [1634%N] ++ of_string ",2 S:1,1")
  = (Some [1634%N; ord ","; ord "2"], Some (of_string "1,1"), None).
Proof.
  intros Harabic H1 H2. apply getSensorInfo_text_accepted.
  exists 1634%N, (ord "2"), (ord "1"), (ord "1"), [], [].
  split_and!; try done; left.
Qed.

End Names.

End Unicode.

(** *** The two embeddings on names of code points 0..255

    Where [\d] holds, among the code points 0..255, the digits '0'..'9'
    only, as in Unicode, [Unicode.getSensorInfo] on the text of a
    [string] gives the texts of what [getSensorInfo] gives. *)

Section Latin1.

Context (isdecimal : N → bool).
Hypothesis isdecimal_latin1 :
  ∀ a : ascii, isdecimal (Unicode.ord a) = PyStr.isdigit a.

Lemma ord_inj a b : Unicode.ord a = Unicode.ord b → a = b.
Proof.
  unfold Unicode.ord. intros H.
  by rewrite <- (ascii_N_embedding a), <- (ascii_N_embedding b), H.
Qed.

Lemma ord_eqb a b : (Unicode.ord a =? Unicode.ord b)%N = Ascii.eqb a b.
Proof.
  destruct (Ascii.eqb_spec a b) as [->|Hne].
  - apply N.eqb_refl.
  - apply N.eqb_neq. by intros ?%ord_inj.
Qed.

Lemma of_string_inj s t : Unicode.of_string s = Unicode.of_string t → s = t.
Proof.
  revert t. induction s as [|a s IH]; intros [|b t]; try done.
  intros [= ->%ord_inj ->%IH]. done.
Qed.

Lemma lit_of_string p s :
  Unicode.lit (Unicode.of_string p) (Unicode.of_string s)
  = Unicode.of_string <$> lit p s.
Proof.
  revert s. induction p as [|a p IH]; intros s; [done|].
  destruct s as [|b s]; [done|].
  change (Unicode.lit (Unicode.ord a :: Unicode.of_string p)
                      (Unicode.ord b :: Unicode.of_string s)
          = Unicode.of_string <$> (if Ascii.eqb a b then lit p s else None)).
  cbn [Unicode.lit]. rewrite ord_eqb. by destruct (Ascii.eqb a b).
Qed.

Lemma digit_comma_digit_of_string s :
  Unicode.digit_comma_digit isdecimal (Unicode.of_string s)
  = prod_map Unicode.of_string Unicode.of_string <$> digit_comma_digit s.
Proof.
  destruct s as [|a [|c [|b s]]]; try done.
  change (Unicode.of_string (String a (String c (String b s))))
    with (Unicode.ord a :: Unicode.ord c :: Unicode.ord b :: Unicode.of_string s).
  cbn [Unicode.digit_comma_digit digit_comma_digit].
  rewrite !isdecimal_latin1, ord_eqb.
  by destruct (PyStr.isdigit a && Ascii.eqb c "," && PyStr.isdigit b).
Qed.

Lemma at_dollar_of_string s :
  Unicode.at_dollar (Unicode.of_string s) = at_dollar s.
Proof.
  unfold Unicode.at_dollar, at_dollar. f_equal.
  - change [] with (Unicode.of_string "").
    destruct (String.eqb_spec s "") as [->|Hne]; [done|].
    apply bool_decide_eq_false. by intros ?%of_string_inj.
  - destruct (String.eqb_spec s PyStr.nl) as [->|Hne].
    + by apply bool_decide_eq_true.
    + apply bool_decide_eq_false. by intros ?%of_string_inj.
Qed.

Lemma channel_tail_of_string s :
  Unicode.channel_tail (Unicode.of_string s)
  = fmap (M := option) Unicode.of_string <$> channel_tail s.
Proof.
  unfold Unicode.channel_tail, channel_tail.
  rewrite at_dollar_of_string.
  destruct s as [|c [|ch rest]].
  - by destruct (at_dollar "").
  - change (Unicode.of_string (String c "")) with [Unicode.ord c].
    by destruct (at_dollar (String c "")).
  - change (Unicode.of_string (String c (String ch rest)))
      with (Unicode.ord c :: Unicode.ord ch :: Unicode.of_string rest).
    cbn iota. rewrite at_dollar_of_string. unfold Unicode.in_class_A_comma_B.
    rewrite !ord_eqb. fold (in_class_A_comma_B ch).
    destruct (Ascii.eqb c "," && in_class_A_comma_B ch && at_dollar rest);
      [done|].
    by destruct (at_dollar (String c (String ch rest))).
Qed.

Lemma getSensorInfo_of_string sensorName :
  Unicode.getSensorInfo isdecimal (Unicode.of_string sensorName)
  = (Unicode.of_string <$> (getSensorInfo sensorName).1.1,
     Unicode.of_string <$> (getSensorInfo sensorName).1.2,
     Unicode.of_string <$> (getSensorInfo sensorName).2).
Proof.
  unfold Unicode.getSensorInfo, getSensorInfo,
    Unicode.match_sensorName, match_sensorName.
  rewrite lit_of_string.
  destruct (lit "R:" sensorName) as [rest1|]; [|done].
  cbn [fmap option_fmap option_map mbind option_bind].
  rewrite digit_comma_digit_of_string.
  destruct (digit_comma_digit rest1) as [[raft rest2]|]; [|done].
  cbn [fmap option_fmap option_map mbind option_bind prod_map fst snd].
  rewrite lit_of_string.
  destruct (lit " S:" rest2) as [rest3|]; [|done].
  cbn [fmap option_fmap option_map mbind option_bind].
  rewrite digit_comma_digit_of_string.
  destruct (digit_comma_digit rest3) as [[sensor rest4]|]; [|done].
  cbn [fmap option_fmap option_map mbind option_bind prod_map fst snd].
  rewrite channel_tail_of_string.
  by destruct (channel_tail rest4) as [channel|].
Qed.

End Latin1.

(** A corner sensor, with a table of decimal digits that holds '0'..'9'
    only. *)
Example getSensorInfo_of_string_corner :
  Unicode.getSensorInfo (λ n, (48 <=? n) && (n <=? 57))%N
                        (Unicode.of_string "R:0,0 S:2,2,A")
  = (Some (Unicode.of_string "0,0"), Some (Unicode.of_string "2,2"),
     Some (Unicode.of_string "A")).
Proof. by rewrite getSensorInfo_of_string. Qed.


(** ** getPostISRDefocalImgMap *)

Section PostISR.

Context {Img : Type}.

(** The data butler, the file system and [re] are external collaborators
    that are only read here: [self.dataCollector.pathOfRawData],
    [os.path.join], [os.listdir], [os.path.isfile],
    [getImageData(butler.get("postISRCCD", dataId))], [fits.getdata] and
    [re.match(pattern, fileName)] followed by [m.group()]. *)
Context (pathOfRawData : string).
Context (os_path_join : list string → string).
Context (os_listdir : string → res (list string)).
Context (os_path_isfile : string → bool).
Context (butler_get_image : Z → Z → option string → option string → res Img).
Context (fits_getdata : string → res Img).
Context (re_match_group : string → string → option string).

(** [abbrevDectectorName] of the module SourceProcessor, which is not
    among the sources at hand. *)
Context (abbrevDectectorName : string → string).

Definition getRawFileList (dataDir : string) : res (list string) :=
  let fullDataDir := os_path_join [pathOfRawData; dataDir] in
  names ← os_listdir fullDataDir;
  Ok (filter (λ f, os_path_isfile (os_path_join [fullDataDir; f]) = true) names).

(** [__searchFileName]: the match of the first file name that matches. *)
Fixpoint searchFileName (fileList : list string) (matchName : string)
    (snap : Z) : option string :=
  match fileList with
  | [] => None
  | fileName :: fileList' =>
      match re_match_group
              ("\S*" +:+ matchName +:+ "_E00" +:+ pretty snap +:+ "\S*")
              fileName with
      | Some matched => Some matched
      | None => searchFileName fileList' matchName snap
      end
  end.

(** The images of the two visits of [obsIdList], for one sensor. *)
Definition imagesByObsId (obsIdList : list Z) (snap : Z)
    (raft sensor : option string) : res (list Img) :=
  for_each (λ imgList ii,
              visit ← list_getitem obsIdList ii;
              img ← butler_get_image visit snap raft sensor;
              Ok (imgList ++ [img]))
           (seq 0 2) [].

(** Body of the loop over the sensor names. *)
Definition defocalImgOfSensor (obsIdList : option (list Z))
    (wfsDir : option string) (wfsFileList : option (list string)) (snap : Z)
    (wfsImgMap : gmap string (DefocalImage Img)) (sensorName : string)
    : res (gmap string (DefocalImage Img)) :=
  let '(raft, sensor, channel) := getSensorInfo sensorName in
  wfsImgMap ←
    match obsIdList with
    | Some obsIdList =>
        imgList ← imagesByObsId obsIdList snap raft sensor;
        intra ← list_getitem imgList 0;
        extra ← list_getitem imgList 1;
        Ok (<[sensorName := mkDefocalImage (Some intra) (Some extra)]> wfsImgMap)
    | None => Ok wfsImgMap
    end;
  match wfsDir, wfsFileList with
  | Some wfsDir, Some wfsFileList =>
      let abbrevName := abbrevDectectorName sensorName in
      match searchFileName wfsFileList abbrevName snap with
      | Some matchFileName =>
          let fitsFilsPath :=
            os_path_join [pathOfRawData; wfsDir; matchFileName] in
          wfsImg ← fits_getdata fitsFilsPath;
          let wfsImgMap := <[sensorName := mkDefocalImage None None]> wfsImgMap in
          if bool_decide (channel = Some "A") then
            d ← getitem wfsImgMap sensorName;
            Ok (<[sensorName := DefocalImage_setImg d (Some wfsImg) None]> wfsImgMap)
          else if bool_decide (channel = Some "B") then
            d ← getitem wfsImgMap sensorName;
            Ok (<[sensorName := DefocalImage_setImg d None (Some wfsImg)]> wfsImgMap)
          else Ok wfsImgMap
      | None => Ok wfsImgMap
      end
  | _, _ => Ok wfsImgMap
  end.

Definition getPostISRDefocalImgMap (sensorNameList : list string)
    (obsIdList : option (list Z)) (wfsDir : option string) (snap : Z)
    : res (gmap string (DefocalImage Img)) :=
  wfsFileList ←
    match wfsDir with
    | Some wfsDir => Some <$> getRawFileList wfsDir
    | None => Ok None
    end;
  for_each (defocalImgOfSensor obsIdList wfsDir wfsFileList snap)
           sensorNameList ∅.

(** *** Properties of getPostISRDefocalImgMap *)

(** The defocal image the file of a sensor gives: the image in the role
    of the channel, nothing in the other role. *)
Definition imageOfChannel (channel : option string) (wfsImg : Img)
    : DefocalImage Img :=
  if bool_decide (channel = Some "A") then mkDefocalImage (Some wfsImg) None
  else if bool_decide (channel = Some "B") then mkDefocalImage None (Some wfsImg)
  else mkDefocalImage None None.

(** What the map holds for a sensor whose file is [matched]. *)
Definition holdsFileImage (wfsDir sensorName matched : string)
    (m : gmap string (DefocalImage Img)) : Prop :=
  ∃ wfsImg,
    fits_getdata (os_path_join [pathOfRawData; wfsDir; matched]) = Ok wfsImg ∧
    m !! sensorName = Some (imageOfChannel (getSensorInfo sensorName).2 wfsImg).

(** An iteration leaves the entries of the other sensors alone. *)
Lemma defocalImgOfSensor_other obsIdList wfsDir wfsFileList snap m name m' other :
  defocalImgOfSensor obsIdList wfsDir wfsFileList snap m name = Ok m' →
  name ≠ other → m' !! other = m !! other.
Proof.
  unfold defocalImgOfSensor. destruct (getSensorInfo name) as [[raft sensor] channel].
  intros Hm' Hne.
  assert (∀ x y : gmap string (DefocalImage Img),
            x !! other = m !! other → Ok y = Ok m' → y !! other = x !! other →
            m' !! other = m !! other) as Hfin.
  { intros x y Hx [= <-] Hy. by rewrite Hy. }
  unfold mbind, res_bind in Hm'.
  destruct (match obsIdList with Some _ => _ | None => _ end)
    as [m1|e] eqn:Hm1; [|done].
  assert (m1 !! other = m !! other) as H1.
  { destruct obsIdList as [ids|]; [|by injection Hm1 as <-].
    destruct (imagesByObsId _ _ _ _) as [imgs|]; [|done].
    destruct (list_getitem imgs 0); [|done].
    destruct (list_getitem imgs 1); [|done].
    injection Hm1 as <-. by rewrite lookup_insert_ne. }
  destruct wfsDir as [d|], wfsFileList as [files|];
    try (injection Hm' as <-; done).
  destruct (searchFileName _ _ _); [|by injection Hm' as <-].
  destruct (fits_getdata _); [|done].
  unfold getitem in Hm'. rewrite lookup_insert_eq in Hm'.
  repeat case_bool_decide; injection Hm' as <-;
    by rewrite ?lookup_insert_ne by done.
Qed.

(** An iteration that finds the file of its sensor stores the image of
    that file in the role of the channel. *)
Lemma defocalImgOfSensor_matched obsIdList wfsDir files snap m name m' matched :
  defocalImgOfSensor obsIdList (Some wfsDir) (Some files) snap m name = Ok m' →
  searchFileName files (abbrevDectectorName name) snap = Some matched →
  ∃ wfsImg,
    fits_getdata (os_path_join [pathOfRawData; wfsDir; matched]) = Ok wfsImg ∧
    m' !! name = Some (imageOfChannel (getSensorInfo name).2 wfsImg).
Proof.
  unfold defocalImgOfSensor, imageOfChannel.
  destruct (getSensorInfo name) as [[raft sensor] channel].
  intros Hm' Hfile. unfold mbind, res_bind in Hm'.
  destruct (match obsIdList with Some _ => _ | None => _ end) as [m1|e]; [|done].
  rewrite Hfile in Hm'.
  destruct (fits_getdata _) as [wfsImg|]; [|done].
  exists wfsImg. split; [done|].
  unfold getitem in Hm'. rewrite lookup_insert_eq in Hm'. cbn [snd].
  repeat case_bool_decide; injection Hm' as <-; by rewrite lookup_insert_eq.
Qed.

Lemma for_each_defocalImgOfSensor obsIdList wfsDir files snap names m0 m
    sensorName matched :
  for_each (defocalImgOfSensor obsIdList (Some wfsDir) (Some files) snap)
           names m0 = Ok m →
  searchFileName files (abbrevDectectorName sensorName) snap = Some matched →
  sensorName ∈ names ∨ holdsFileImage wfsDir sensorName matched m0 →
  holdsFileImage wfsDir sensorName matched m.
Proof.
  intros Hm Hmatched. revert m0 Hm.
  induction names as [|name names IH]; intros m0 Hm Hor.
  - injection Hm as <-. destruct Hor as [Hin|?]; [|done].
    by apply elem_of_nil in Hin.
  - apply for_each_cons_Ok in Hm as (m1 & Hstep & Hrest).
    apply (IH m1 Hrest).
    destruct (decide (name = sensorName)) as [->|Hne].
    + right. by eapply defocalImgOfSensor_matched.
    + destruct Hor as [Hin|(wfsImg & Hdata & Hlook)].
      * left. apply elem_of_cons in Hin as [->|Hin]; done.
      * right. exists wfsImg. split; [done|].
        by rewrite (defocalImgOfSensor_other _ _ _ _ _ _ _ _ Hstep Hne).
Qed.

(** The name of a sensor with a channel suffix:
    "R:<digit>,<digit> S:<digit>,<digit>,<channel>". *)
Definition sensorNameOfChannel (r0 r1 s0 s1 : ascii) (channel : string)
    : string :=
  "R:" +:+ String r0 ("," +:+ String r1 (" S:" +:+ String s0 (","
       +:+ String s1 ("," +:+ channel)))).

(** The parser reads the suffix of such a name as its channel. *)
Lemma getSensorInfo_channel r0 r1 s0 s1 channel :
  PyStr.isdigit r0 = true → PyStr.isdigit r1 = true →
  PyStr.isdigit s0 = true → PyStr.isdigit s1 = true →
  channel = "A" ∨ channel = "B" →
  (getSensorInfo (sensorNameOfChannel r0 r1 s0 s1 channel)).2 = Some channel.
Proof.
  intros Hr0 Hr1 Hs0 Hs1 Hch.
  unfold sensorNameOfChannel, getSensorInfo, match_sensorName.
  unfold String.append; fold String.append.
  cbn [lit Ascii.eqb Bool.eqb mbind option_bind digit_comma_digit].
  rewrite Hr0, Hr1.
  cbn [andb lit Ascii.eqb Bool.eqb mbind option_bind digit_comma_digit].
  rewrite Hs0, Hs1.
  cbn [andb lit Ascii.eqb Bool.eqb mbind option_bind].
  destruct Hch as [->| ->]; reflexivity.
Qed.

(** C7. With a directory of wavefront sensor files, a sensor of the list
    whose file is found and whose name ends in the channel suffix ",A"
    gets the image of that file as its intra-focal image, and no
    extra-focal image; a sensor whose name ends in ",B" gets it as its
    extra-focal image, and no intra-focal image. *)
Theorem getPostISRDefocalImgMap_channel sensorNameList obsIdList wfsDir snap
    wfsImgMap sensorName files matched r0 r1 s0 s1 :
  getPostISRDefocalImgMap sensorNameList obsIdList (Some wfsDir) snap
    = Ok wfsImgMap →
  sensorName ∈ sensorNameList →
  getRawFileList wfsDir = Ok files →
  searchFileName files (abbrevDectectorName sensorName) snap = Some matched →
  PyStr.isdigit r0 = true → PyStr.isdigit r1 = true →
  PyStr.isdigit s0 = true → PyStr.isdigit s1 = true →
  ∃ wfsImg,
    fits_getdata (os_path_join [pathOfRawData; wfsDir; matched]) = Ok wfsImg ∧
    (sensorName = sensorNameOfChannel r0 r1 s0 s1 "A" →
       wfsImgMap !! sensorName = Some (mkDefocalImage (Some wfsImg) None)) ∧
    (sensorName = sensorNameOfChannel r0 r1 s0 s1 "B" →
       wfsImgMap !! sensorName = Some (mkDefocalImage None (Some wfsImg))).
Proof.
  unfold getPostISRDefocalImgMap.
  intros Hmap Hin Hfiles Hmatched Hr0 Hr1 Hs0 Hs1.
  rewrite Hfiles in Hmap. cbn in Hmap.
  destruct (for_each_defocalImgOfSensor _ _ _ _ _ _ _ _ _ Hmap Hmatched)
    as (wfsImg & Hdata & Hlook); [by left|].
  exists wfsImg. split; [done|]. unfold imageOfChannel in Hlook.
  split; intros Hname; rewrite Hlook, Hname.
  - rewrite (getSensorInfo_channel r0 r1 s0 s1 "A" Hr0 Hr1 Hs0 Hs1
               (or_introl eq_refl)).
    by rewrite bool_decide_eq_true_2.
  - rewrite (getSensorInfo_channel r0 r1 s0 s1 "B" Hr0 Hr1 Hs0 Hs1
               (or_intror eq_refl)).
    rewrite bool_decide_eq_false_2 by done.
    by rewrite bool_decide_eq_true_2.
Qed.

End PostISR.

(** ** getDonutMap *)

Section DonutMap.

Context {Img Num : Type}.

(** Pixel positions are numbers; [add] is their sum. *)
Context (add : Num → Num → Num).

(** [abbrevDectectorName] and the source processor are not among the
    sources at hand.  [sourProc.config(sensorName=...)] sets the sensor
    the processor works on, which is the first argument of
    [getSingleTargetImage] here; the call returns the cutout, the
    positions of the stars in it, the magnitude ratios and the offset of
    the cutout.  [doDeblending] returns the deblended image, which may be
    [None], and the position of the star. *)
Context (abbrevDectectorName : string → string).
Context (getSingleTargetImage :
  string → Img → NeighboringStar → nat → string →
  res (Img * list Num * list Num * list Num * Num * Num)).
Context (sourProc_doDeblending :
  Img → list Num → list Num → list Num → res (option (Img * Num * Num))).

(** [__searchDonutListId]: the index of the first donut of the star, or
    -1.  The star ids are integers, on which [int] is the identity. *)
Definition searchDonutListId (donutList : list (DonutImage Img Num))
    (starId0 : Z) : Z :=
  match list_find (λ d, starId d = starId0) donutList with
  | Some (ii, _) => Z.of_nat ii
  | None => (-1)%Z
  end.

(** The single donut or the deblended image, with the position of the
    star: [(imgDeblend, realcx, realcy)], or [None] when [imgDeblend]
    stays [None]. *)
Definition deblendedImage (doDeblending : bool) (singleSciNeiImg : Img)
    (allStarPosX allStarPosY magRatio : list Num)
    : res (option (Img * Num * Num)) :=
  if bool_decide (length magRatio = 1%nat) && doDeblending
     || negb doDeblending
  then
    realcx ← list_getitem allStarPosX 0;
    realcy ← list_getitem allStarPosY 0;
    Ok (Some (singleSciNeiImg, realcx, realcy))
  else if bool_decide (length magRatio = 2%nat) && doDeblending
  then sourProc_doDeblending singleSciNeiImg allStarPosX allStarPosY magRatio
  else Ok None.

(** "Put the deblended image into the donut map": the donut of the star
    is created when the list of the sensor has none, and the image is set
    in the role of the pass [jj]. *)
Definition putDonut (donutMap : gmap string (list (DonutImage Img Num)))
    (sensorName : string) (simobjIdList : list Z) (ii jj : nat)
    (imgDeblend : Img) (realcx realcy offsetX offsetY : Num)
    : res (gmap string (list (DonutImage Img Num))) :=
  let donutMap :=
    match donutMap !! sensorName with
    | None => <[sensorName := []]> donutMap
    | Some _ => donutMap
    end in
  starId0 ← list_getitem simobjIdList ii;
  donutList ← getitem donutMap sensorName;
  let donutIndex := searchDonutListId donutList starId0 in
  '(donutMap, donutIndex) ←
    (if bool_decide (donutIndex < 0)%Z then
       let donutImg :=
         newDonutImage starId0 (add realcx offsetX) (add realcy offsetY) in
       donutList ← getitem donutMap sensorName;
       let donutList := donutList ++ [donutImg] in
       Ok (<[sensorName := donutList]> donutMap,
           searchDonutListId donutList starId0)
     else Ok (donutMap, donutIndex));
  donutList ← getitem donutMap sensorName;
  pos ← py_index (length donutList) donutIndex;
  donut ← list_getitem donutList pos;
  let donut :=
    if bool_decide (jj = 0%nat)
    then DonutImage_setImg donut (Some imgDeblend) None
    else if bool_decide (jj = 1%nat)
    then DonutImage_setImg donut None (Some imgDeblend)
    else donut in
  Ok (<[sensorName := <[pos := donut]> donutList]> donutMap).

(** Body of the loop over the two defocal images, for the star [ii]. *)
Definition donutPass (neighborStar : NeighboringStar) (aFilter : string)
    (doDeblending : bool) (sensorName : string) (simobjIdList : list Z)
    (defocalImgList : list (option Img)) (ii : nat)
    (donutMap : gmap string (list (DonutImage Img Num))) (jj : nat)
    : res (gmap string (list (DonutImage Img Num))) :=
  ccdImg ← list_getitem defocalImgList jj;
  match ccdImg with
  | None => Ok donutMap
  | Some ccdImg =>
      '(singleSciNeiImg, allStarPosX, allStarPosY, magRatio, offsetX, offsetY) ←
        getSingleTargetImage (abbrevDectectorName sensorName) ccdImg
                             neighborStar ii aFilter;
      deblended ← deblendedImage doDeblending singleSciNeiImg
                                 allStarPosX allStarPosY magRatio;
      match deblended with
      | None => Ok donutMap
      | Some (imgDeblend, realcx, realcy) =>
          putDonut donutMap sensorName simobjIdList ii jj
                   imgDeblend realcx realcy offsetX offsetY
      end
  end.

(** Body of the loop over the sensors of the image map. *)
Definition donutsOfSensor (neighborStarMap : gmap string NeighboringStar)
    (wfsImgMap : gmap string (DefocalImage Img)) (aFilter : string)
    (doDeblending : bool)
    (donutMap : gmap string (list (DonutImage Img Num))) (sensorName : string)
    : res (gmap string (list (DonutImage Img Num))) :=
  neighborStar ← getitem neighborStarMap sensorName;
  let simobjIdList := (SimobjID neighborStar).*1 in
  wfsImg ← getitem wfsImgMap sensorName;
  let defocalImgList := [intraImg wfsImg; extraImg wfsImg] in
  for_each (λ donutMap ii,
              for_each (donutPass neighborStar aFilter doDeblending sensorName
                                  simobjIdList defocalImgList ii)
                       (seq 0 2) donutMap)
           (seq 0 (length simobjIdList)) donutMap.

(** [getDonutMap]; the sensors are visited in the order of the keys of
    [wfsImgMap]. *)
Definition getDonutMap (neighborStarMap : gmap string NeighboringStar)
    (wfsImgMap : gmap string (DefocalImage Img)) (aFilter : string)
    (doDeblending : bool) : res (gmap string (list (DonutImage Img Num))) :=
  for_each (donutsOfSensor neighborStarMap wfsImgMap aFilter doDeblending)
           (map_to_list wfsImgMap).*1 ∅.

(** *** Notions derived from the loops *)

(** The image set in the role of the pass [jj]. *)
Definition setRole (jj : nat) (img : Img) (d : DonutImage Img Num)
    : DonutImage Img Num :=
  if bool_decide (jj = 0%nat) then DonutImage_setImg d (Some img) None
  else if bool_decide (jj = 1%nat) then DonutImage_setImg d None (Some img)
  else d.

(** What [putDonut] does to the list of its sensor. *)
Definition putList (l : list (DonutImage Img Num)) (id : Z) (jj : nat)
    (img : Img) (x y : Num) : list (DonutImage Img Num) :=
  match list_find (λ d, starId d = id) l with
  | Some (pos, d) => <[pos := setRole jj img d]> l
  | None => l ++ [setRole jj img (newDonutImage id x y)]
  end.

(** The list of a sensor, empty when the sensor has no entry. *)
Definition donutsOf (m : gmap string (list (DonutImage Img Num)))
    (sensorName : string) : list (DonutImage Img Num) :=
  default [] (m !! sensorName).

(** The cutout of the star [ii] in one defocal image: the image put into
    the donut map and the position a new donut is given; [None] when
    there is no defocal image or no image to put. *)
Definition cutout (neighborStar : NeighboringStar) (aFilter : string)
    (doDeblending : bool) (sensorName : string) (ccdImg : option Img)
    (ii : nat) : option (Img * Num * Num) :=
  match ccdImg with
  | None => None
  | Some ccdImg =>
      match getSingleTargetImage (abbrevDectectorName sensorName) ccdImg
                                 neighborStar ii aFilter with
      | Ok (singleSciNeiImg, allStarPosX, allStarPosY, magRatio,
            offsetX, offsetY) =>
          match deblendedImage doDeblending singleSciNeiImg
                               allStarPosX allStarPosY magRatio with
          | Ok (Some (imgDeblend, realcx, realcy)) =>
              Some (imgDeblend, add realcx offsetX, add realcy offsetY)
          | _ => None
          end
      | Raise _ => None
      end
  end.

(** In the donut map no list holds two donuts of one star. *)
Definition distinctStars (m : gmap string (list (DonutImage Img Num))) : Prop :=
  ∀ sensorName l, m !! sensorName = Some l → NoDup (starId <$> l).

(** The donut the two passes of the star [ii] make: none without a
    cutout; otherwise one donut, created by the first pass that has a
    cutout and holding the cutouts of both passes. *)
Definition newDonuts (neighborStar : NeighboringStar) (aFilter : string)
    (doDeblending : bool) (sensorName : string) (wfsImg : DefocalImage Img)
    (id : Z) (ii : nat) : list (DonutImage Img Num) :=
  match cutout neighborStar aFilter doDeblending sensorName (intraImg wfsImg) ii,
        cutout neighborStar aFilter doDeblending sensorName (extraImg wfsImg) ii
  with
  | None, None => []
  | Some (a, x, y), None =>
      [mkDonutImage id x y (mkDefocalImage (Some a) None)]
  | None, Some (b, x, y) =>
      [mkDonutImage id x y (mkDefocalImage None (Some b))]
  | Some (a, x, y), Some (b, _, _) =>
      [mkDonutImage id x y (mkDefocalImage (Some a) (Some b))]
  end.

Definition donutsAt (neighborStar : NeighboringStar) (aFilter : string)
    (doDeblending : bool) (sensorName : string) (wfsImg : DefocalImage Img)
    (ii : nat) : list (DonutImage Img Num) :=
  match (SimobjID neighborStar).*1 !! ii with
  | Some id =>
      newDonuts neighborStar aFilter doDeblending sensorName wfsImg id ii
  | None => []
  end.

(** The donuts of the first [n] stars of a sensor. *)
Definition allDonuts (neighborStar : NeighboringStar) (aFilter : string)
    (doDeblending : bool) (sensorName : string) (wfsImg : DefocalImage Img)
    (n : nat) : list (DonutImage Img Num) :=
  mjoin (donutsAt neighborStar aFilter doDeblending sensorName wfsImg
         <$> seq 0 n).

(** A sensor gets its entry with its first donut. *)
Definition setDonuts (sensorName : string) (l : list (DonutImage Img Num))
    (m : gmap string (list (DonutImage Img Num)))
    : gmap string (list (DonutImage Img Num)) :=
  match l with [] => m | _ => <[sensorName := l]> m end.

Definition entryOf (l : list (DonutImage Img Num))
    : option (list (DonutImage Img Num)) :=
  match l with [] => None | _ => Some l end.

(** The image of a cutout. *)
Definition cutoutImg (neighborStar : NeighboringStar) (aFilter : string)
    (doDeblending : bool) (sensorName : string) (ccdImg : option Img)
    (ii : nat) : option Img :=
  (λ c, c.1.1) <$> cutout neighborStar aFilter doDeblending sensorName ccdImg ii.

(** The source processor does not raise on the stars of a sensor: the
    cutout is made and the deblending decision gives an image or none. *)
Definition processorReturns (neighborStar : NeighboringStar)
    (aFilter : string) (doDeblending : bool) (sensorName : string)
    (wfsImg : DefocalImage Img) : Prop :=
  ∀ ii ccdImg,
    (ii < length (SimobjID neighborStar).*1)%nat →
    Some ccdImg ∈ [intraImg wfsImg; extraImg wfsImg] →
    ∃ raw posX posY magRatio offsetX offsetY deblended,
      getSingleTargetImage (abbrevDectectorName sensorName) ccdImg
                           neighborStar ii aFilter
        = Ok (raw, posX, posY, magRatio, offsetX, offsetY) ∧
      deblendedImage doDeblending raw posX posY magRatio = Ok deblended.

(** *** The list of one sensor *)

Lemma donutsOf_insert sensorName l m :
  donutsOf (<[sensorName := l]> m) sensorName = l.
Proof. unfold donutsOf. by rewrite lookup_insert_eq. Qed.

Lemma starId_setRole jj img d : starId (setRole jj img d) = starId d.
Proof. unfold setRole. by repeat case_bool_decide. Qed.

Lemma py_index_lt len (pos : nat) :
  (pos < len)%nat → py_index len (Z.of_nat pos) = Ok pos.
Proof.
  intros Hlt. unfold py_index. rewrite bool_decide_eq_true_2 by lia.
  by rewrite Nat2Z.id.
Qed.

Lemma putDonut_eq m sensorName ids ii jj img cx cy ox oy id :
  ids !! ii = Some id →
  putDonut m sensorName ids ii jj img cx cy ox oy
  = Ok (<[sensorName := putList (donutsOf m sensorName) id jj img
                                (add cx ox) (add cy oy)]> m).
Proof.
  intros Hid. unfold putDonut, putList, donutsOf, list_getitem, searchDonutListId.
  rewrite Hid. cbn [mbind res_bind].
  set (m0 := match m !! sensorName with None => _ | Some _ => _ end).
  assert (m0 !! sensorName = Some (default [] (m !! sensorName))
          ∧ ∀ l, <[sensorName := l]> m0 = <[sensorName := l]> m) as [Hm0 Hins].
  { subst m0. destruct (m !! sensorName) as [l|] eqn:Hl; [by rewrite Hl|].
    rewrite lookup_insert_eq. split; [done|]. intros l.
    by rewrite insert_insert_eq. }
  revert Hm0. generalize (default [] (m !! sensorName)). intros l Hm0.
  unfold getitem. rewrite Hm0. cbn [mbind res_bind].
  destruct (list_find (λ d, starId d = id) l) as [[pos d]|] eqn:Hfind.
  - rewrite (bool_decide_eq_false_2 (Z.of_nat pos < 0)%Z) by lia.
    cbn [mbind res_bind]. rewrite ?Hm0. cbn [mbind res_bind].
    apply list_find_Some in Hfind as (Hpos & _ & _).
    rewrite py_index_lt by (by eapply lookup_lt_Some).
    cbn [mbind res_bind]. rewrite Hpos. cbn [mbind res_bind].
    by rewrite Hins.
  - rewrite (bool_decide_eq_true_2 (-1 < 0)%Z) by lia.
    cbn [mbind res_bind]. rewrite ?Hm0. cbn [mbind res_bind].
    rewrite list_find_app_r by done. cbn [list_find].
    rewrite decide_True by done. cbn [fmap option_fmap option_map prod_map fst snd].
    rewrite lookup_insert_eq. cbn [mbind res_bind].
    rewrite py_index_lt by (rewrite length_app; simpl; lia).
    cbn [mbind res_bind]. rewrite Nat.add_0_l.
    rewrite list_lookup_middle by done. cbn [mbind res_bind].
    rewrite insert_insert_eq, Hins. do 2 f_equal.
    rewrite <- (Nat.add_0_r (length l)) at 1. by rewrite insert_app_r.
Qed.

Lemma putDonut_Ok m sensorName ids ii jj img cx cy ox oy m' :
  putDonut m sensorName ids ii jj img cx cy ox oy = Ok m' →
  ∃ id, ids !! ii = Some id ∧
    m' = <[sensorName := putList (donutsOf m sensorName) id jj img
                                 (add cx ox) (add cy oy)]> m.
Proof.
  destruct (ids !! ii) as [id|] eqn:Hid.
  - rewrite (putDonut_eq _ _ _ _ _ _ _ _ _ _ id Hid). intros [= <-]. eauto.
  - unfold putDonut, list_getitem. by rewrite Hid.
Qed.

(** A pass that returns has put the cutout, if there is one. *)
Lemma donutPass_Ok neighborStar aFilter doDeblending sensorName ids imgs
    ii m jj m' ccdImg :
  donutPass neighborStar aFilter doDeblending sensorName ids imgs ii m jj
    = Ok m' →
  imgs !! jj = Some ccdImg →
  match cutout neighborStar aFilter doDeblending sensorName ccdImg ii with
  | None => m' = m
  | Some (img, x, y) =>
      ∃ id, ids !! ii = Some id ∧
        m' = <[sensorName := putList (donutsOf m sensorName) id jj img x y]> m
  end.
Proof.
  unfold donutPass, cutout, list_getitem. intros Hpass Himg.
  rewrite Himg in Hpass. cbn [mbind res_bind] in Hpass.
  destruct ccdImg as [ccdImg|]; [|by injection Hpass].
  destruct (getSingleTargetImage _ _ _ _ _)
    as [[[[[[raw posX] posY] magRatio] ox] oy]|]; [|done].
  cbn [mbind res_bind] in Hpass.
  destruct (deblendedImage _ _ _ _ _) as [[[[img cx] cy]|]|]; [| |done].
  - cbn [mbind res_bind] in Hpass. by apply putDonut_Ok in Hpass.
  - by injection Hpass.
Qed.

(** *** Properties of the deblending decision *)

(** C1, as amended.  When deblending is disabled, or when one star lies in
    the cutout, the raw cutout is passed through with the first position
    of the star lists as its centre: the pass puts the raw cutout into the
    donut map.  When deblending is enabled and more than two stars lie in
    the cutout, there is no image and the pass leaves the donut map as it
    is. *)
Theorem donutPass_raw_cutout neighborStar aFilter doDeblending sensorName ids
    imgs ii m jj ccdImg raw posX posY magRatio offsetX offsetY cx cy :
  imgs !! jj = Some (Some ccdImg) →
  getSingleTargetImage (abbrevDectectorName sensorName) ccdImg neighborStar
                       ii aFilter
    = Ok (raw, posX, posY, magRatio, offsetX, offsetY) →
  posX !! 0%nat = Some cx → posY !! 0%nat = Some cy →
  (doDeblending = false ∨ length magRatio = 1%nat →
     deblendedImage doDeblending raw posX posY magRatio
       = Ok (Some (raw, cx, cy)) ∧
     donutPass neighborStar aFilter doDeblending sensorName ids imgs ii m jj
       = putDonut m sensorName ids ii jj raw cx cy offsetX offsetY) ∧
  (doDeblending = true → (2 < length magRatio)%nat →
     deblendedImage doDeblending raw posX posY magRatio = Ok None ∧
     donutPass neighborStar aFilter doDeblending sensorName ids imgs ii m jj
       = Ok m).
Proof.
  intros Himg Hsingle Hx Hy.
  assert (∀ r, deblendedImage doDeblending raw posX posY magRatio = Ok r →
    donutPass neighborStar aFilter doDeblending sensorName ids imgs ii m jj
    = match r with
      | None => Ok m
      | Some (img, x, y) =>
          putDonut m sensorName ids ii jj img x y offsetX offsetY
      end) as Hpass.
  { intros r Hr. unfold donutPass, list_getitem. rewrite Himg.
    cbn [mbind res_bind]. rewrite Hsingle. cbn [mbind res_bind].
    by rewrite Hr. }
  split.
  - intros Hraw.
    assert (deblendedImage doDeblending raw posX posY magRatio
            = Ok (Some (raw, cx, cy))) as Hr.
    { unfold deblendedImage, list_getitem. rewrite Hx, Hy.
      destruct Hraw as [->|Hone]; [by rewrite orb_true_r|].
      rewrite bool_decide_eq_true_2 by done. by destruct doDeblending. }
    split; [done|]. by rewrite (Hpass _ Hr).
  - intros -> Hmany.
    assert (deblendedImage true raw posX posY magRatio = Ok None) as Hr.
    { unfold deblendedImage.
      by rewrite !bool_decide_eq_false_2 by lia. }
    split; [done|]. by rewrite (Hpass _ Hr).
Qed.

(** *** One donut per star *)

Lemma find_star_None (l : list (DonutImage Img Num)) id :
  id ∉ starId <$> l → list_find (λ d, starId d = id) l = None.
Proof.
  intros Hfresh. apply list_find_None, Forall_forall. intros d Hd Heq.
  apply Hfresh, list_elem_of_fmap. eauto.
Qed.

Lemma putList_fresh l id jj img x y :
  id ∉ starId <$> l →
  putList l id jj img x y = l ++ [setRole jj img (newDonutImage id x y)].
Proof. intros Hfresh. unfold putList. by rewrite find_star_None. Qed.

Lemma putList_last l d jj img x y :
  starId d ∉ starId <$> l →
  putList (l ++ [d]) (starId d) jj img x y = l ++ [setRole jj img d].
Proof.
  intros Hfresh. unfold putList.
  rewrite list_find_app_r by by apply find_star_None.
  cbn [list_find]. rewrite decide_True by done.
  cbn [fmap option_fmap option_map prod_map fst snd]. rewrite Nat.add_0_l.
  rewrite <- (Nat.add_0_r (length l)) at 1. by rewrite insert_app_r.
Qed.

(** [putList] keeps the star ids of a list distinct. *)
Lemma putList_NoDup l id jj img x y :
  NoDup (starId <$> l) → NoDup (starId <$> putList l id jj img x y).
Proof.
  intros Hnodup. unfold putList.
  destruct (list_find _ l) as [[pos d]|] eqn:Hfind.
  - apply list_find_Some in Hfind as (Hpos & _ & _).
    rewrite list_fmap_insert, starId_setRole, list_insert_id; [done|].
    by rewrite list_lookup_fmap, Hpos.
  - rewrite fmap_app. apply NoDup_app. split_and!; [done| |].
    + intros i Hi [->|Hnil%elem_of_nil]%elem_of_cons; [|done].
      rewrite starId_setRole in Hi. cbn in Hi.
      apply list_elem_of_fmap in Hi as (d & Hd & Hin).
      apply list_find_None in Hfind. by eapply Forall_forall in Hfind.
    + apply NoDup_singleton.
Qed.

Lemma distinctStars_put m sensorName id jj img x y :
  distinctStars m →
  distinctStars (<[sensorName := putList (donutsOf m sensorName) id jj img x y]> m).
Proof.
  intros Hm other l. destruct (decide (sensorName = other)) as [<-|Hne].
  - rewrite lookup_insert_eq. intros [= <-]. apply putList_NoDup.
    unfold donutsOf. destruct (m !! sensorName) as [l0|] eqn:Hl0; [|constructor].
    by eapply Hm.
  - rewrite lookup_insert_ne by done. apply Hm.
Qed.

Lemma donutPass_distinctStars neighborStar aFilter doDeblending sensorName ids
    imgs ii m jj m' :
  donutPass neighborStar aFilter doDeblending sensorName ids imgs ii m jj
    = Ok m' →
  distinctStars m → distinctStars m'.
Proof.
  intros Hpass Hm. destruct (imgs !! jj) as [ccdImg|] eqn:Himg.
  - pose proof (donutPass_Ok _ _ _ _ _ _ _ _ _ _ _ Hpass Himg) as Hm'.
    destruct (cutout _ _ _ _ _ _) as [[[img x] y]|]; [|by subst].
    destruct Hm' as (id & _ & ->). by apply distinctStars_put.
  - unfold donutPass, list_getitem in Hpass. by rewrite Himg in Hpass.
Qed.

Lemma donutsOfSensor_distinctStars neighborStarMap wfsImgMap aFilter
    doDeblending m sensorName m' :
  donutsOfSensor neighborStarMap wfsImgMap aFilter doDeblending m sensorName
    = Ok m' →
  distinctStars m → distinctStars m'.
Proof.
  unfold donutsOfSensor, getitem.
  destruct (neighborStarMap !! sensorName) as [ns|]; [|done].
  destruct (wfsImgMap !! sensorName) as [di|]; [|done].
  cbn [mbind res_bind]. intros Hloop Hm.
  eapply (for_each_invariant distinctStars); [|exact Hm|exact Hloop].
  intros m1 ii m2 _ Hm1 Hstar.
  eapply (for_each_invariant distinctStars); [|exact Hm1|exact Hstar].
  intros m3 jj m4 _ Hm3 Hpass. by eapply donutPass_distinctStars.
Qed.

Lemma getDonutMap_distinctStars neighborStarMap wfsImgMap aFilter doDeblending m :
  getDonutMap neighborStarMap wfsImgMap aFilter doDeblending = Ok m →
  distinctStars m.
Proof.
  unfold getDonutMap. intros Hloop.
  eapply (for_each_invariant distinctStars); [| |exact Hloop].
  - intros m1 s m2 _ Hm1 Hs. by eapply donutsOfSensor_distinctStars.
  - intros s l Hl. by rewrite lookup_empty in Hl.
Qed.

(** *** The other sensors are left alone *)

Lemma donutsOfSensor_other neighborStarMap wfsImgMap aFilter doDeblending
    m sensorName m' other :
  donutsOfSensor neighborStarMap wfsImgMap aFilter doDeblending m sensorName
    = Ok m' →
  sensorName ≠ other → m' !! other = m !! other.
Proof.
  unfold donutsOfSensor, getitem.
  destruct (neighborStarMap !! sensorName) as [ns|]; [|done].
  destruct (wfsImgMap !! sensorName) as [di|]; [|done].
  cbn [mbind res_bind]. intros Hloop Hne.
  eapply (for_each_invariant (λ m1, m1 !! other = m !! other));
    [|done|exact Hloop].
  intros m1 ii m2 _ Hm1 Hstar.
  eapply (for_each_invariant (λ m1, m1 !! other = m !! other));
    [|exact Hm1|exact Hstar].
  intros m3 jj m4 Hjj Hm3 Hpass.
  destruct ([intraImg di; extraImg di] !! jj) as [ccdImg|] eqn:Himg.
  - pose proof (donutPass_Ok _ _ _ _ _ _ _ _ _ _ _ Hpass Himg) as Hm4.
    destruct (cutout _ _ _ _ _ _) as [[[img x] y]|]; [|by subst].
    destruct Hm4 as (id & _ & ->). by rewrite lookup_insert_ne.
  - unfold donutPass, list_getitem in Hpass. by rewrite Himg in Hpass.
Qed.

(** *** The donuts of a sensor in closed form *)

Lemma lookup_setDonuts sensorName l m :
  m !! sensorName = None → setDonuts sensorName l m !! sensorName = entryOf l.
Proof. intros Hm. destruct l; [done|]. apply lookup_insert_eq. Qed.

Lemma donutsOf_setDonuts sensorName l m :
  m !! sensorName = None → donutsOf (setDonuts sensorName l m) sensorName = l.
Proof.
  intros Hm. unfold donutsOf. rewrite lookup_setDonuts by done. by destruct l.
Qed.

Lemma setDonuts_app sensorName l new m :
  setDonuts sensorName (l ++ new) m
  = match new with
    | [] => setDonuts sensorName l m
    | _ => <[sensorName := l ++ new]> (setDonuts sensorName l m)
    end.
Proof.
  destruct new as [|d new]; [by rewrite app_nil_r|].
  destruct l as [|d0 l]; [done|]. cbn [app setDonuts].
  by rewrite insert_insert_eq.
Qed.

Lemma elem_of_newDonuts neighborStar aFilter doDeblending sensorName wfsImg id ii d :
  d ∈ newDonuts neighborStar aFilter doDeblending sensorName wfsImg id ii →
  starId d = id ∧
  intraImg (donutImgs d)
    = cutoutImg neighborStar aFilter doDeblending sensorName (intraImg wfsImg) ii ∧
  extraImg (donutImgs d)
    = cutoutImg neighborStar aFilter doDeblending sensorName (extraImg wfsImg) ii.
Proof.
  unfold newDonuts, cutoutImg.
  destruct (cutout _ _ _ _ (intraImg wfsImg) _) as [[[a x] y]|];
    destruct (cutout _ _ _ _ (extraImg wfsImg) _) as [[[b x'] y']|];
    intros Hd; try (apply list_elem_of_singleton in Hd as ->; done).
  by apply elem_of_nil in Hd.
Qed.

Lemma elem_of_allDonuts neighborStar aFilter doDeblending sensorName wfsImg n d :
  d ∈ allDonuts neighborStar aFilter doDeblending sensorName wfsImg n ↔
  ∃ ii id, (ii < n)%nat ∧ (SimobjID neighborStar).*1 !! ii = Some id ∧
    d ∈ newDonuts neighborStar aFilter doDeblending sensorName wfsImg id ii.
Proof.
  unfold allDonuts. rewrite list_elem_of_join. split.
  - intros (l & Hd & Hl). apply list_elem_of_fmap in Hl as (ii & -> & Hii).
    apply elem_of_seq in Hii. unfold donutsAt in Hd.
    destruct (_ !! ii) as [id|] eqn:Hid; [|by apply elem_of_nil in Hd].
    exists ii, id. split_and!; [lia|done|done].
  - intros (ii & id & Hii & Hid & Hd).
    exists (donutsAt neighborStar aFilter doDeblending sensorName wfsImg ii).
    split; [unfold donutsAt; by rewrite Hid|].
    apply list_elem_of_fmap. exists ii. split; [done|].
    apply elem_of_seq. lia.
Qed.

Lemma allDonuts_S neighborStar aFilter doDeblending sensorName wfsImg n :
  allDonuts neighborStar aFilter doDeblending sensorName wfsImg (S n)
  = allDonuts neighborStar aFilter doDeblending sensorName wfsImg n
    ++ donutsAt neighborStar aFilter doDeblending sensorName wfsImg n.
Proof.
  unfold allDonuts. rewrite seq_S, fmap_app, join_app. cbn.
  by rewrite app_nil_r.
Qed.

(** The two passes of a star that has no donut yet. *)
Lemma star_passes neighborStar aFilter doDeblending sensorName ids wfsImg ii
    m m' id :
  for_each (donutPass neighborStar aFilter doDeblending sensorName ids
                      [intraImg wfsImg; extraImg wfsImg] ii)
           (seq 0 2) m = Ok m' →
  ids !! ii = Some id →
  id ∉ starId <$> donutsOf m sensorName →
  m' = match newDonuts neighborStar aFilter doDeblending sensorName wfsImg id ii with
       | [] => m
       | new => <[sensorName := donutsOf m sensorName ++ new]> m
       end.
Proof.
  intros Hloop Hid Hfresh. cbn [seq] in Hloop.
  apply for_each_cons_Ok in Hloop as (m1 & Hintra & Hloop).
  apply for_each_cons_Ok in Hloop as (m2 & Hextra & [= <-]).
  pose proof (donutPass_Ok _ _ _ _ _ _ _ _ _ _ (intraImg wfsImg) Hintra eq_refl)
    as H1.
  pose proof (donutPass_Ok _ _ _ _ _ _ _ _ _ _ (extraImg wfsImg) Hextra eq_refl)
    as H2.
  unfold newDonuts.
  destruct (cutout _ _ _ _ (intraImg wfsImg) _) as [[[a x] y]|].
  - destruct H1 as (id1 & Hid1 & ->). rewrite Hid in Hid1. injection Hid1 as <-.
    rewrite putList_fresh in H2 by done.
    rewrite donutsOf_insert in H2.
    destruct (cutout _ _ _ _ (extraImg wfsImg) _) as [[[b x'] y']|].
    + destruct H2 as (id2 & Hid2 & ->). rewrite Hid in Hid2.
      injection Hid2 as <-. rewrite insert_insert_eq.
      assert (putList (donutsOf m sensorName
                       ++ [setRole 0 a (newDonutImage id x y)]) id 1 b x' y'
              = donutsOf m sensorName
                ++ [setRole 1 b (setRole 0 a (newDonutImage id x y))])
        as -> by exact (putList_last _ (setRole 0 a (newDonutImage id x y))
                          1 b x' y' Hfresh).
      reflexivity.
    + by subst m2.
  - subst m1.
    destruct (cutout _ _ _ _ (extraImg wfsImg) _) as [[[b x'] y']|].
    + destruct H2 as (id2 & Hid2 & ->). rewrite Hid in Hid2.
      injection Hid2 as <-. by rewrite putList_fresh by done.
    + by subst m2.
Qed.

(** The loop over the stars of a sensor that has no entry yet. *)
Lemma stars_loop neighborStar aFilter doDeblending sensorName wfsImg n m m' :
  for_each (λ m ii,
              for_each (donutPass neighborStar aFilter doDeblending sensorName
                          (SimobjID neighborStar).*1
                          [intraImg wfsImg; extraImg wfsImg] ii)
                       (seq 0 2) m)
           (seq 0 n) m = Ok m' →
  (n ≤ length (SimobjID neighborStar).*1)%nat →
  NoDup (SimobjID neighborStar).*1 →
  m !! sensorName = None →
  m' = setDonuts sensorName
         (allDonuts neighborStar aFilter doDeblending sensorName wfsImg n) m.
Proof.
  intros Hloop Hn Hnodup Hm. revert m' Hloop.
  induction n as [|n IH]; intros m' Hloop.
  - by injection Hloop as <-.
  - rewrite (seq_S n 0) in Hloop. cbn [Nat.add] in Hloop.
    apply for_each_snoc_Ok in Hloop as (m1 & Hfirst & Hstar).
    rewrite (IH ltac:(lia) m1 Hfirst) in Hstar.
    destruct (lookup_lt_is_Some_2 (SimobjID neighborStar).*1 n) as [id Hid];
      [lia|].
    apply (star_passes _ _ _ _ _ _ _ _ _ id) in Hstar; [|done|].
    + rewrite donutsOf_setDonuts in Hstar by done.
      rewrite allDonuts_S, setDonuts_app. unfold donutsAt.
      rewrite Hid. subst m'. by destruct (newDonuts _ _ _ _ _ _ _).
    + rewrite donutsOf_setDonuts by done.
      intros (d & Hsame & Hd)%list_elem_of_fmap.
      apply elem_of_allDonuts in Hd as (ii & id' & Hii & Hid' & Hd).
      apply elem_of_newDonuts in Hd as (Hstar' & _). subst id id'.
      pose proof (NoDup_lookup _ _ _ _ Hnodup Hid' Hid). lia.
Qed.

Lemma donutsOfSensor_closed neighborStarMap wfsImgMap aFilter doDeblending
    m sensorName m' neighborStar wfsImg :
  donutsOfSensor neighborStarMap wfsImgMap aFilter doDeblending m sensorName
    = Ok m' →
  neighborStarMap !! sensorName = Some neighborStar →
  wfsImgMap !! sensorName = Some wfsImg →
  NoDup (SimobjID neighborStar).*1 →
  m !! sensorName = None →
  m' !! sensorName
  = entryOf (allDonuts neighborStar aFilter doDeblending sensorName wfsImg
                       (length (SimobjID neighborStar).*1)).
Proof.
  unfold donutsOfSensor, getitem. intros Hloop Hns Hwfs.
  rewrite Hns, Hwfs in Hloop.
  cbn [mbind res_bind] in Hloop. intros Hnodup Hm.
  apply stars_loop in Hloop; [|done..].
  subst m'. by apply lookup_setDonuts.
Qed.

Lemma for_each_donutsOfSensor neighborStarMap wfsImgMap aFilter doDeblending
    keys m0 m sensorName :
  for_each (donutsOfSensor neighborStarMap wfsImgMap aFilter doDeblending)
           keys m0 = Ok m →
  NoDup keys →
  (sensorName ∉ keys → m !! sensorName = m0 !! sensorName) ∧
  (sensorName ∈ keys → m0 !! sensorName = None →
   ∀ neighborStar wfsImg,
     neighborStarMap !! sensorName = Some neighborStar →
     wfsImgMap !! sensorName = Some wfsImg →
     NoDup (SimobjID neighborStar).*1 →
     m !! sensorName
     = entryOf (allDonuts neighborStar aFilter doDeblending sensorName wfsImg
                          (length (SimobjID neighborStar).*1))).
Proof.
  revert m0. induction keys as [|key keys IH]; intros m0 Hloop Hnodup.
  - injection Hloop as <-. split; [done|].
    intros Hin. by apply elem_of_nil in Hin.
  - apply for_each_cons_Ok in Hloop as (m1 & Hkey & Hloop).
    apply NoDup_cons in Hnodup as [Hkey_fresh Hnodup].
    destruct (IH m1 Hloop Hnodup) as [IHout IHin]. split.
    + intros [Hne Hout]%not_elem_of_cons. rewrite IHout by done.
      by eapply donutsOfSensor_other.
    + intros [->|Hin]%elem_of_cons Hm0 neighborStar wfsImg Hns Hwfs Hids.
      * rewrite IHout by done. by eapply donutsOfSensor_closed.
      * apply IHin; [done| |done..].
        rewrite (donutsOfSensor_other _ _ _ _ _ _ _ sensorName Hkey);
          [done|]. by intros ->.
Qed.

(** The entry of a sensor in the donut map [getDonutMap] returns. *)
Lemma getDonutMap_entry neighborStarMap wfsImgMap aFilter doDeblending m
    sensorName neighborStar wfsImg :
  getDonutMap neighborStarMap wfsImgMap aFilter doDeblending = Ok m →
  neighborStarMap !! sensorName = Some neighborStar →
  wfsImgMap !! sensorName = Some wfsImg →
  NoDup (SimobjID neighborStar).*1 →
  m !! sensorName
  = entryOf (allDonuts neighborStar aFilter doDeblending sensorName wfsImg
                       (length (SimobjID neighborStar).*1)).
Proof.
  unfold getDonutMap. intros Hloop Hns Hwfs Hids.
  apply (for_each_donutsOfSensor _ _ _ _ _ _ _ sensorName) in Hloop
    as [_ Hin]; [|apply NoDup_fst_map_to_list].
  apply Hin; [|apply lookup_empty|done..].
  apply list_elem_of_fmap. exists (sensorName, wfsImg). split; [done|].
  by apply elem_of_map_to_list.
Qed.

(** *** getDonutMap returns *)

Lemma donutsOfSensor_returns neighborStarMap wfsImgMap aFilter doDeblending
    m sensorName neighborStar wfsImg :
  neighborStarMap !! sensorName = Some neighborStar →
  wfsImgMap !! sensorName = Some wfsImg →
  processorReturns neighborStar aFilter doDeblending sensorName wfsImg →
  ∃ m', donutsOfSensor neighborStarMap wfsImgMap aFilter doDeblending
          m sensorName = Ok m'.
Proof.
  intros Hns Hwfs Hproc. unfold donutsOfSensor, getitem.
  rewrite Hns, Hwfs. cbn [mbind res_bind].
  apply for_each_returns. intros m1 ii Hii%elem_of_seq.
  apply for_each_returns. intros m2 jj Hjj%elem_of_seq.
  unfold donutPass, list_getitem.
  destruct ([intraImg wfsImg; extraImg wfsImg] !! jj) as [ccdImg|] eqn:Himg.
  2: { apply lookup_ge_None in Himg. simpl in Himg. lia. }
  cbn [mbind res_bind]. destruct ccdImg as [ccdImg|]; [|by eexists].
  destruct (Hproc ii ccdImg) as
    (raw & posX & posY & magRatio & ox & oy & deblended & Hsingle & Hdeb);
    [lia|by eapply list_elem_of_lookup_2|].
  rewrite Hsingle. cbn [mbind res_bind]. rewrite Hdeb.
  cbn [mbind res_bind]. destruct deblended as [[[img cx] cy]|]; [|by eexists].
  destruct (lookup_lt_is_Some_2 (SimobjID neighborStar).*1 ii) as [id Hid];
    [lia|].
  rewrite (putDonut_eq _ _ _ _ _ _ _ _ _ _ id Hid). by eexists.
Qed.

(** [getDonutMap] returns when every sensor of the image map has its
    stars and the source processor does not raise on them. *)
Lemma getDonutMap_returns neighborStarMap wfsImgMap aFilter doDeblending :
  (∀ sensorName wfsImg, wfsImgMap !! sensorName = Some wfsImg →
     ∃ neighborStar, neighborStarMap !! sensorName = Some neighborStar ∧
       processorReturns neighborStar aFilter doDeblending sensorName wfsImg) →
  ∃ m, getDonutMap neighborStarMap wfsImgMap aFilter doDeblending = Ok m.
Proof.
  intros Hall. unfold getDonutMap. apply for_each_returns.
  intros m sensorName ([s wfsImg] & -> & Hin)%list_elem_of_fmap.
  apply elem_of_map_to_list in Hin.
  destruct (Hall _ _ Hin) as (neighborStar & Hns & Hproc).
  by eapply donutsOfSensor_returns.
Qed.

(** *** Properties of getDonutMap *)

(** Without deblending, or with one star in the cutout, the cutout of a
    star is the raw cutout the source processor returns. *)
Lemma cutoutImg_raw neighborStar aFilter doDeblending sensorName ccdImg ii
    raw posX posY magRatio offsetX offsetY cx cy :
  getSingleTargetImage (abbrevDectectorName sensorName) ccdImg neighborStar
                       ii aFilter
    = Ok (raw, posX, posY, magRatio, offsetX, offsetY) →
  posX !! 0%nat = Some cx → posY !! 0%nat = Some cy →
  doDeblending = false ∨ length magRatio = 1%nat →
  cutoutImg neighborStar aFilter doDeblending sensorName (Some ccdImg) ii
  = Some raw.
Proof.
  intros Hsingle Hx Hy Hraw. unfold cutoutImg, cutout. rewrite Hsingle.
  assert (deblendedImage doDeblending raw posX posY magRatio
          = Ok (Some (raw, cx, cy))) as ->; [|done].
  unfold deblendedImage, list_getitem. rewrite Hx, Hy.
  destruct Hraw as [->|Hone]; [by rewrite orb_true_r|].
  rewrite bool_decide_eq_true_2 by done. by destruct doDeblending.
Qed.

(** C3. In the donut map [getDonutMap] returns, the list of a sensor holds
    at most one donut per star id; and, the star ids of the sensor being
    the keys of a dictionary, every donut of the list is the donut of a
    star of the sensor and holds the intra-focal and the extra-focal
    cutout of that star: the two passes meet in the donut that has the
    id of the star. *)
Theorem getDonutMap_one_donut_per_star neighborStarMap wfsImgMap aFilter
    doDeblending m sensorName l :
  getDonutMap neighborStarMap wfsImgMap aFilter doDeblending = Ok m →
  m !! sensorName = Some l →
  NoDup (starId <$> l) ∧
  ∀ neighborStar wfsImg,
    neighborStarMap !! sensorName = Some neighborStar →
    wfsImgMap !! sensorName = Some wfsImg →
    NoDup (SimobjID neighborStar).*1 →
    ∀ d, d ∈ l →
      ∃ ii, (SimobjID neighborStar).*1 !! ii = Some (starId d) ∧
        intraImg (donutImgs d)
          = cutoutImg neighborStar aFilter doDeblending sensorName
                      (intraImg wfsImg) ii ∧
        extraImg (donutImgs d)
          = cutoutImg neighborStar aFilter doDeblending sensorName
                      (extraImg wfsImg) ii.
Proof.
  intros Hmap Hl. split.
  - by eapply getDonutMap_distinctStars.
  - intros neighborStar wfsImg Hns Hwfs Hids d Hd.
    rewrite (getDonutMap_entry _ _ _ _ _ _ _ _ Hmap Hns Hwfs Hids) in Hl.
    assert (allDonuts neighborStar aFilter doDeblending sensorName wfsImg
                      (length (SimobjID neighborStar).*1) = l) as Hall.
    { unfold entryOf in Hl. destruct (allDonuts _ _ _ _ _ _); [done|].
      by injection Hl. }
    rewrite <- Hall in Hd.
    apply elem_of_allDonuts in Hd as (ii & id & _ & Hid & Hd).
    apply elem_of_newDonuts in Hd as (<- & Hintra & Hextra). eauto.
Qed.


End DonutMap.

(** ** The sensor name as a regular expression *)

(** [\d,\d] *)
Definition digit_comma_digit_re : Regex.re :=
  Regex.Seq (Regex.Chr Regex.digit)
    (Regex.Seq (Regex.Chr (Ascii.eqb ",")) (Regex.Chr Regex.digit)).

(** [R:(\d,\d) S:(\d,\d)(?:,([A,B]))?$] *)
Definition sensorName_re : Regex.re :=
  Regex.Seq (Regex.Lit "R:")
    (Regex.Seq (Regex.Group digit_comma_digit_re)
       (Regex.Seq (Regex.Lit " S:")
          (Regex.Seq (Regex.Group digit_comma_digit_re)
             (Regex.Seq
                (Regex.Opt
                   (Regex.Seq (Regex.Chr (Ascii.eqb ","))
                      (Regex.Group (Regex.Chr in_class_A_comma_B))))
                Regex.Dollar)))).

Lemma go_digit_comma_digit {R} s caps
    (k : string → list (option string) → option R) :
  Regex.go (Regex.Group digit_comma_digit_re) s caps k
  = match digit_comma_digit s with
    | Some (group, rest) => k rest (caps ++ [Some group])
    | None => None
    end.
Proof.
  unfold digit_comma_digit, digit_comma_digit_re, Regex.digit.
  cbn [Regex.go].
  destruct s as [|a [|c [|b rest]]]; try done.
  - by destruct (PyStr.isdigit a).
  - destruct (PyStr.isdigit a); [|done]. rewrite Ascii.eqb_sym.
    by destruct (Ascii.eqb c ",").
  - destruct (PyStr.isdigit a); [|done]. rewrite Ascii.eqb_sym.
    destruct (Ascii.eqb c ","); [|done].
    destruct (PyStr.isdigit b); [|done]. cbn [andb].
    rewrite !Regex.consumed_cons, Regex.consumed_nil; [done|cbn; lia..].
Qed.

Lemma go_channel_tail s caps :
  Regex.go
    (Regex.Seq
       (Regex.Opt (Regex.Seq (Regex.Chr (Ascii.eqb ","))
                     (Regex.Group (Regex.Chr in_class_A_comma_B))))
       Regex.Dollar)
    s caps (λ _ caps', Some caps')
  = (λ channel, caps ++ [channel]) <$> channel_tail s.
Proof.
  unfold channel_tail, at_dollar. cbn [Regex.go Regex.ngroups replicate].
  destruct s as [|c [|ch rest]].
  - done.
  - destruct (Ascii.eqb "," c); by destruct (_ || _).
  - rewrite (Ascii.eqb_sym "," c). destruct (Ascii.eqb c ","); cbn [andb].
    2: by destruct (_ || _).
    destruct (in_class_A_comma_B ch); cbn [andb]. 2: by destruct (_ || _).
    rewrite Regex.consumed_cons, Regex.consumed_nil by done.
    destruct (String.eqb rest "" || String.eqb rest PyStr.nl); [done|].
    by destruct (_ || _).
Qed.

Lemma go_Lit {R} p s caps (k : string → list (option string) → option R) :
  Regex.go (Regex.Lit p) s caps k
  = match lit p s with
    | Some rest => k rest caps
    | None => None
    end.
Proof.
  revert s caps k. induction p as [|a p IH]; intros s caps k.
  - cbn [Regex.Lit Regex.go lit]. by destruct s.
  - destruct p as [|b p].
    + cbn [Regex.Lit Regex.go lit]. destruct s as [|c s]; [done|].
      by destruct (Ascii.eqb a c).
    + change (Regex.Lit (String a (String b p)))
        with (Regex.Seq (Regex.Chr (Ascii.eqb a)) (Regex.Lit (String b p))).
      cbn [Regex.go]. destruct s as [|c s]; [done|].
      cbn [lit]. destruct (Ascii.eqb a c); [apply IH|done].
Qed.

(** The hand-written matcher of the sensor names finds the groups the
    regular expression of [__getSensorInfo] gives, on every name. *)
Theorem match_sensorName_is_regex sensorName :
  (λ '(raft, sensor, channel), [Some raft; Some sensor; channel])
    <$> match_sensorName sensorName
  = snd <$> Regex.rmatch sensorName_re sensorName.
Proof.
  unfold Regex.rmatch.
  rewrite <- (Regex.go_fmap snd sensorName_re sensorName []
             (λ s' caps, Some (Regex.consumed sensorName s', caps))).
  cbn [fmap option_fmap option_map snd].
  unfold sensorName_re, match_sensorName.
  rewrite Regex.go_Seq, go_Lit.
  destruct (lit "R:" sensorName) as [rest1|]; [|done].
  cbn [mbind option_bind].
  rewrite Regex.go_Seq, go_digit_comma_digit.
  destruct (digit_comma_digit rest1) as [[raft rest2]|]; [|done].
  cbn [mbind option_bind].
  rewrite Regex.go_Seq, go_Lit.
  destruct (lit " S:" rest2) as [rest3|]; [|done].
  cbn [mbind option_bind].
  rewrite Regex.go_Seq, go_digit_comma_digit.
  destruct (digit_comma_digit rest3) as [[sensor rest4]|]; [|done].
  cbn [mbind option_bind app].
  rewrite go_channel_tail. by destruct (channel_tail rest4).
Qed.

(** ** Worked inputs *)

(** One bright star without a neighbor. *)
Definition sample_star : NeighboringStar := {|
  SimobjID := [(123%Z, [])];
  RaDecl := {[123%Z := (0.1%Q, 2.1%Q)]};
  LSSTMagU := {[123%Z := 2%Q]};
  LSSTMagG := {[123%Z := 2%Q]};
  LSSTMagR := {[123%Z := 2%Q]};
  LSSTMagI := {[123%Z := 2%Q]};
  LSSTMagZ := {[123%Z := 2%Q]};
  LSSTMagY := {[123%Z := 2%Q]}
|}.

Definition corner_sensor : string := "R:0,0 S:2,2,A".

Definition sample_abbrev (sensorName : string) : string := "R00_S22_C0".

(** A source processor whose cutouts hold [stars] stars at (80, 80), the
    cutout starting at (1000, 2000); images are named by strings. *)
Definition sample_cutout (stars : nat) (sensor ccdImg : string)
    (neighborStar : NeighboringStar) (ii : nat) (aFilter : string)
    : res (string * list Z * list Z * list Z * Z * Z) :=
  Ok ("cutout of " +:+ ccdImg, replicate stars 80%Z, replicate stars 80%Z,
      replicate stars 1%Z, 1000%Z, 2000%Z).

Definition sample_deblending (img : string) (posX posY magRatio : list Z)
    : res (option (string * Z * Z)) :=
  Ok (Some ("deblended " +:+ img, 81%Z, 79%Z)).

Definition sample_neighborStarMap : gmap string NeighboringStar :=
  {[corner_sensor := sample_star]}.

Definition sample_both : gmap string (DefocalImage string) :=
  {[corner_sensor := mkDefocalImage (Some "intra") (Some "extra")]}.


Definition sample_donut (imgs : DefocalImage string) : DonutImage string Z :=
  mkDonutImage 123%Z 1080%Z 2080%Z imgs.

(** A directory with the file of the corner sensor. *)
Definition sample_join (parts : list string) : string := String.concat "/" parts.
Definition sample_listdir (dir : string) : res (list string) :=
  Ok ["README"; "Image_R00_S22_C0_E000.fits"].
Definition sample_isfile (path : string) : bool := true.
Definition sample_butler (visit snap : Z) (raft sensor : option string)
    : res string := Raise KeyError.
Definition sample_getdata (path : string) : res string :=
  Ok ("pixels of " +:+ path).

(** A stand-in for [re.match]: the file name matches when it holds the
    text between the two [\S*] of the pattern. *)
Fixpoint contains (needle s : string) : bool :=
  String.prefix needle s
  || match s with
     | String _ s' => contains needle s'
     | EmptyString => false
     end.
Definition sample_match (pattern fileName : string) : option string :=
  let needle := substring 3 (String.length pattern - 6) pattern in
  if contains needle fileName then Some fileName else None.

(** The image map of that directory. *)
Definition sample_wfsImgMap : gmap string (DefocalImage string) :=
  {[corner_sensor :=
      mkDefocalImage
        (Some "pixels of raw/realWfs/Image_R00_S22_C0_E000.fits") None]}.

(** A source selector that logs its calls; the star lists are lists of
    right ascensions.  The detector "R:2,2 S:1,0" has no star. *)
Definition logged {A} (event : string) (a : A) : M (list string) A :=
  λ log, (Ok a, log ++ [event]).

Definition sample_starMaps : @starMaps (list Q) unit :=
  ({["R:2,2 S:1,1" := sample_star; "R:2,2 S:1,0" := sample_star]},
   {["R:2,2 S:1,1" := [0.1%Q]; "R:2,2 S:1,0" := []]},
   {["R:2,2 S:1,1" := tt; "R:2,2 S:1,0" := tt]}).

Definition sample_getTargetStarByFile (dbType : string)
    : M (list string) (@starMaps (list Q) unit) :=
  getTargetStarByFile (λ ra : list Q, ra)
    (λ _, dbType) (λ _, "LocalDb")
    (logged "getFilter" "g") (λ _, logged "connect" tt)
    (λ _ _, logged "createTable" tt) (λ _ _ _ _, logged "insertDataByFile" tt)
    (λ (_ : Q * Q) (_ : Q) (_ : option string) _,
       logged "getTargetStar" sample_starMaps)
    (λ _, logged "deleteTable" tt) (logged "disconnect" tt)
    "bsc.db3" "skyComCamInfo.txt" (0%Q, 0%Q) 0%Q (Some "all") "TempTable".

(** C1, the claim at a crowded cutout.  With deblending enabled and three
    stars in the cutout, no image comes out of the decision, where the
    claim has the raw cutout passed through; the star has no donut in the
    map [getDonutMap] returns. *)
Lemma crowded_cutout_not_passed_through :
  (2 < length (replicate 3 1%Z))%nat ∧
  deblendedImage sample_deblending true "cutout of intra"
                 (replicate 3 80%Z) (replicate 3 80%Z) (replicate 3 1%Z)
    ≠ Ok (Some ("cutout of intra", 80%Z, 80%Z)) ∧
  getDonutMap Z.add sample_abbrev (sample_cutout 3) sample_deblending
              sample_neighborStarMap sample_both "g" true
    = Ok ∅.
Proof. split_and!; [simpl; lia|by vm_compute|by vm_compute]. Qed.

(** Deblending disabled, one star in the cutout. *)
Lemma donutPass_raw_cutout_witness :
  deblendedImage sample_deblending false "cutout of intra" [80%Z] [80%Z] [1%Z]
    = Ok (Some ("cutout of intra", 80%Z, 80%Z)) ∧
  donutPass Z.add sample_abbrev (sample_cutout 1) sample_deblending
            sample_star "g" false corner_sensor [123%Z]
            [Some "intra"; None] 0 ∅ 0
    = putDonut Z.add ∅ corner_sensor [123%Z] 0 0 "cutout of intra"
               80%Z 80%Z 1000%Z 2000%Z.
Proof.
  apply (donutPass_raw_cutout Z.add sample_abbrev (sample_cutout 1)
           sample_deblending sample_star "g" false corner_sensor [123%Z]
           [Some "intra"; None] 0%nat ∅ 0%nat "intra" "cutout of intra"
           [80%Z] [80%Z] [1%Z] 1000%Z 2000%Z 80%Z 80%Z).
  - reflexivity.
  - reflexivity.
  - reflexivity.
  - reflexivity.
  - by left.
Defined.

(** One star with both defocal images: one donut, with both cutouts. *)
Lemma getDonutMap_one_donut_per_star_witness :
  NoDup (starId <$> [sample_donut
                       (mkDefocalImage (Some "cutout of intra")
                                       (Some "cutout of extra"))]) ∧
  ∃ ii, (SimobjID sample_star).*1 !! ii = Some 123%Z ∧
    Some "cutout of intra"
      = cutoutImg Z.add sample_abbrev (sample_cutout 1) sample_deblending
                  sample_star "g" false corner_sensor (Some "intra") ii ∧
    Some "cutout of extra"
      = cutoutImg Z.add sample_abbrev (sample_cutout 1) sample_deblending
                  sample_star "g" false corner_sensor (Some "extra") ii.
Proof.
  destruct (getDonutMap_one_donut_per_star Z.add sample_abbrev
              (sample_cutout 1) sample_deblending sample_neighborStarMap
              sample_both "g" false
              {[corner_sensor :=
                  [sample_donut (mkDefocalImage (Some "cutout of intra")
                                                (Some "cutout of extra"))]]}
              corner_sensor
              [sample_donut (mkDefocalImage (Some "cutout of intra")
                                            (Some "cutout of extra"))])
    as [Hdistinct Hmerged].
  - vm_compute. reflexivity.
  - vm_compute. reflexivity.
  - split; [exact Hdistinct|].
    refine (Hmerged sample_star
              (mkDefocalImage (Some "intra") (Some "extra")) _ _ _
              (sample_donut (mkDefocalImage (Some "cutout of intra")
                                            (Some "cutout of extra"))) _).
    + vm_compute. reflexivity.
    + vm_compute. reflexivity.
    + simpl. apply NoDup_singleton.
    + apply list_elem_of_singleton. reflexivity.
Defined.



(** The corner sensor of channel "A" and its file. *)
Lemma getPostISRDefocalImgMap_channel_witness :
  ∃ wfsImg,
    sample_getdata (sample_join ["raw"; "realWfs"; "Image_R00_S22_C0_E000.fits"])
      = Ok wfsImg ∧
    sample_wfsImgMap !! corner_sensor
      = Some (mkDefocalImage (Some wfsImg) None).
Proof.
  destruct (getPostISRDefocalImgMap_channel "raw" sample_join sample_listdir
              sample_isfile sample_butler sample_getdata sample_match
              sample_abbrev [corner_sensor] None "realWfs" 0%Z
              sample_wfsImgMap
              corner_sensor ["README"; "Image_R00_S22_C0_E000.fits"]
              "Image_R00_S22_C0_E000.fits" "0" "0" "2" "2")
    as (wfsImg & Hdata & Hintra & _).
  - vm_compute. reflexivity.
  - apply list_elem_of_singleton. reflexivity.
  - vm_compute. reflexivity.
  - vm_compute. reflexivity.
  - reflexivity.
  - reflexivity.
  - reflexivity.
  - reflexivity.
  - exists wfsImg. split; [exact Hdata|]. apply Hintra. reflexivity.
Defined.

(** A selector of another database type: nothing is logged. *)
Lemma getTargetStarByFile_TypeError_witness :
  sample_getTargetStarByFile "RemoteDb" []
  = (Raise (TypeError "The database type is not LocalDatabaseDecorator."), []).
Proof.
  apply (getTargetStarByFile_TypeError (λ ra : list Q, ra)).
  discriminate.
Defined.


(** The calls of a run with the local database, and of a run without. *)
Example getTargetStarByFile_log :
  (sample_getTargetStarByFile "LocalDb" []).2
  = ["getFilter"; "connect"; "createTable"; "insertDataByFile";
     "getTargetStar"; "deleteTable"; "disconnect"] ∧
  (sample_getTargetStarByFile "RemoteDb" []).2 = [].
Proof. split; vm_compute; reflexivity. Qed.

(** ** importPhoSimDataToButler *)

Section ImportPhoSim.

(** The file system is read as in [getPostISRDefocalImgMap]; the data
    collector is an external collaborator acting on a world [W]:
    [dataCollector.importPhoSimDataToButler(dataDir, obsId=...,
    aFilter=..., atype=..., overwrite=...)]. *)
Context {W Atype : Type}.
Context (pathOfRawData : string).
Context (os_path_join : list string → string).
Context (os_listdir : string → res (list string)).
Context (os_path_isfile : string → bool).
Context (dataCollector_importPhoSimDataToButler :
  string → Z → string → Atype → bool → M W unit).

(** The expression of the file names: any number of non-blanks, an
    underscore, the group of the visit digits (any number of them),
    ["_f"], the group of the filter digit, an underscore and any number
    of non-blanks. *)
Definition visit_filter_re : Regex.re :=
  Regex.Seq (Regex.Lit "_")
    (Regex.Seq (Regex.Group (Regex.Star Regex.digit))
       (Regex.Seq (Regex.Lit "_f")
          (Regex.Seq (Regex.Group (Regex.Chr Regex.digit))
             (Regex.Seq (Regex.Lit "_") (Regex.Star Regex.nonspace))))).

Definition phosim_re : Regex.re :=
  Regex.Seq (Regex.Star Regex.nonspace) visit_filter_re.

Definition phosimFilterID : gmap string string :=
  {["0" := "u"; "1" := "g"; "2" := "r"; "3" := "i"; "4" := "z"; "5" := "y"]}.

(** [m.groups()] of a file name that matches. *)
Definition groupsOfFileName (fileName : string) : option (string * string) :=
  match Regex.rmatch phosim_re fileName with
  | Some (_, groups) => Some (Regex.group groups 0, Regex.group groups 1)
  | None => None
  end.

Definition importPhoSimDataToButler (dataDir : string) (atype : Atype)
    (overwrite : bool) : M W unit :=
  fileList ← lift (getRawFileList pathOfRawData os_path_join os_listdir
                                  os_path_isfile dataDir);
  let obsIdList := omap groupsOfFileName fileList in
  let obsIdList := remove_dups obsIdList in
  if bool_decide (1 < length obsIdList)%nat then
    raise (RuntimeError
             "There are more than one unique ObdId and filter in directory.")
  else
    data ← lift (list_getitem obsIdList 0);
    obsId ← lift (PyInt.int_of_digits data.1);
    aFilter ← lift (getitem phosimFilterID data.2);
    dataCollector_importPhoSimDataToButler dataDir obsId aFilter atype overwrite.

End ImportPhoSim.

Example groupsOfFileName_examples :
  groupsOfFileName "lsst_e_9006001_f1_R22_S11_E000.fits.gz" = Some ("9006001", "1") ∧
  groupsOfFileName "a_1_f1_b_22_f3_c" = Some ("22", "3") ∧
  groupsOfFileName "lsst_e__f1_x" = Some ("", "1") ∧
  groupsOfFileName "a_12_f1" = None ∧
  groupsOfFileName "a b_12_f1_c" = None.
Proof. vm_compute. done. Qed.

(** *** Properties of importPhoSimDataToButler *)

(** The text after the leading digits. *)
Fixpoint skip_digits (s : string) : string :=
  match s with
  | String c s' => if PyStr.isdigit c then skip_digits s' else s
  | EmptyString => s
  end.

Definition starts_underscore_f (s : string) : bool :=
  match s with
  | String a (String b _) => Ascii.eqb "_" a && Ascii.eqb "f" b
  | _ => false
  end.

(** The text begins with an underscore, digits (any number of them) and
    ["_f"]. *)
Definition marker_at (s : string) : bool :=
  match s with
  | String c s' => Ascii.eqb "_" c && starts_underscore_f (skip_digits s')
  | EmptyString => false
  end.

(** Such a marker begins somewhere in the text. *)
Fixpoint has_marker (s : string) : bool :=
  match s with
  | String c s' => marker_at s || has_marker s'
  | EmptyString => false
  end.

(** A file name of the PhoSim form: non-blanks, an underscore, the
    visit digits, ["_f"], the filter digit, an underscore and non-blanks
    without a further marker. *)
Definition phosim_name (pre visit : string) (d : ascii) (suf : string)
    : string :=
  pre +:+ String "_" (visit +:+ String "_" (String "f" (String d (String "_" suf)))).

Definition phosim_form (visit : string) (d : ascii) (fileName : string)
    : Prop :=
  ∃ pre suf,
    fileName = phosim_name pre visit d suf ∧
    Regex.all_in Regex.nonspace pre = true ∧
    Regex.all_in Regex.digit visit = true ∧
    PyStr.isdigit d = true ∧
    Regex.all_in Regex.nonspace suf = true ∧
    has_marker (String "_" suf) = false.

Lemma star_skip_digits {R} s (k : string → option R) :
  (∀ c t, PyStr.isdigit c = true → k (String c t) = None) →
  Regex.star Regex.digit s k = k (skip_digits s).
Proof.
  intros Hk. induction s as [|c s IH]; [done|].
  cbn [Regex.star skip_digits]. unfold Regex.digit at 1.
  destruct (PyStr.isdigit c) eqn:Hc; [|done].
  rewrite IH. destruct (k (skip_digits s)) eqn:Hskip; [done|].
  by apply Hk.
Qed.

Lemma star_constant {R} p s (x : R) : Regex.star p s (λ _, Some x) = Some x.
Proof.
  induction s as [|c s IH]; [done|]. cbn [Regex.star]. rewrite IH.
  by destruct (p c).
Qed.

Lemma visit_filter_needs_marker {R} s caps
    (k : string → list (option string) → option R) :
  marker_at s = false → Regex.go visit_filter_re s caps k = None.
Proof.
  intros Hs. unfold visit_filter_re. rewrite Regex.go_Seq.
  cbn [Regex.Lit Regex.go]. destruct s as [|c s]; [done|].
  cbn [marker_at] in Hs. destruct (Ascii.eqb "_" c); [|done].
  cbn [andb] in Hs. rewrite star_skip_digits.
  - destruct (skip_digits s) as [|a [|b t]]; [done| |].
    + by destruct (Ascii.eqb "_" a).
    + cbn [starts_underscore_f] in Hs.
      destruct (Ascii.eqb "_" a); [|done]. cbn [andb] in Hs. by rewrite Hs.
  - intros a t Ha. by rewrite (Regex.digit_not_underscore a Ha).
Qed.

Lemma nowhere_no_marker {R} s caps
    (k : string → list (option string) → option R) :
  has_marker s = false →
  Regex.nowhere (λ s', Regex.go visit_filter_re s' caps k) s.
Proof.
  induction s as [|c s IH]; intros Hs; cbn [Regex.nowhere].
  - split; [|done]. by apply visit_filter_needs_marker.
  - cbn [has_marker] in Hs. apply orb_false_iff in Hs as [Hhere Hlater].
    split; [by apply visit_filter_needs_marker|by apply IH].
Qed.

Lemma has_marker_digits visit s :
  Regex.all_in Regex.digit visit = true →
  has_marker (visit +:+ s) = has_marker s.
Proof.
  intros Hvisit. induction visit as [|v visit IH]; [done|].
  cbn [Regex.all_in] in Hvisit. apply andb_true_iff in Hvisit as [Hv Hvisit].
  unfold String.append; fold String.append. cbn [has_marker marker_at].
  by rewrite (Regex.digit_not_underscore v Hv), IH.
Qed.

Lemma go_visit_filter visit d suf caps :
  Regex.all_in Regex.digit visit = true → PyStr.isdigit d = true →
  Regex.go visit_filter_re
    (String "_" (visit +:+ String "_" (String "f" (String d (String "_" suf)))))
    caps (λ _ caps', Some caps')
  = Some (caps ++ [Some visit] ++ [Some (String d "")]).
Proof.
  intros Hvisit Hd. unfold visit_filter_re. rewrite Regex.go_Seq.
  cbn [Regex.Lit Regex.go Ascii.eqb Bool.eqb].
  apply (Regex.star_run _ visit); [done|].
  rewrite Regex.star_stop by done.
  rewrite Regex.consumed_app.
  cbn [Regex.Lit Regex.go Ascii.eqb Bool.eqb]. unfold Regex.digit at 1.
  rewrite Hd. cbn [Regex.go Ascii.eqb Bool.eqb].
  rewrite Regex.consumed_one, star_constant. by rewrite <- app_assoc.
Qed.

Lemma go_phosim_name pre visit d suf :
  Regex.all_in Regex.nonspace pre = true →
  Regex.all_in Regex.digit visit = true →
  PyStr.isdigit d = true →
  has_marker (String "_" suf) = false →
  Regex.go phosim_re (phosim_name pre visit d suf) [] (λ _ caps', Some caps')
  = Some [Some visit; Some (String d "")].
Proof.
  intros Hpre Hvisit Hd Hsuf. unfold phosim_re, phosim_name.
  rewrite Regex.go_Seq. cbn [Regex.go]. apply Regex.star_run; [done|].
  pose proof (go_visit_filter visit d suf [] Hvisit Hd) as Hhere.
  cbn [app] in Hhere.
  change (Regex.star Regex.nonspace (String "_" ?s) ?k)
    with (match Regex.star Regex.nonspace s k with
          | Some x => Some x
          | None => k (String "_" s)
          end).
  cbv beta. rewrite Hhere.
  rewrite Regex.star_None; [done|].
  apply nowhere_no_marker. rewrite has_marker_digits by done.
  cbn [has_marker marker_at] in Hsuf |- *.
  rewrite Hsuf, (Regex.digit_not_underscore d Hd).
  cbn [skip_digits]. change (PyStr.isdigit "f") with false.
  cbn [starts_underscore_f]. change (Ascii.eqb "_" "f") with false.
  reflexivity.
Qed.

(** The groups of a file name of the PhoSim form are its visit digits
    and its filter digit. *)
Lemma groupsOfFileName_phosim_form visit d fileName :
  phosim_form visit d fileName →
  groupsOfFileName fileName = Some (visit, String d "").
Proof.
  intros (pre & suf & -> & Hpre & Hvisit & Hd & _ & Hsuf).
  pose proof (go_phosim_name pre visit d suf Hpre Hvisit Hd Hsuf) as Hgo.
  unfold groupsOfFileName, Regex.rmatch.
  set (name := phosim_name pre visit d suf) in *.
  assert (snd <$> Regex.go phosim_re name []
                    (λ s' caps, Some (Regex.consumed name s', caps))
          = Some [Some visit; Some (String d "")]) as Hgroups.
  { rewrite <- Regex.go_fmap. exact Hgo. }
  clear Hgo.
  destruct (Regex.go phosim_re name [] _) as [[matched groups]|]; [|done].
  cbn in Hgroups. by injection Hgroups as ->.
Qed.

(** A file name without a marker does not match. *)
Lemma groupsOfFileName_no_marker fileName :
  has_marker fileName = false → groupsOfFileName fileName = None.
Proof.
  intros Hname. unfold groupsOfFileName, Regex.rmatch, phosim_re.
  rewrite Regex.go_Seq. cbn [Regex.go].
  rewrite Regex.star_None; [done|].
  exact (nowhere_no_marker fileName [] _ Hname).
Qed.

Lemma remove_dups_all_equal {A} `{EqDecision A} (x : A) l :
  l ≠ [] → Forall (λ y, y = x) l → remove_dups l = [x].
Proof.
  induction l as [|y l IH]; [done|]. intros _ HF.
  apply Forall_cons in HF as [-> HF]. cbn [remove_dups].
  destruct l as [|z l].
  - case_decide as Hin; [by apply elem_of_nil in Hin|done].
  - case_decide as Hin; [by apply IH|].
    destruct Hin. apply Forall_cons in HF as [-> _]. by left.
Qed.

Lemma length_two_elements {A} (x y : A) l :
  x ∈ l → y ∈ l → x ≠ y → (1 < length l)%nat.
Proof.
  intros Hx Hy Hne. destruct l as [|a [|b l]]; [|exfalso|cbn; lia].
  - by apply elem_of_nil in Hx.
  - apply list_elem_of_singleton in Hx, Hy. congruence.
Qed.

Section ImportPhoSimFacts.

Context {W Atype : Type}.
Context (pathOfRawData : string).
Context (os_path_join : list string → string).
Context (os_listdir : string → res (list string)).
Context (os_path_isfile : string → bool).
Context (dataCollector_importPhoSimDataToButler :
  string → Z → string → Atype → bool → M W unit).

(** The call on the directory [dataDir]. *)
Definition importOf (dataDir : string) (atype : Atype) (overwrite : bool)
    : M W unit :=
  importPhoSimDataToButler pathOfRawData os_path_join os_listdir
    os_path_isfile dataCollector_importPhoSimDataToButler
    dataDir atype overwrite.

(** The files of the directory [dataDir]. *)
Definition filesOf (dataDir : string) : res (list string) :=
  getRawFileList pathOfRawData os_path_join os_listdir os_path_isfile dataDir.

(** When the files of the directory that hold a marker are all of the
    PhoSim form with one visit and one filter digit, and there is such a
    file, [importPhoSimDataToButler] converts the visit digits and the
    filter digit and calls the data collector with them: the name of the
    directory, the visit as a number, and the filter of the digit.  No
    visit digit is a [ValueError], a filter digit from 6 to 9 a
    [KeyError]; the files without marker are ignored. *)
Theorem importPhoSimDataToButler_one_visit dataDir atype overwrite fileList
    fileName visit d w :
  filesOf dataDir = Ok fileList →
  fileName ∈ fileList → phosim_form visit d fileName →
  Forall (λ name, phosim_form visit d name ∨ has_marker name = false)
         fileList →
  importOf dataDir atype overwrite w
  = (obsId ← lift (PyInt.int_of_digits visit);
     aFilter ← lift (getitem phosimFilterID (String d ""));
     dataCollector_importPhoSimDataToButler dataDir obsId aFilter atype
                                            overwrite) w.
Proof.
  intros Hlist Hin Hform Hall. unfold filesOf in Hlist.
  unfold importOf, importPhoSimDataToButler. rewrite Hlist.
  unfold mbind at 1, M_bind at 1, lift at 1. cbv zeta.
  assert (remove_dups (omap groupsOfFileName fileList) = [(visit, String d "")])
    as ->.
  { apply remove_dups_all_equal.
    - intros Hnil. apply (elem_of_nil (visit, String d "")).
      rewrite <- Hnil. apply list_elem_of_omap. exists fileName.
      split; [done|]. by apply groupsOfFileName_phosim_form.
    - apply Forall_forall. intros y (name & Hname & Hy)%list_elem_of_omap.
      eapply Forall_forall in Hall as [Hf|Hno]; [| |exact Hname].
      + rewrite (groupsOfFileName_phosim_form _ _ _ Hf) in Hy. congruence.
      + rewrite (groupsOfFileName_no_marker _ Hno) in Hy. done. }
  reflexivity.
Qed.

(** Two files of the PhoSim form that differ in the visit digits or in
    the filter digit make [importPhoSimDataToButler] raise the
    [RuntimeError], whatever the other files are; the data collector is
    not called.  The visit digits are compared as texts. *)
Theorem importPhoSimDataToButler_two_visits dataDir atype overwrite fileList
    name1 visit1 d1 name2 visit2 d2 w :
  filesOf dataDir = Ok fileList →
  name1 ∈ fileList → phosim_form visit1 d1 name1 →
  name2 ∈ fileList → phosim_form visit2 d2 name2 →
  (visit1, d1) ≠ (visit2, d2) →
  importOf dataDir atype overwrite w
  = (Raise (RuntimeError
              "There are more than one unique ObdId and filter in directory."),
     w).
Proof.
  intros Hlist Hin1 Hform1 Hin2 Hform2 Hne. unfold filesOf in Hlist.
  unfold importOf, importPhoSimDataToButler. rewrite Hlist.
  unfold lift, mbind, M_bind. cbv zeta.
  rewrite bool_decide_eq_true_2; [done|].
  apply (length_two_elements (visit1, String d1 "") (visit2, String d2 "")).
  - apply elem_of_remove_dups, list_elem_of_omap. exists name1.
    split; [done|]. by apply groupsOfFileName_phosim_form.
  - apply elem_of_remove_dups, list_elem_of_omap. exists name2.
    split; [done|]. by apply groupsOfFileName_phosim_form.
  - intros [= -> ->]. done.
Qed.

(** When no file of the directory holds a marker (an underscore, digits
    and ["_f"]), as in an empty directory, nothing matches and
    [importPhoSimDataToButler] raises an [IndexError]; the data
    collector is not called. *)
Theorem importPhoSimDataToButler_no_match dataDir atype overwrite fileList w :
  filesOf dataDir = Ok fileList →
  Forall (λ name, has_marker name = false) fileList →
  importOf dataDir atype overwrite w = (Raise IndexError, w).
Proof.
  intros Hlist Hall. unfold filesOf in Hlist.
  unfold importOf, importPhoSimDataToButler. rewrite Hlist.
  unfold mbind at 1, M_bind at 1, lift at 1. cbv zeta.
  assert (omap groupsOfFileName fileList = []) as ->; [|done].
  clear Hlist. induction Hall as [|name l Hname _ IH]; [done|].
  change (omap groupsOfFileName (name :: l))
    with (match groupsOfFileName name with
          | Some y => y :: omap groupsOfFileName l
          | None => omap groupsOfFileName l
          end).
  by rewrite (groupsOfFileName_no_marker _ Hname).
Qed.

End ImportPhoSimFacts.

(** ** getWfsList *)



(** ** getPostISRDefocalImgMap by observation ids, and by files *)

Section PostISRFacts.

Context {Img : Type}.
Context (pathOfRawData : string).
Context (os_path_join : list string → string).
Context (os_listdir : string → res (list string)).
Context (os_path_isfile : string → bool).
Context (butler_get_image : Z → Z → option string → option string → res Img).
Context (fits_getdata : string → res Img).
Context (re_match_group : string → string → option string).
Context (abbrevDectectorName : string → string).

(** The call with the collaborators at hand. *)
Definition postISRImgMap (sensorNameList : list string)
    (obsIdList : option (list Z)) (wfsDir : option string) (snap : Z)
    : res (gmap string (DefocalImage Img)) :=
  getPostISRDefocalImgMap pathOfRawData os_path_join os_listdir
    os_path_isfile butler_get_image fits_getdata re_match_group
    abbrevDectectorName sensorNameList obsIdList wfsDir snap.

(** One iteration of the loop over the sensor names. *)
Definition postISRStep (obsIdList : option (list Z)) (wfsDir : option string)
    (wfsFileList : option (list string)) (snap : Z)
    : gmap string (DefocalImage Img) → string
      → res (gmap string (DefocalImage Img)) :=
  defocalImgOfSensor pathOfRawData os_path_join butler_get_image fits_getdata
    re_match_group abbrevDectectorName obsIdList wfsDir wfsFileList snap.

(** The file of a sensor in the file list. *)
Definition fileOf (files : list string) (sensorName : string) (snap : Z)
    : option string :=
  searchFileName re_match_group files (abbrevDectectorName sensorName) snap.

(** The two images the butler has for a sensor. *)
Definition butlerImages (ids : list Z) (snap : Z) (sensorName : string)
    (d : DefocalImage Img) : Prop :=
  ∃ intraObsId extraObsId intra extra,
    ids !! 0%nat = Some intraObsId ∧ ids !! 1%nat = Some extraObsId ∧
    butler_get_image intraObsId snap (getSensorInfo sensorName).1.1
                     (getSensorInfo sensorName).1.2 = Ok intra ∧
    butler_get_image extraObsId snap (getSensorInfo sensorName).1.1
                     (getSensorInfo sensorName).1.2 = Ok extra ∧
    d = mkDefocalImage (Some intra) (Some extra).

Lemma postISRStep_by_obsId ids wfsFileList snap m0 name m1 :
  postISRStep (Some ids) None wfsFileList snap m0 name = Ok m1 →
  ∃ d, butlerImages ids snap name d ∧ m1 = <[name := d]> m0.
Proof.
  unfold postISRStep, defocalImgOfSensor, butlerImages.
  destruct (getSensorInfo name) as [[raft sensor] channel]. cbn [fst snd].
  unfold imagesByObsId. cbn [seq for_each]. unfold list_getitem.
  destruct (ids !! 0%nat) as [v0|] eqn:H0; [|done]. cbn [mbind res_bind].
  destruct (butler_get_image v0 snap raft sensor) as [intra|] eqn:Hintra;
    [|done].
  cbn [mbind res_bind].
  destruct (ids !! 1%nat) as [v1|] eqn:H1; [|done]. cbn [mbind res_bind].
  destruct (butler_get_image v1 snap raft sensor) as [extra|] eqn:Hextra;
    [|done].
  cbn. intros [= <-].
  exists (mkDefocalImage (Some intra) (Some extra)). split; [|done].
  by exists v0, v1, intra, extra.
Qed.

(** With observation ids and no directory, the map has exactly the
    sensors of the list, each with the two images the butler has for the
    first and the second id (the intra-focal and the extra-focal one), a
    name that is not a sensor name being asked with raft and sensor
    [None]. *)
Theorem getPostISRDefocalImgMap_by_obsId names ids snap m :
  postISRImgMap names (Some ids) None snap = Ok m →
  ∀ name,
    (name ∉ names → m !! name = None) ∧
    (name ∈ names → ∃ d, butlerImages ids snap name d ∧ m !! name = Some d).
Proof.
  unfold postISRImgMap, getPostISRDefocalImgMap. cbn [mbind res_bind].
  fold (postISRStep (Some ids) None None snap).
  intros Hloop name.
  assert (∀ m0,
    for_each (postISRStep (Some ids) None None snap) names m0 = Ok m →
    (name ∉ names → m !! name = m0 !! name) ∧
    (name ∈ names → ∃ d, butlerImages ids snap name d ∧ m !! name = Some d))
    as Hinv.
  { clear Hloop. induction names as [|key names IH]; intros m0 Hloop.
    - injection Hloop as <-. split; [done|]. by intros []%elem_of_nil.
    - apply for_each_cons_Ok in Hloop as (m1 & Hstep & Hloop).
      destruct (IH _ Hloop) as [IHout IHin].
      apply postISRStep_by_obsId in Hstep as (d & Hd & ->). split.
      + intros [Hne Hout]%not_elem_of_cons.
        by rewrite IHout, lookup_insert_ne.
      + intros Hin. destruct (decide (name ∈ names)) as [Hlater|Hlast];
          [by apply IHin|].
        apply elem_of_cons in Hin as [->|Hin]; [|done].
        exists d. split; [done|]. by rewrite IHout, lookup_insert_eq. }
  destruct (Hinv ∅ Hloop) as [Hout Hin]. split; [|done].
  intros Hname. by rewrite Hout.
Qed.

Lemma postISRStep_by_files wfsDir files snap m0 name m1 :
  postISRStep None (Some wfsDir) (Some files) snap m0 name = Ok m1 →
  match fileOf files name snap with
  | Some _ => is_Some (m1 !! name)
  | None => m1 = m0
  end.
Proof.
  unfold postISRStep, defocalImgOfSensor, fileOf.
  destruct (getSensorInfo name) as [[raft sensor] channel].
  cbn [mbind res_bind].
  destruct (searchFileName _ _ _ _) as [matched|]; [|by intros [= <-]].
  destruct (fits_getdata _) as [wfsImg|]; [|done]. cbn [mbind res_bind].
  unfold getitem. rewrite lookup_insert_eq. cbn [mbind res_bind].
  repeat case_bool_decide; intros [= <-]; by rewrite lookup_insert_eq.
Qed.

Lemma postISRImgMap_keys_by_files names wfsDir snap m files :
  postISRImgMap names None (Some wfsDir) snap = Ok m →
  getRawFileList pathOfRawData os_path_join os_listdir os_path_isfile wfsDir
    = Ok files →
  ∀ name, is_Some (m !! name) ↔
          name ∈ names ∧ is_Some (fileOf files name snap).
Proof.
  unfold postISRImgMap, getPostISRDefocalImgMap. intros Hloop Hfiles.
  rewrite Hfiles in Hloop. cbn [fmap res_fmap mbind res_bind] in Hloop.
  fold (postISRStep None (Some wfsDir) (Some files) snap) in Hloop.
  intros name.
  assert (∀ m0,
    for_each (postISRStep None (Some wfsDir) (Some files) snap) names m0 = Ok m →
    is_Some (m !! name) ↔
    is_Some (m0 !! name) ∨ name ∈ names ∧ is_Some (fileOf files name snap))
    as Hinv.
  { clear Hloop. induction names as [|key names IH]; intros m0 Hloop.
    - injection Hloop as <-. split; [by left|].
      intros [?|[[]%elem_of_nil _]]. done.
    - apply for_each_cons_Ok in Hloop as (m1 & Hstep & Hloop).
      rewrite (IH _ Hloop). clear IH Hloop.
      pose proof (postISRStep_by_files _ _ _ _ _ _ Hstep) as Hkey.
      destruct (decide (key = name)) as [->|Hne].
      + destruct (fileOf files name snap) as [matched|] eqn:Hfile.
        * split; [intros _; right; split; [by left|done]|by left].
        * subst m1. split.
          -- intros [?|[? ?]]; [by left|]. right. split; [by right|done].
          -- intros [?|[_ [? [=]]]]. by left.
      + rewrite (defocalImgOfSensor_other _ _ _ _ _ _ _ _ _ _ _ _ _ _ Hstep Hne).
        split.
        * intros [?|[? ?]]; [by left|]. right. split; [by right|done].
        * intros [?|[[?|?]%elem_of_cons ?]]; [by left|congruence|].
          right. done. }
  rewrite (Hinv ∅ Hloop). split; [|by right].
  intros [[? Hempty]|?]; [|done]. by rewrite lookup_empty in Hempty.
Qed.

(** With a directory and no observation ids, the map has exactly the
    sensors of the list whose file is found in the directory: a sensor
    without a file has no entry. *)
Theorem getPostISRDefocalImgMap_by_files names wfsDir snap m files :
  postISRImgMap names None (Some wfsDir) snap = Ok m →
  getRawFileList pathOfRawData os_path_join os_listdir os_path_isfile wfsDir
    = Ok files →
  ∀ name, is_Some (m !! name) ↔
          name ∈ names ∧ is_Some (fileOf files name snap).
Proof. apply postISRImgMap_keys_by_files. Qed.


End PostISRFacts.

(** ** More on getDonutMap *)

(** A loop that raises has a body that raised; a loop that returns has
    run its body, which returned, on every element. *)
Lemma for_each_Raise {A S} (body : S → A → res S) l s e :
  for_each body l s = Raise e → ∃ a s0, a ∈ l ∧ body s0 a = Raise e.
Proof.
  revert s. induction l as [|a l IH]; intros s; [done|].
  cbn [for_each]. unfold mbind, res_bind.
  destruct (body s a) as [s'|e'] eqn:Hbody.
  - intros (b & s0 & Hb & Hraise)%IH. exists b, s0. split; [by right|done].
  - intros [= ->]. exists a, s. split; [by left|done].
Qed.

Lemma for_each_Ok_all {A S} (body : S → A → res S) l s r a :
  for_each body l s = Ok r → a ∈ l → ∃ s0 s1, body s0 a = Ok s1.
Proof.
  revert s. induction l as [|b l IH]; intros s Hloop Ha.
  - by apply elem_of_nil in Ha.
  - apply for_each_cons_Ok in Hloop as (s' & Hb & Hloop).
    apply elem_of_cons in Ha as [->|Ha]; [by exists s, s'|].
    by apply (IH s').
Qed.

Section DonutMapFacts.

Context {Img Num : Type}.
Context (add : Num → Num → Num).
Context (abbrevDectectorName : string → string).
Context (getSingleTargetImage :
  string → Img → NeighboringStar → nat → string →
  res (Img * list Num * list Num * list Num * Num * Num)).
Context (sourProc_doDeblending :
  Img → list Num → list Num → list Num → res (option (Img * Num * Num))).

(** The call with the source processor at hand. *)
Definition donutMapOf (neighborStarMap : gmap string NeighboringStar)
    (wfsImgMap : gmap string (DefocalImage Img)) (aFilter : string)
    (doDeblending : bool) : res (gmap string (list (DonutImage Img Num))) :=
  getDonutMap add abbrevDectectorName getSingleTargetImage
    sourProc_doDeblending neighborStarMap wfsImgMap aFilter doDeblending.

(** The cutout of a star with the source processor at hand. *)
Definition cutoutOf (neighborStar : NeighboringStar) (aFilter : string)
    (doDeblending : bool) (sensorName : string) (ccdImg : option Img)
    (ii : nat) : option (Img * Num * Num) :=
  cutout add abbrevDectectorName getSingleTargetImage sourProc_doDeblending
    neighborStar aFilter doDeblending sensorName ccdImg ii.

(** The source processor does not raise on the sensors that have their
    stars. *)
Definition processorNeverRaises (neighborStarMap : gmap string NeighboringStar)
    (wfsImgMap : gmap string (DefocalImage Img)) (aFilter : string)
    (doDeblending : bool) : Prop :=
  ∀ sensorName wfsImg neighborStar,
    wfsImgMap !! sensorName = Some wfsImg →
    neighborStarMap !! sensorName = Some neighborStar →
    processorReturns abbrevDectectorName getSingleTargetImage
      sourProc_doDeblending neighborStar aFilter doDeblending sensorName wfsImg.

(** [getDonutMap] looks up the stars of every sensor of the image map:
    it returns only when every sensor of the image map is a key of
    [neighborStarMap]; and, the source processor not raising, it raises
    a [KeyError] when a sensor of the image map is not. *)
Theorem getDonutMap_needs_stars_of_every_sensor neighborStarMap wfsImgMap
    aFilter doDeblending :
  match donutMapOf neighborStarMap wfsImgMap aFilter doDeblending with
  | Ok _ =>
      ∀ sensorName, is_Some (wfsImgMap !! sensorName) →
                    is_Some (neighborStarMap !! sensorName)
  | Raise e =>
      processorNeverRaises neighborStarMap wfsImgMap aFilter doDeblending →
      e = KeyError ∧
      ∃ sensorName, is_Some (wfsImgMap !! sensorName) ∧
                    neighborStarMap !! sensorName = None
  end.
Proof.
  unfold donutMapOf, getDonutMap.
  destruct (for_each _ _ ∅) as [m|e] eqn:Hloop.
  - intros sensorName [wfsImg Hwfs].
    destruct (for_each_Ok_all _ _ _ _ sensorName Hloop) as (m0 & m1 & Hbody).
    { apply list_elem_of_fmap. exists (sensorName, wfsImg). split; [done|].
      by apply elem_of_map_to_list. }
    unfold donutsOfSensor, getitem in Hbody.
    by destruct (neighborStarMap !! sensorName).
  - intros Hproc.
    apply for_each_Raise in Hloop as (sensorName & m0 & Hin & Hbody).
    apply list_elem_of_fmap in Hin as ([s wfsImg] & -> & Hin).
    apply elem_of_map_to_list in Hin. cbn [fst] in Hbody.
    destruct (neighborStarMap !! s) as [neighborStar|] eqn:Hns.
    + destruct (donutsOfSensor_returns add abbrevDectectorName
                  getSingleTargetImage sourProc_doDeblending
                  neighborStarMap wfsImgMap aFilter doDeblending m0 s
                  neighborStar wfsImg Hns Hin) as [m' Hm'];
        [by eapply Hproc|congruence].
    + unfold donutsOfSensor, getitem in Hbody. rewrite Hns in Hbody.
      injection Hbody as <-. split; [done|]. by exists s.
Qed.

(** A donut holds an image. *)
Definition hasImage (d : DonutImage Img Num) : Prop :=
  is_Some (intraImg (donutImgs d)) ∨ is_Some (extraImg (donutImgs d)).

(** Every list of the donut map has a donut, and every donut an
    image. *)
Definition imaged (m : gmap string (list (DonutImage Img Num))) : Prop :=
  ∀ sensorName l, m !! sensorName = Some l → l ≠ [] ∧ Forall hasImage l.

Lemma hasImage_setRole jj img d :
  (jj < 2)%nat → hasImage (setRole jj img d).
Proof.
  intros Hjj. unfold setRole, hasImage, DonutImage_setImg, DefocalImage_setImg.
  destruct jj as [|[|jj]]; [| |lia]; cbn; eauto.
Qed.

Lemma imaged_put m sensorName id jj img x y :
  (jj < 2)%nat → imaged m →
  imaged (<[sensorName := putList (donutsOf m sensorName) id jj img x y]> m).
Proof.
  intros Hjj Hm other l. destruct (decide (sensorName = other)) as [<-|Hne].
  - rewrite lookup_insert_eq. intros [= <-]. unfold putList, donutsOf.
    assert (Forall hasImage (default [] (m !! sensorName))) as Hl.
    { destruct (m !! sensorName) as [l0|] eqn:Hl0; [|constructor].
      by apply (Hm sensorName). }
    destruct (list_find _ _) as [[pos d]|] eqn:Hfind.
    + apply list_find_Some in Hfind as (Hpos & _ & _). split.
      * intros Hnil. apply (f_equal length) in Hnil.
        rewrite length_insert in Hnil. apply lookup_lt_Some in Hpos.
        cbn in Hnil. lia.
      * apply Forall_insert; [done|]. by apply hasImage_setRole.
    + split; [by intros [_ [=]]%app_eq_nil|].
      apply Forall_app. split; [done|]. constructor; [|done].
      by apply hasImage_setRole.
  - rewrite lookup_insert_ne by done. apply Hm.
Qed.

Lemma getDonutMap_imaged neighborStarMap wfsImgMap aFilter doDeblending m :
  donutMapOf neighborStarMap wfsImgMap aFilter doDeblending = Ok m → imaged m.
Proof.
  unfold donutMapOf, getDonutMap. intros Hloop.
  eapply (for_each_invariant imaged); [| |exact Hloop].
  2: { intros s l Hl. by rewrite lookup_empty in Hl. }
  intros m1 s m2 _ Hm1. unfold donutsOfSensor, getitem.
  destruct (neighborStarMap !! s) as [ns|]; [|done].
  destruct (wfsImgMap !! s) as [di|]; [|done].
  cbn [mbind res_bind]. intros Hstars.
  eapply (for_each_invariant imaged); [|exact Hm1|exact Hstars].
  intros m3 ii m4 _ Hm3 Hstar.
  eapply (for_each_invariant imaged); [|exact Hm3|exact Hstar].
  intros m5 jj m6 Hjj%elem_of_seq Hm5 Hpass.
  destruct ([intraImg di; extraImg di] !! jj) as [ccdImg|] eqn:Himg.
  - pose proof (donutPass_Ok _ _ _ _ _ _ _ _ _ _ _ _ _ _ _ Hpass Himg) as Hm6.
    destruct (cutout _ _ _ _ _ _ _ _ _ _) as [[[img x] y]|]; [|by subst].
    destruct Hm6 as (id & _ & ->). apply imaged_put; [lia|done].
  - unfold donutPass, list_getitem in Hpass. by rewrite Himg in Hpass.
Qed.

(** The donut map has no entry without donut and no donut without
    image: a list of the map belongs to a sensor of the image map; it is
    not empty; and each of its donuts holds the intra-focal or the
    extra-focal image. *)
Theorem getDonutMap_donuts_hold_an_image neighborStarMap wfsImgMap aFilter
    doDeblending m sensorName l :
  donutMapOf neighborStarMap wfsImgMap aFilter doDeblending = Ok m →
  m !! sensorName = Some l →
  is_Some (wfsImgMap !! sensorName) ∧ l ≠ [] ∧
  ∀ d, d ∈ l →
    is_Some (intraImg (donutImgs d)) ∨ is_Some (extraImg (donutImgs d)).
Proof.
  intros Hmap Hl.
  destruct (getDonutMap_imaged _ _ _ _ _ Hmap sensorName l Hl) as [Hne Himg].
  split_and!; [|done|by apply Forall_forall].
  unfold donutMapOf, getDonutMap in Hmap.
  apply (for_each_donutsOfSensor _ _ _ _ _ _ _ _ _ _ _ sensorName) in Hmap
    as [Hout _]; [|apply NoDup_fst_map_to_list].
  destruct (wfsImgMap !! sensorName) as [wfsImg|] eqn:Hwfs; [done|].
  rewrite Hout, lookup_empty in Hl; [done|].
  intros ([s wfsImg] & -> & Hin%elem_of_map_to_list)%list_elem_of_fmap.
  cbn in Hwfs. congruence.
Qed.

(** The pixel position of a donut is that of the first cutout of its
    star: the intra-focal cutout when there is one, whatever the
    position of the extra-focal cutout, and the extra-focal cutout
    otherwise. *)
Theorem getDonutMap_donut_position neighborStarMap wfsImgMap aFilter
    doDeblending m sensorName l neighborStar wfsImg d :
  donutMapOf neighborStarMap wfsImgMap aFilter doDeblending = Ok m →
  m !! sensorName = Some l →
  neighborStarMap !! sensorName = Some neighborStar →
  wfsImgMap !! sensorName = Some wfsImg →
  NoDup (SimobjID neighborStar).*1 →
  d ∈ l →
  ∃ ii img x y,
    (SimobjID neighborStar).*1 !! ii = Some (starId d) ∧
    pixelX d = x ∧ pixelY d = y ∧
    (cutoutOf neighborStar aFilter doDeblending sensorName (intraImg wfsImg) ii
       = Some (img, x, y) ∨
     cutoutOf neighborStar aFilter doDeblending sensorName (intraImg wfsImg) ii
       = None ∧
     cutoutOf neighborStar aFilter doDeblending sensorName (extraImg wfsImg) ii
       = Some (img, x, y)).
Proof.
  intros Hmap Hl Hns Hwfs Hids Hd. unfold donutMapOf in Hmap.
  rewrite (getDonutMap_entry _ _ _ _ _ _ _ _ _ _ _ _ Hmap Hns Hwfs Hids) in Hl.
  assert (allDonuts add abbrevDectectorName getSingleTargetImage
            sourProc_doDeblending neighborStar aFilter doDeblending
            sensorName wfsImg (length (SimobjID neighborStar).*1) = l) as Hall.
  { unfold entryOf in Hl. destruct (allDonuts _ _ _ _ _ _ _ _ _ _); [done|].
    by injection Hl. }
  rewrite <- Hall in Hd.
  apply elem_of_allDonuts in Hd as (ii & id & _ & Hid & Hd).
  unfold newDonuts in Hd. unfold cutoutOf. exists ii.
  destruct (cutout _ _ _ _ _ _ _ _ (intraImg wfsImg) _) as [[[a x] y]|];
    destruct (cutout _ _ _ _ _ _ _ _ (extraImg wfsImg) _) as [[[b x'] y']|];
    try (by apply elem_of_nil in Hd);
    apply list_elem_of_singleton in Hd as ->; cbn.
  - exists a, x, y. split_and!; [done..|by left].
  - exists a, x, y. split_and!; [done..|by left].
  - exists b, x', y'. split_and!; [done..|by right].
Qed.

End DonutMapFacts.

(** ** plotDonutImg *)

Section PlotDonutImg.

(** matplotlib is an external collaborator acting on a world [W]:
    [plt.figure()], [addSubPlot(fig, img, starId)] (defined below
    [plotDonutImg], on [fig.axes] only), [fig.savefig(path, dpi=dpi)] and
    [plt.show()]. *)
Context {W Img Num Fig Dpi : Type}.
Context (abbrevDectectorName : string → string).
Context (plt_figure : M W Fig).
Context (addSubPlot : Fig → Img → Z → M W unit).
Context (os_path_join : string → string → string).
Context (fig_savefig : Fig → string → option Dpi → M W unit).
Context (plt_show : M W unit).

(** The [if]/[elif] chain that binds [img], a local name of the
    function: a donut without image leaves it as it is. *)
Definition boundImg (img : option Img) (donutImg : DonutImage Img Num)
    : option Img :=
  match intraImg (donutImgs donutImg) with
  | Some intra => Some intra
  | None =>
      match extraImg (donutImgs donutImg) with
      | Some extra => Some extra
      | None => img
      end
  end.

(** The loop over the donuts of one sensor; [img] is unbound ([None])
    until a donut binds it. *)
Definition plotDonutList (fig : Fig) (donutList : list (DonutImage Img Num))
    (img : option Img) : M W (option Img) :=
  foldM (λ img donutImg,
           let img := boundImg img donutImg in
           match img with
           | Some image =>
               _ ← addSubPlot fig image (starId donutImg); mret img
           | None => raise UnboundLocalError
           end)
        donutList img.

Definition plotDonutImg (donutMap : gmap string (list (DonutImage Img Num)))
    (saveToDir : option string) (dpi : option Dpi) : M W unit :=
  _ ← foldM (λ img '(sensorName, donutList),
               let imgTitle := abbrevDectectorName sensorName +:+ "_DonutImg" in
               fig ← plt_figure;
               img ← plotDonutList fig donutList img;
               _ ← match saveToDir with
                   | Some saveToDir =>
                       let imgFilePath :=
                         os_path_join saveToDir (imgTitle +:+ ".png") in
                       fig_savefig fig imgFilePath dpi
                   | None => plt_show
                   end;
               mret img)
            (map_to_list donutMap) None;
  mret tt.

(** *** Properties of plotDonutImg *)

(** The image of a donut itself: the intra-focal one when there is one,
    else the extra-focal one. *)
Definition ownImg (donutImg : DonutImage Img Num) : option Img :=
  match intraImg (donutImgs donutImg) with
  | Some intra => Some intra
  | None => extraImg (donutImgs donutImg)
  end.

(** Every donut is plotted with its own image. *)
Definition plotOwnImg (fig : Fig) (donutImg : DonutImage Img Num) : M W unit :=
  match ownImg donutImg with
  | Some image => addSubPlot fig image (starId donutImg)
  | None => raise UnboundLocalError
  end.

Definition plotOwnImages (donutMap : gmap string (list (DonutImage Img Num)))
    (saveToDir : option string) (dpi : option Dpi) : M W unit :=
  for_ (map_to_list donutMap)
       (λ '(sensorName, donutList),
          fig ← plt_figure;
          _ ← for_ donutList (plotOwnImg fig);
          match saveToDir with
          | Some saveToDir =>
              fig_savefig fig
                (os_path_join saveToDir
                   ((abbrevDectectorName sensorName +:+ "_DonutImg") +:+ ".png"))
                dpi
          | None => plt_show
          end).

Lemma foldM_for_ {S A B} (body : B → A → M S B) (own : A → M S unit)
    (g : B → A → B) l b s :
  (∀ b a s, a ∈ l →
     body b a s = match own a s with
                  | (Ok _, s') => (Ok (g b a), s')
                  | (Raise e, s') => (Raise e, s')
                  end) →
  foldM body l b s = match for_ l own s with
                     | (Ok _, s') => (Ok (foldl g b l), s')
                     | (Raise e, s') => (Raise e, s')
                     end.
Proof.
  revert b s. induction l as [|a l IH]; intros b s Hbody; [done|].
  cbn [foldM for_ foldl]. unfold mbind, M_bind.
  rewrite Hbody by by left.
  destruct (own a s) as [[[]|e] s']; [|done].
  apply IH. intros b' a' s'' Ha'. apply Hbody. by right.
Qed.

Lemma plotDonutList_own fig donutList img w :
  Forall (λ d, is_Some (intraImg (donutImgs d))
               ∨ is_Some (extraImg (donutImgs d))) donutList →
  plotDonutList fig donutList img w
  = match for_ donutList (plotOwnImg fig) w with
    | (Ok _, w') => (Ok (foldl boundImg img donutList), w')
    | (Raise e, w') => (Raise e, w')
    end.
Proof.
  intros Himg. apply foldM_for_. intros b d s Hd.
  eapply Forall_forall in Himg; [|exact Hd].
  unfold plotOwnImg, boundImg, ownImg.
  destruct (intraImg (donutImgs d)) as [intra|].
  - unfold mbind, M_bind. by destruct (addSubPlot _ _ _ _) as [[[]|] ?].
  - destruct (extraImg (donutImgs d)) as [extra|].
    + unfold mbind, M_bind. by destruct (addSubPlot _ _ _ _) as [[[]|] ?].
    + by destruct Himg as [[? [=]]|[? [=]]].
Qed.

(** When every donut of the map holds an image, [plotDonutImg] plots
    every donut with its own image, the intra-focal one when there is
    one and the extra-focal one otherwise: [img] is never unbound and
    never left over from the donut before. *)
Lemma plotDonutImg_imaged donutMap saveToDir dpi w :
  (∀ sensorName l, donutMap !! sensorName = Some l →
     Forall (λ d, is_Some (intraImg (donutImgs d))
                  ∨ is_Some (extraImg (donutImgs d))) l) →
  plotDonutImg donutMap saveToDir dpi w
  = plotOwnImages donutMap saveToDir dpi w.
Proof.
  intros Himg. unfold plotDonutImg, plotOwnImages.
  unfold mbind at 1, M_bind at 1.
  rewrite (foldM_for_ _
             (λ '(sensorName, donutList),
                fig ← plt_figure;
                _ ← for_ donutList (plotOwnImg fig);
                match saveToDir with
                | Some saveToDir =>
                    fig_savefig fig
                      (os_path_join saveToDir
                         ((abbrevDectectorName sensorName +:+ "_DonutImg")
                            +:+ ".png"))
                      dpi
                | None => plt_show
                end)
             (λ img item, foldl boundImg img item.2)).
  - by destruct (for_ _ _ w) as [[[]|] ?].
  - intros img [sensorName donutList] s Hin%elem_of_map_to_list.
    cbv zeta. unfold mbind, M_bind.
    destruct (plt_figure s) as [[fig|] s1]; [|done].
    rewrite plotDonutList_own by by eapply Himg.
    destruct (for_ donutList _ s1) as [[[]|] s2]; [|done].
    destruct saveToDir as [dir|].
    + by destruct (fig_savefig _ _ _ s2) as [[[]|] ?].
    + by destruct (plt_show s2) as [[[]|] ?].
Qed.

End PlotDonutImg.

(** ** From getDonutMap to plotDonutImg *)

Section DonutsToPlot.

Context {W Img Num Fig Dpi : Type}.
Context (add : Num → Num → Num).
Context (abbrevDectectorName : string → string).
Context (getSingleTargetImage :
  string → Img → NeighboringStar → nat → string →
  res (Img * list Num * list Num * list Num * Num * Num)).
Context (sourProc_doDeblending :
  Img → list Num → list Num → list Num → res (option (Img * Num * Num))).
Context (plt_figure : M W Fig).
Context (addSubPlot : Fig → Img → Z → M W unit).
Context (os_path_join : string → string → string).
Context (fig_savefig : Fig → string → option Dpi → M W unit).
Context (plt_show : M W unit).

(** On a donut map [getDonutMap] returned, [plotDonutImg] plots every
    donut with its own image, the intra-focal one when there is one and
    the extra-focal one otherwise: [img] is never unbound and never the
    image left over from the donut before. *)
Theorem plotDonutImg_after_getDonutMap neighborStarMap wfsImgMap aFilter
    doDeblending m saveToDir dpi w :
  donutMapOf add abbrevDectectorName getSingleTargetImage
    sourProc_doDeblending neighborStarMap wfsImgMap aFilter doDeblending
    = Ok m →
  plotDonutImg abbrevDectectorName plt_figure addSubPlot os_path_join
    fig_savefig plt_show m saveToDir dpi w
  = plotOwnImages abbrevDectectorName plt_figure addSubPlot os_path_join
      fig_savefig plt_show m saveToDir dpi w.
Proof.
  intros Hmap. apply plotDonutImg_imaged. intros sensorName l Hl.
  by destruct (getDonutMap_imaged _ _ _ _ _ _ _ _ _ Hmap sensorName l Hl).
Qed.

End DonutsToPlot.

(** ** Worked inputs for the further properties *)

(** The three maps without the detector that has no star. *)
Lemma analyzeStarMap_keeps_detectors_with_stars_witness :
  ({["R:2,2 S:1,1" := sample_star]} : gmap string NeighboringStar)
    !! "R:2,2 S:1,1"
  = ({["R:2,2 S:1,1" := sample_star; "R:2,2 S:1,0" := sample_star]}
       : gmap string NeighboringStar) !! "R:2,2 S:1,1" ∧
  ({["R:2,2 S:1,1" := [0.1%Q]]} : gmap string (list Q)) !! "R:2,2 S:1,1"
  = Some [0.1%Q] ∧
  ({["R:2,2 S:1,1" := tt]} : gmap string unit) !! "R:2,2 S:1,1"
  = ({["R:2,2 S:1,1" := tt; "R:2,2 S:1,0" := tt]} : gmap string unit)
      !! "R:2,2 S:1,1".
Proof.
  apply (analyzeStarMap_keeps_detectors_with_stars (λ ra : list Q, ra)
           {["R:2,2 S:1,1" := sample_star; "R:2,2 S:1,0" := sample_star]}
           {["R:2,2 S:1,1" := [0.1%Q]; "R:2,2 S:1,0" := []]}
           {["R:2,2 S:1,1" := tt; "R:2,2 S:1,0" := tt]}
           {["R:2,2 S:1,1" := sample_star]} {["R:2,2 S:1,1" := [0.1%Q]]}
           {["R:2,2 S:1,1" := tt]} "R:2,2 S:1,1" [0.1%Q]).
  - vm_compute. reflexivity.
  - vm_compute. reflexivity.
  - discriminate.
Defined.

Lemma analyzeStarMap_idempotent_witness :
  analyzeStarMap (λ ra : list Q, ra)
    {["R:2,2 S:1,1" := sample_star]} {["R:2,2 S:1,1" := [0.1%Q]]}
    {["R:2,2 S:1,1" := tt]}
  = Ok ({["R:2,2 S:1,1" := sample_star]}, {["R:2,2 S:1,1" := [0.1%Q]]},
        {["R:2,2 S:1,1" := tt]}).
Proof.
  apply (analyzeStarMap_idempotent (λ ra : list Q, ra)
           {["R:2,2 S:1,1" := sample_star; "R:2,2 S:1,0" := sample_star]}
           {["R:2,2 S:1,1" := [0.1%Q]; "R:2,2 S:1,0" := []]}
           {["R:2,2 S:1,1" := tt; "R:2,2 S:1,0" := tt]}).
  vm_compute. reflexivity.
Defined.

(** A directory of PhoSim files of one visit, and one of two visits; the
    data collector logs its call. *)
Definition phosim_one_visit (dir : string) : res (list string) :=
  Ok ["lsst_e_9006001_f1_R22_S11_E000.fits.gz";
      "lsst_e_9006001_f1_R22_S10_E000.fits.gz"; "README"].

Definition phosim_two_visits (dir : string) : res (list string) :=
  Ok ["lsst_e_9006001_f1_R22_S11_E000.fits.gz";
      "lsst_e_9006002_f1_R22_S11_E000.fits.gz"].

Definition sample_collector (dataDir : string) (obsId : Z) (aFilter : string)
    (atype : string) (overwrite : bool) : M (list string) unit :=
  logged ("import " +:+ dataDir +:+ " " +:+ pretty obsId +:+ " " +:+ aFilter) tt.

Lemma phosim_form_S11 :
  phosim_form "9006001" "1" "lsst_e_9006001_f1_R22_S11_E000.fits.gz".
Proof. exists "lsst_e", "R22_S11_E000.fits.gz". by split_and!. Qed.

Lemma phosim_form_S10 :
  phosim_form "9006001" "1" "lsst_e_9006001_f1_R22_S10_E000.fits.gz".
Proof. exists "lsst_e", "R22_S10_E000.fits.gz". by split_and!. Qed.

Lemma phosim_form_second_visit :
  phosim_form "9006002" "1" "lsst_e_9006002_f1_R22_S11_E000.fits.gz".
Proof. exists "lsst_e", "R22_S11_E000.fits.gz". by split_and!. Qed.

Lemma importPhoSimDataToButler_one_visit_witness :
  importOf "raw" sample_join phosim_one_visit sample_isfile sample_collector
           "Extra" "raw" false []
  = (obsId ← lift (PyInt.int_of_digits "9006001");
     aFilter ← lift (getitem phosimFilterID "1");
     sample_collector "Extra" obsId aFilter "raw" false) [].
Proof.
  apply (importPhoSimDataToButler_one_visit "raw" sample_join
           phosim_one_visit sample_isfile sample_collector "Extra" "raw" false
           ["lsst_e_9006001_f1_R22_S11_E000.fits.gz";
            "lsst_e_9006001_f1_R22_S10_E000.fits.gz"; "README"]
           "lsst_e_9006001_f1_R22_S11_E000.fits.gz" "9006001" "1"%char []).
  - vm_compute. reflexivity.
  - by left.
  - exact phosim_form_S11.
  - constructor; [left; exact phosim_form_S11|].
    constructor; [left; exact phosim_form_S10|].
    constructor; [right; reflexivity|constructor].
Defined.

(** The collector is called with the visit as a number and the filter
    of the digit 1. *)
Example importPhoSimDataToButler_log :
  importOf "raw" sample_join phosim_one_visit sample_isfile sample_collector
           "Extra" "raw" false []
  = (Ok tt, ["import Extra 9006001 g"]).
Proof. vm_compute. reflexivity. Qed.

Lemma importPhoSimDataToButler_two_visits_witness :
  importOf "raw" sample_join phosim_two_visits sample_isfile sample_collector
           "Extra" "raw" false []
  = (Raise (RuntimeError
              "There are more than one unique ObdId and filter in directory."),
     []).
Proof.
  apply (importPhoSimDataToButler_two_visits "raw" sample_join
           phosim_two_visits sample_isfile sample_collector "Extra" "raw" false
           ["lsst_e_9006001_f1_R22_S11_E000.fits.gz";
            "lsst_e_9006002_f1_R22_S11_E000.fits.gz"]
           "lsst_e_9006001_f1_R22_S11_E000.fits.gz" "9006001" "1"%char
           "lsst_e_9006002_f1_R22_S11_E000.fits.gz" "9006002" "1"%char []).
  - vm_compute. reflexivity.
  - by left.
  - exact phosim_form_S11.
  - right. by left.
  - exact phosim_form_second_visit.
  - discriminate.
Defined.

Lemma importPhoSimDataToButler_no_match_witness :
  importOf "raw" sample_join sample_listdir sample_isfile sample_collector
           "realWfs" "raw" false []
  = (Raise IndexError, []).
Proof.
  apply (importPhoSimDataToButler_no_match "raw" sample_join sample_listdir
           sample_isfile sample_collector "realWfs" "raw" false
           ["README"; "Image_R00_S22_C0_E000.fits"] []).
  - vm_compute. reflexivity.
  - by repeat constructor.
Defined.

(** A butler that has an image for every visit. *)
Definition butler_by_visit (visit snap : Z) (raft sensor : option string)
    : res string :=
  Ok ("visit " +:+ pretty visit).

Definition sample_by_obsId : gmap string (DefocalImage string) :=
  {[corner_sensor :=
      mkDefocalImage (Some "visit 9007001") (Some "visit 9007000")]}.

Lemma getPostISRDefocalImgMap_by_obsId_witness :
  (corner_sensor ∉ [corner_sensor] → sample_by_obsId !! corner_sensor = None) ∧
  (corner_sensor ∈ [corner_sensor] →
   ∃ d, butlerImages butler_by_visit [9007001%Z; 9007000%Z] 0 corner_sensor d ∧
        sample_by_obsId !! corner_sensor = Some d).
Proof.
  apply (getPostISRDefocalImgMap_by_obsId "raw" sample_join sample_listdir
           sample_isfile butler_by_visit sample_getdata sample_match
           sample_abbrev [corner_sensor] [9007001%Z; 9007000%Z] 0%Z
           sample_by_obsId).
  vm_compute. reflexivity.
Defined.

Lemma getPostISRDefocalImgMap_by_files_witness :
  is_Some (sample_wfsImgMap !! corner_sensor) ↔
  corner_sensor ∈ [corner_sensor] ∧
  is_Some (fileOf sample_match sample_abbrev
             ["README"; "Image_R00_S22_C0_E000.fits"] corner_sensor 0).
Proof.
  apply (getPostISRDefocalImgMap_by_files "raw" sample_join sample_listdir
           sample_isfile sample_butler sample_getdata sample_match
           sample_abbrev [corner_sensor] "realWfs" 0%Z sample_wfsImgMap
           ["README"; "Image_R00_S22_C0_E000.fits"]).
  - vm_compute. reflexivity.
  - vm_compute. reflexivity.
Defined.



(** The donut map of one star with both defocal images. *)
Definition sample_donutMap : gmap string (list (DonutImage string Z)) :=
  {[corner_sensor :=
      [sample_donut (mkDefocalImage (Some "cutout of intra")
                                    (Some "cutout of extra"))]]}.

Lemma sample_donutMap_made :
  donutMapOf Z.add sample_abbrev (sample_cutout 1) sample_deblending
             sample_neighborStarMap sample_both "g" false
  = Ok sample_donutMap.
Proof. vm_compute. reflexivity. Qed.

Lemma getDonutMap_donuts_hold_an_image_witness :
  is_Some (sample_both !! corner_sensor) ∧
  [sample_donut (mkDefocalImage (Some "cutout of intra")
                                (Some "cutout of extra"))] ≠ [] ∧
  ∀ d, d ∈ [sample_donut (mkDefocalImage (Some "cutout of intra")
                                         (Some "cutout of extra"))] →
    is_Some (intraImg (donutImgs d)) ∨ is_Some (extraImg (donutImgs d)).
Proof.
  apply (getDonutMap_donuts_hold_an_image Z.add sample_abbrev
           (sample_cutout 1) sample_deblending sample_neighborStarMap
           sample_both "g" false sample_donutMap corner_sensor).
  - exact sample_donutMap_made.
  - vm_compute. reflexivity.
Defined.

Lemma getDonutMap_donut_position_witness :
  ∃ ii img x y,
    (SimobjID sample_star).*1 !! ii = Some 123%Z ∧
    1080%Z = x ∧ 2080%Z = y ∧
    (cutoutOf Z.add sample_abbrev (sample_cutout 1) sample_deblending
              sample_star "g" false corner_sensor (Some "intra") ii
       = Some (img, x, y) ∨
     cutoutOf Z.add sample_abbrev (sample_cutout 1) sample_deblending
              sample_star "g" false corner_sensor (Some "intra") ii
       = None ∧
     cutoutOf Z.add sample_abbrev (sample_cutout 1) sample_deblending
              sample_star "g" false corner_sensor (Some "extra") ii
       = Some (img, x, y)).
Proof.
  apply (getDonutMap_donut_position Z.add sample_abbrev (sample_cutout 1)
           sample_deblending sample_neighborStarMap sample_both "g" false
           sample_donutMap corner_sensor
           [sample_donut (mkDefocalImage (Some "cutout of intra")
                                         (Some "cutout of extra"))]
           sample_star (mkDefocalImage (Some "intra") (Some "extra"))
           (sample_donut (mkDefocalImage (Some "cutout of intra")
                                         (Some "cutout of extra")))).
  - exact sample_donutMap_made.
  - vm_compute. reflexivity.
  - vm_compute. reflexivity.
  - vm_compute. reflexivity.
  - simpl. apply NoDup_singleton.
  - by left.
Defined.

(** matplotlib, logging its calls; a figure is named by its number. *)
Definition sample_figure : M (list string) string := logged "figure" "fig".
Definition sample_addSubPlot (fig img : string) (id : Z)
    : M (list string) unit :=
  logged ("subplot " +:+ img +:+ " " +:+ pretty id) tt.
Definition sample_savefig (fig path : string) (dpi : option Z)
    : M (list string) unit :=
  logged ("savefig " +:+ path) tt.
Definition sample_show : M (list string) unit := logged "show" tt.
Definition sample_join2 (dir name : string) : string := dir +:+ "/" +:+ name.

Lemma plotDonutImg_after_getDonutMap_witness :
  plotDonutImg sample_abbrev sample_figure sample_addSubPlot sample_join2
               sample_savefig sample_show sample_donutMap (Some "donutImg")
               None []
  = plotOwnImages sample_abbrev sample_figure sample_addSubPlot sample_join2
                  sample_savefig sample_show sample_donutMap (Some "donutImg")
                  None [].
Proof.
  apply (plotDonutImg_after_getDonutMap Z.add sample_abbrev (sample_cutout 1)
           sample_deblending sample_figure sample_addSubPlot sample_join2
           sample_savefig sample_show sample_neighborStarMap sample_both "g"
           false).
  exact sample_donutMap_made.
Defined.

(** The calls of [plotDonutImg] on that map; and on a map made by hand,
    whose second donut has no image: it is plotted with the image of the
    first. *)
Example plotDonutImg_log :
  (plotDonutImg sample_abbrev sample_figure sample_addSubPlot sample_join2
                sample_savefig sample_show sample_donutMap (Some "donutImg")
                None []).2
  = ["figure"; "subplot cutout of intra 123";
     "savefig donutImg/R00_S22_C0_DonutImg.png"] ∧
  (plotDonutImg sample_abbrev sample_figure sample_addSubPlot sample_join2
                sample_savefig sample_show
                {[corner_sensor :=
                    [sample_donut (mkDefocalImage (Some "first") None);
                     mkDonutImage 456%Z 0%Z 0%Z (mkDefocalImage None None)]]}
                None None []).2
  = ["figure"; "subplot first 123"; "subplot first 456"; "show"].
Proof. split; vm_compute; reflexivity. Qed.

End WEPController.

(** * python/lsst/ts/wep/FitsFormat.py *)

Module FitsFormat.

(** ** Paths *)

Fixpoint has_slash (s : string) : bool :=
  match s with
  | EmptyString => false
  | String c s' => Ascii.eqb c "/" || has_slash s'
  end.

(** [os.path.basename]: what follows the last slash. *)
Fixpoint basename (s : string) : string :=
  match s with
  | EmptyString => EmptyString
  | String c s' => if has_slash s then basename s' else s
  end.

(** ** getMetaDataFromFileName *)

(** [(\d)] *)
Definition one_digit : Regex.re := Regex.Group (Regex.Chr Regex.digit).

(** [_f(\d)_R(\d)(\d)_S(\d)(\d)_C(\d)(\d)] *)
Definition sensor_part_re : Regex.re :=
  Regex.Seq (Regex.Lit "_f")
    (Regex.Seq one_digit
       (Regex.Seq (Regex.Lit "_R")
          (Regex.Seq one_digit
             (Regex.Seq one_digit
                (Regex.Seq (Regex.Lit "_S")
                   (Regex.Seq one_digit
                      (Regex.Seq one_digit
                         (Regex.Seq (Regex.Lit "_C")
                            (Regex.Seq one_digit one_digit))))))))).

(** An underscore, the group of the visit digits (any number of them)
    and the sensor part. *)
Definition visit_part_re : Regex.re :=
  Regex.Seq (Regex.Lit "_")
    (Regex.Seq (Regex.Group (Regex.Star Regex.digit)) sensor_part_re).

(** The expression of [getMetaDataFromFileName]: any number of
    non-digits, then the visit part. *)
Definition fileName_re : Regex.re :=
  Regex.Seq (Regex.Star Regex.nondigit) visit_part_re.

(** The filter of a PhoSim filter digit: [filterDict.get]. *)
Definition filterDict : gmap string string :=
  {["0" := LocalDatabase.FilterU; "1" := LocalDatabase.FilterG;
    "2" := LocalDatabase.FilterR; "3" := LocalDatabase.FilterI;
    "4" := LocalDatabase.FilterZ; "5" := LocalDatabase.FilterY]}.

(** The dictionary of the metadata, by its four keys. *)
Record metadata : Type := Metadata {
  OBSID : Z;
  FILTER : option string;
  CCDID : string;
  AMPID : string
}.

Definition getMetaDataFromFileName (fileName : string) : res metadata :=
  let fileName := basename fileName in
  match Regex.rmatch fileName_re fileName with
  | None => Raise (RuntimeError "Cannot get the metadata from file name")
  | Some (_, groups) =>
      obsId ← PyInt.int_of_digits (Regex.group groups 0);
      Ok (Metadata obsId
            (filterDict !! Regex.group groups 1)
            ("R" +:+ Regex.group groups 2 +:+ Regex.group groups 3
                 +:+ "_S" +:+ Regex.group groups 4 +:+ Regex.group groups 5)
            ("C" +:+ Regex.group groups 6 +:+ Regex.group groups 7))
  end.

(** ** config and writeNewFits *)

(** The two attributes of a [FitsFormat]. *)
Record fitsFormat : Type := mkFitsFormat {
  fitsDir : option string;
  fitsFilePath : option string
}.

(** [config(fitsDir=None, fitsFilePath=None)]: both attributes are
    assigned. *)
Definition config (self : fitsFormat) (fitsDir fitsFilePath : option string)
    : fitsFormat :=
  mkFitsFormat fitsDir fitsFilePath.

Section WriteNewFits.

(** astropy is an external collaborator.  [fits.PrimaryHDU(data)] and
    [fits.HDUList([hdu])] build objects and may raise;
    [hdul.writeto(path)] acts on the file system, a world [W], and
    writes the data or raises. *)
Context {W Data HDU HDUList : Type}.
Context (fits_PrimaryHDU : Data → res HDU).
Context (fits_HDUList : list HDU → res HDUList).
Context (hdul_writeto : HDUList → string → M W unit).

(** [os.path.join(dir, name)] for a directory that may be [None]. *)
Definition os_path_join (dir : option string) (name : string) : res string :=
  match dir with
  | None => Raise (TypeError "expected str, bytes or os.PathLike object, not NoneType")
  | Some dir =>
      if String.prefix "/" name then Ok name
      else if String.eqb dir "" || String.prefix "/" (String.rev dir)
      then Ok (dir +:+ name)
      else Ok (dir +:+ "/" +:+ name)
  end.

(** The [try] statement: any exception of the write is caught, and the
    path becomes [None]. *)
Definition try_writeto (hdul : HDUList) (fitsFilePath : string)
    : M W (option string) :=
  λ w,
    match hdul_writeto hdul fitsFilePath w with
    | (Ok _, w') => (Ok (Some fitsFilePath), w')
    | (Raise _, w') => (Ok None, w')
    end.

(** [writeNewFits]: the two objects are built and the path is joined
    before the [try] statement, so that their exceptions are not caught;
    the result is the path of the new file, or [None] when the write
    raised. *)
Definition writeNewFits (self : fitsFormat) (data : Data)
    (fitsFileName : string) : M W (option string) :=
  hdu ← lift (fits_PrimaryHDU data);
  hdul ← lift (fits_HDUList [hdu]);
  fitsFilePath ← lift (os_path_join (fitsDir self) fitsFileName);
  try_writeto hdul fitsFilePath.

End WriteNewFits.

(** ** Properties of getMetaDataFromFileName *)

(** The text of the sensor part of a file name. *)
Definition sensor_part (f r0 r1 s0 s1 c0 c1 : ascii) (rest : string) : string :=
  "_f" +:+ String f ("_R" +:+ String r0 (String r1 ("_S" +:+ String s0
    (String s1 ("_C" +:+ String c0 (String c1 rest)))))).

Definition char (c : ascii) : string := String c EmptyString.

Lemma has_slash_append s1 s2 :
  has_slash (s1 +:+ s2) = has_slash s1 || has_slash s2.
Proof.
  induction s1 as [|c s1 IH]; [done|].
  unfold String.append; fold String.append. cbn [has_slash].
  by rewrite IH, orb_assoc.
Qed.

Lemma basename_no_slash s : has_slash s = false → basename s = s.
Proof. intros Hs. destruct s as [|c s]; [done|]. cbn [basename]. by rewrite Hs. Qed.

Lemma digit_not_slash c : PyStr.isdigit c = true → Ascii.eqb c "/" = false.
Proof.
  intros Hc. destruct (Ascii.eqb_spec c "/") as [->|]; [|done].
  by vm_compute in Hc.
Qed.

Lemma digits_no_slash s : Regex.all_in Regex.digit s = true → has_slash s = false.
Proof.
  induction s as [|c s IH]; [done|]. cbn [Regex.all_in has_slash].
  intros [Hc Hs]%andb_true_iff. by rewrite (digit_not_slash c Hc), IH.
Qed.

Lemma go_sensor_part f r0 r1 s0 s1 c0 c1 rest caps :
  PyStr.isdigit f = true →
  PyStr.isdigit r0 = true → PyStr.isdigit r1 = true →
  PyStr.isdigit s0 = true → PyStr.isdigit s1 = true →
  PyStr.isdigit c0 = true → PyStr.isdigit c1 = true →
  Regex.go sensor_part_re (sensor_part f r0 r1 s0 s1 c0 c1 rest) caps
           (λ _ caps', Some caps')
  = Some (caps ++ [Some (char f)] ++ [Some (char r0)] ++ [Some (char r1)]
               ++ [Some (char s0)] ++ [Some (char s1)]
               ++ [Some (char c0)] ++ [Some (char c1)]).
Proof.
  intros Hf Hr0 Hr1 Hs0 Hs1 Hc0 Hc1.
  unfold sensor_part, sensor_part_re, one_digit, Regex.digit, char.
  unfold String.append.
  cbn [Regex.go Regex.Lit Ascii.eqb Bool.eqb].
  rewrite Hf, Hr0, Hr1, Hs0, Hs1, Hc0, Hc1.
  rewrite !Regex.consumed_one.
  by rewrite <- !app_assoc.
Qed.

Lemma go_visit_part visit f r0 r1 s0 s1 c0 c1 rest caps :
  Regex.all_in Regex.digit visit = true →
  PyStr.isdigit f = true →
  PyStr.isdigit r0 = true → PyStr.isdigit r1 = true →
  PyStr.isdigit s0 = true → PyStr.isdigit s1 = true →
  PyStr.isdigit c0 = true → PyStr.isdigit c1 = true →
  Regex.go visit_part_re
           (String "_" (visit +:+ sensor_part f r0 r1 s0 s1 c0 c1 rest)) caps
           (λ _ caps', Some caps')
  = Some (caps ++ [Some visit] ++ [Some (char f)] ++ [Some (char r0)]
               ++ [Some (char r1)] ++ [Some (char s0)] ++ [Some (char s1)]
               ++ [Some (char c0)] ++ [Some (char c1)]).
Proof.
  intros Hvisit Hf Hr0 Hr1 Hs0 Hs1 Hc0 Hc1. unfold visit_part_re.
  rewrite Regex.go_Seq. cbn [Regex.Lit Regex.go Ascii.eqb Bool.eqb].
  apply (Regex.star_run _ visit); [done|].
  rewrite Regex.star_stop by done.
  rewrite Regex.consumed_app, go_sensor_part by done.
  by rewrite <- !app_assoc.
Qed.

Lemma go_fileName pre visit f r0 r1 s0 s1 c0 c1 rest :
  Regex.all_in Regex.nondigit pre = true →
  Regex.all_in Regex.digit visit = true →
  PyStr.isdigit f = true →
  PyStr.isdigit r0 = true → PyStr.isdigit r1 = true →
  PyStr.isdigit s0 = true → PyStr.isdigit s1 = true →
  PyStr.isdigit c0 = true → PyStr.isdigit c1 = true →
  Regex.go fileName_re
           (pre +:+ String "_" (visit +:+ sensor_part f r0 r1 s0 s1 c0 c1 rest))
           [] (λ _ caps', Some caps')
  = Some ([Some visit] ++ [Some (char f)] ++ [Some (char r0)]
            ++ [Some (char r1)] ++ [Some (char s0)] ++ [Some (char s1)]
            ++ [Some (char c0)] ++ [Some (char c1)]).
Proof.
  intros Hpre Hvisit Hf Hr0 Hr1 Hs0 Hs1 Hc0 Hc1. unfold fileName_re.
  rewrite Regex.go_Seq. cbn [Regex.go]. apply Regex.star_run; [done|].
  pose proof (go_visit_part visit f r0 r1 s0 s1 c0 c1 rest []
                Hvisit Hf Hr0 Hr1 Hs0 Hs1 Hc0 Hc1) as Hhere.
  cbn [app] in Hhere.
  change (Regex.star Regex.nondigit (String "_" ?s) ?k)
    with (match Regex.star Regex.nondigit s k with
          | Some x => Some x
          | None => k (String "_" s)
          end).
  cbv beta. rewrite Hhere. cbn [app].
  match goal with
  | |- match ?m with Some _ => _ | None => _ end = _ =>
      assert (m = None) as ->; [|done]
  end.
  destruct visit as [|v visit].
  - unfold sensor_part, String.append. unfold Regex.nondigit at 1.
    cbn [Regex.star]. unfold Regex.nondigit. rewrite Hf.
    cbn [negb]. unfold visit_part_re. cbn [Regex.go Regex.Lit].
    by rewrite (Regex.digit_not_underscore f Hf).
  - unfold String.append; fold String.append.
    cbn [Regex.all_in] in Hvisit. apply andb_true_iff in Hvisit as [Hv _].
    cbn [Regex.star]. unfold Regex.nondigit at 1. unfold Regex.digit in Hv.
    rewrite Hv. cbn [negb]. unfold visit_part_re.
    cbn [Regex.go Regex.Lit]. by rewrite (Regex.digit_not_underscore v Hv).
Qed.

(** What [getMetaDataFromFileName] does with a name of the PhoSim form,
    whatever the number of visit digits. *)
Lemma getMetaDataFromFileName_form pre visit f r0 r1 s0 s1 c0 c1 rest :
  Regex.all_in Regex.nondigit pre = true → has_slash pre = false →
  has_slash rest = false →
  Regex.all_in Regex.digit visit = true →
  PyStr.isdigit f = true →
  PyStr.isdigit r0 = true → PyStr.isdigit r1 = true →
  PyStr.isdigit s0 = true → PyStr.isdigit s1 = true →
  PyStr.isdigit c0 = true → PyStr.isdigit c1 = true →
  getMetaDataFromFileName
    (pre +:+ String "_" (visit +:+ sensor_part f r0 r1 s0 s1 c0 c1 rest))
  = (obsId ← PyInt.int_of_digits visit;
     Ok (Metadata obsId (filterDict !! char f)
           ("R" +:+ char r0 +:+ char r1 +:+ "_S" +:+ char s0 +:+ char s1)
           ("C" +:+ char c0 +:+ char c1))).
Proof.
  intros Hpre Hpre_slash Hrest Hvisit Hf Hr0 Hr1 Hs0 Hs1 Hc0 Hc1.
  unfold getMetaDataFromFileName. rewrite basename_no_slash.
  2: { unfold sensor_part. rewrite has_slash_append. cbn [has_slash].
       rewrite has_slash_append, (digits_no_slash visit Hvisit), Hpre_slash.
       unfold String.append. cbn [has_slash].
       rewrite Hrest, (digit_not_slash f), (digit_not_slash r0),
         (digit_not_slash r1), (digit_not_slash s0), (digit_not_slash s1),
         (digit_not_slash c0), (digit_not_slash c1) by done.
       reflexivity. }
  pose proof (go_fileName pre visit f r0 r1 s0 s1 c0 c1 rest Hpre Hvisit
                Hf Hr0 Hr1 Hs0 Hs1 Hc0 Hc1) as Hgo.
  unfold Regex.rmatch.
  set (name := pre +:+ String "_" _) in *.
  assert (snd <$> Regex.go fileName_re name []
                      (λ s' caps, Some (Regex.consumed name s', caps))
          = Some ([Some visit] ++ [Some (char f)] ++ [Some (char r0)]
                    ++ [Some (char r1)] ++ [Some (char s0)]
                    ++ [Some (char s1)] ++ [Some (char c0)]
                    ++ [Some (char c1)])) as Hgroups.
  { rewrite <- Regex.go_fmap. exact Hgo. }
  clear Hgo.
  destruct (Regex.go fileName_re name [] _) as [[matched groups]|];
    [|done].
  cbn in Hgroups. injection Hgroups as ->. reflexivity.
Qed.

(** A file name of the PhoSim form, with at least one visit digit, gives
    the visit as a number, the filter of the filter digit (none for the
    digits 6 to 9) and the names of the sensor and of the amplifier;
    what follows the amplifier digits is ignored. *)
Theorem getMetaDataFromFileName_parses pre v visit f r0 r1 s0 s1 c0 c1 rest :
  Regex.all_in Regex.nondigit pre = true → has_slash pre = false →
  has_slash rest = false →
  Regex.all_in Regex.digit (String v visit) = true →
  PyStr.isdigit f = true →
  PyStr.isdigit r0 = true → PyStr.isdigit r1 = true →
  PyStr.isdigit s0 = true → PyStr.isdigit s1 = true →
  PyStr.isdigit c0 = true → PyStr.isdigit c1 = true →
  getMetaDataFromFileName
    (pre +:+ String "_" (String v visit
                           +:+ sensor_part f r0 r1 s0 s1 c0 c1 rest))
  = Ok (Metadata (PyInt.digits_value (String v visit)) (filterDict !! char f)
          ("R" +:+ char r0 +:+ char r1 +:+ "_S" +:+ char s0 +:+ char s1)
          ("C" +:+ char c0 +:+ char c1)).
Proof.
  intros Hpre Hpre_slash Hrest Hvisit Hf Hr0 Hr1 Hs0 Hs1 Hc0 Hc1.
  rewrite getMetaDataFromFileName_form by done.
  unfold PyInt.int_of_digits. by rewrite Hvisit.
Qed.

(** A file name of the PhoSim form without a visit digit matches the
    expression with an empty visit, and the conversion of the visit
    raises a [ValueError]. *)
Theorem getMetaDataFromFileName_empty_visit pre f r0 r1 s0 s1 c0 c1 rest :
  Regex.all_in Regex.nondigit pre = true → has_slash pre = false →
  has_slash rest = false →
  PyStr.isdigit f = true →
  PyStr.isdigit r0 = true → PyStr.isdigit r1 = true →
  PyStr.isdigit s0 = true → PyStr.isdigit s1 = true →
  PyStr.isdigit c0 = true → PyStr.isdigit c1 = true →
  getMetaDataFromFileName
    (pre +:+ String "_" (sensor_part f r0 r1 s0 s1 c0 c1 rest))
  = Raise (ValueError "invalid literal for int() with base 10: ''").
Proof.
  intros Hpre Hpre_slash Hrest Hf Hr0 Hr1 Hs0 Hs1 Hc0 Hc1.
  exact (getMetaDataFromFileName_form pre "" f r0 r1 s0 s1 c0 c1 rest
           Hpre Hpre_slash Hrest eq_refl Hf Hr0 Hr1 Hs0 Hs1 Hc0 Hc1).
Qed.

Lemma basename_append dir name :
  has_slash name = false → basename (dir +:+ String "/" name) = name.
Proof.
  intros Hname. induction dir as [|c dir IH].
  - unfold String.append. cbn [basename has_slash Ascii.eqb Bool.eqb orb].
    by apply basename_no_slash.
  - unfold String.append; fold String.append. cbn [basename has_slash].
    rewrite has_slash_append. cbn [has_slash Ascii.eqb Bool.eqb orb].
    by rewrite !orb_true_r.
Qed.

(** Only the last component of the path is read. *)
Theorem getMetaDataFromFileName_basename dir name :
  has_slash name = false →
  getMetaDataFromFileName (dir +:+ String "/" name)
  = getMetaDataFromFileName name.
Proof.
  intros Hname. unfold getMetaDataFromFileName.
  by rewrite basename_append, basename_no_slash.
Qed.

Lemma visit_part_no_digit s :
  Regex.all_in Regex.nondigit s = true →
  Regex.go visit_part_re s [] (λ s' caps, Some (Regex.consumed s s', caps))
  = None
  ∧ ∀ k : string → list (option string) → option (string * list (option string)),
      Regex.go visit_part_re s [] k = None.
Proof.
  intros Hs.
  assert (∀ k : string → list (option string)
                → option (string * list (option string)),
            Regex.go visit_part_re s [] k = None) as Hnone; [|by split].
  intros k. unfold visit_part_re. rewrite Regex.go_Seq.
  cbn [Regex.Lit Regex.go]. destruct s as [|c s]; [done|].
  destruct (Ascii.eqb "_" c); [|done].
  cbn [Regex.all_in] in Hs. apply andb_true_iff in Hs as [_ Hs].
  rewrite Regex.star_stop.
  2: { destruct s as [|a s]; [done|]. cbn [Regex.all_in] in Hs.
       apply andb_true_iff in Hs as [Ha _]. unfold Regex.nondigit in Ha.
       unfold Regex.digit. by destruct (PyStr.isdigit a). }
  unfold sensor_part_re. rewrite Regex.go_Seq.
  cbn [Regex.Lit Regex.go].
  destruct s as [|a [|b [|d s]]]; try done.
  - by destruct (Ascii.eqb "_" a).
  - destruct (Ascii.eqb "_" a); [|done]. by destruct (Ascii.eqb "f" b).
  - destruct (Ascii.eqb "_" a); [|done]. destruct (Ascii.eqb "f" b); [|done].
    unfold one_digit. cbn [Regex.go].
    cbn [Regex.all_in] in Hs.
    apply andb_true_iff in Hs as [_ [_ [Hd _]%andb_true_iff]%andb_true_iff].
    unfold Regex.nondigit in Hd. unfold Regex.digit.
    by destruct (PyStr.isdigit d).
Qed.

(** A file name whose last component holds no digit does not match: the
    documented [RuntimeError] is raised. *)
Theorem getMetaDataFromFileName_no_digit fileName :
  Regex.all_in Regex.nondigit (basename fileName) = true →
  getMetaDataFromFileName fileName
  = Raise (RuntimeError "Cannot get the metadata from file name").
Proof.
  intros Hname. unfold getMetaDataFromFileName, Regex.rmatch, fileName_re.
  rewrite Regex.go_Seq. cbn [Regex.go].
  rewrite Regex.star_None; [done|].
  generalize (basename fileName) at 1 as whole. intros whole.
  induction (basename fileName) as [|c s IH]; cbn [Regex.nowhere].
  - split; [|done]. apply (visit_part_no_digit ""). done.
  - split.
    + by apply (visit_part_no_digit (String c s)).
    + apply IH. cbn [Regex.all_in] in Hname.
      by apply andb_true_iff in Hname as [_ ?].
Qed.

(** ** Properties of writeNewFits *)

Section WriteNewFitsFacts.

Context {W Data HDU HDUList : Type}.
Context (fits_PrimaryHDU : Data → res HDU).
Context (fits_HDUList : list HDU → res HDUList).
Context (hdul_writeto : HDUList → string → M W unit).

(** The call with astropy at hand. *)
Definition writeNewFitsOf (self : fitsFormat) (data : Data)
    (fitsFileName : string) : M W (option string) :=
  writeNewFits fits_PrimaryHDU fits_HDUList hdul_writeto self data
               fitsFileName.

(** The list of HDUs the write is given: [fits.HDUList([fits.PrimaryHDU(data)])]. *)
Definition hdulOf (data : Data) : res HDUList :=
  hdu ← fits_PrimaryHDU data; fits_HDUList [hdu].

(** Only the exceptions of the write are caught.  An exception raised
    while the HDU and the list of HDUs are built escapes [writeNewFits],
    nothing being written.  When they are built and a directory is
    configured, [writeNewFits] returns: the joined path when the write
    succeeded and [None] when it raised, the world being what the write
    left.  After a [config] that names only the file path the directory
    is [None] again, and [writeNewFits] raises a [TypeError] before any
    write. *)
Theorem writeNewFits_returns_unless_no_directory self data fitsFileName w :
  (∀ e, hdulOf data = Raise e →
     writeNewFitsOf self data fitsFileName w = (Raise e, w)) ∧
  (∀ hdul dir, hdulOf data = Ok hdul → fitsDir self = Some dir →
     ∃ path,
       os_path_join (Some dir) fitsFileName = Ok path ∧
       ((writeNewFitsOf self data fitsFileName w).1 = Ok (Some path)
        ∧ (∃ u, (hdul_writeto hdul path w).1 = Ok u)
        ∨ (writeNewFitsOf self data fitsFileName w).1 = Ok None
          ∧ (∃ e, (hdul_writeto hdul path w).1 = Raise e)) ∧
       (writeNewFitsOf self data fitsFileName w).2
       = (hdul_writeto hdul path w).2) ∧
  (∀ hdul path, hdulOf data = Ok hdul →
     ∃ msg,
       writeNewFitsOf (config self None (Some path)) data fitsFileName w
       = (Raise (TypeError msg), w)).
Proof.
  split_and!.
  - intros e He. unfold hdulOf, mbind, res_bind in He.
    unfold writeNewFitsOf, writeNewFits, lift, mbind, M_bind.
    destruct (fits_PrimaryHDU data) as [hdu|e1]; [|congruence].
    by rewrite He.
  - intros hdul dir Hhdul Hdir. unfold hdulOf, mbind, res_bind in Hhdul.
    unfold writeNewFitsOf, writeNewFits, lift, try_writeto, mbind, M_bind.
    destruct (fits_PrimaryHDU data) as [hdu|e1]; [|done].
    rewrite Hhdul, Hdir.
    destruct (os_path_join (Some dir) fitsFileName) as [path|e] eqn:Hjoin.
    2: { unfold os_path_join in Hjoin.
         destruct (String.prefix "/" fitsFileName); [done|].
         by destruct (_ || _). }
    exists path. split; [done|].
    destruct (hdul_writeto hdul path w) as [[u|e] w']; cbn; eauto 6.
  - intros hdul path Hhdul. unfold hdulOf, mbind, res_bind in Hhdul.
    unfold writeNewFitsOf, writeNewFits, lift, mbind, M_bind.
    destruct (fits_PrimaryHDU data) as [hdu|e1]; [|done].
    rewrite Hhdul. by eexists.
Qed.

End WriteNewFitsFacts.

(** ** Worked inputs *)

(** A stand-in for astropy and for the file system: an HDU is its data,
    the world maps the path of a file to the HDUs written to it, and
    every write succeeds. *)
Definition sample_writeto (hdul : list string) (path : string)
    : M (gmap string (list string)) unit :=
  modify (λ w, <[path := hdul]> w).

Lemma writeNewFits_returns_unless_no_directory_witness :
  ∃ path,
    os_path_join (Some "out") "a.fits" = Ok path ∧
    ((writeNewFitsOf Ok Ok sample_writeto (mkFitsFormat (Some "out") None)
                     "data" "a.fits" ∅).1 = Ok (Some path)
     ∧ (∃ u, (sample_writeto ["data"] path ∅).1 = Ok u)
     ∨ (writeNewFitsOf Ok Ok sample_writeto (mkFitsFormat (Some "out") None)
                       "data" "a.fits" ∅).1 = Ok None
       ∧ (∃ e, (sample_writeto ["data"] path ∅).1 = Raise e)) ∧
    (writeNewFitsOf Ok Ok sample_writeto (mkFitsFormat (Some "out") None)
                    "data" "a.fits" ∅).2
    = (sample_writeto ["data"] path ∅).2.
Proof.
  destruct (writeNewFits_returns_unless_no_directory Ok Ok sample_writeto
              (mkFitsFormat (Some "out") None) "data" "a.fits" ∅)
    as (_ & Hdir & _).
  apply (Hdir ["data"] "out"); reflexivity.
Defined.

(** The file of the stand-in after the call. *)
Example writeNewFits_writes_joined_path :
  writeNewFitsOf Ok Ok sample_writeto (mkFitsFormat (Some "out") None)
                 "data" "a.fits" ∅
  = (Ok (Some "out/a.fits"), {[ "out/a.fits" := ["data"] ]}).
Proof. reflexivity. Qed.

Lemma getMetaDataFromFileName_parses_witness :
  getMetaDataFromFileName "lsst_a_9006001_f1_R22_S11_C03.fits.gz"
  = Ok (Metadata 9006001 (Some "g") "R22_S11" "C03").
Proof.
  exact (getMetaDataFromFileName_parses "lsst_a" "9" "006001" "1" "2" "2" "1"
           "1" "0" "3" ".fits.gz" eq_refl eq_refl eq_refl eq_refl eq_refl
           eq_refl eq_refl eq_refl eq_refl eq_refl eq_refl).
Defined.

Lemma getMetaDataFromFileName_empty_visit_witness :
  getMetaDataFromFileName "lsst_a__f1_R22_S11_C03.fits.gz"
  = Raise (ValueError "invalid literal for int() with base 10: ''").
Proof.
  exact (getMetaDataFromFileName_empty_visit "lsst_a" "1" "2" "2" "1" "1" "0"
           "3" ".fits.gz" eq_refl eq_refl eq_refl eq_refl eq_refl eq_refl
           eq_refl eq_refl eq_refl eq_refl).
Defined.

Lemma getMetaDataFromFileName_basename_witness :
  getMetaDataFromFileName "output/lsst_a_9006001_f1_R22_S11_C03.fits.gz"
  = getMetaDataFromFileName "lsst_a_9006001_f1_R22_S11_C03.fits.gz".
Proof.
  exact (getMetaDataFromFileName_basename "output"
           "lsst_a_9006001_f1_R22_S11_C03.fits.gz" eq_refl).
Defined.

Lemma getMetaDataFromFileName_no_digit_witness :
  getMetaDataFromFileName "output/README"
  = Raise (RuntimeError "Cannot get the metadata from file name").
Proof.
  exact (getMetaDataFromFileName_no_digit "output/README" eq_refl).
Defined.

End FitsFormat.

(** * python/lsst/ts/wep/MockMiddleware.py *)

Module MockMiddleware.

Section Middleware.

(** The data of a topic; the stores keep the value they are given. *)
Context {Data : Type}.

(** The two dictionaries of the class: they belong to the class, not to
    an instance, and are what every instance reads and writes. *)
Record stores : Type := Stores {
  eventStore : gmap string Data;
  telemetryStore : gmap string Data
}.

(** An instance holds the name of its module. *)
Record instance : Type := MockMiddleware { moduleName : string }.

Definition resetTopic (self : instance) : M stores unit := mret tt.
Definition shutDownSal (self : instance) : M stores unit := mret tt.
Definition setTimeOut (self : instance) (timeout : Z) : M stores unit :=
  mret tt.

Definition getEvent (self : instance) (topic : string) : M stores Data :=
  s ← get_state; lift (getitem (eventStore s) topic).

Definition getTelemetry (self : instance) (topic : string) : M stores Data :=
  s ← get_state; lift (getitem (telemetryStore s) topic).

(** [getCommand] returns [None]. *)
Definition getCommand (self : instance) (topic : string)
    : M stores (option Data) := mret None.

Definition issueEvent (self : instance) (topic : string) (newData : Data)
    : M stores unit :=
  modify (λ s, Stores (<[topic := newData]> (eventStore s)) (telemetryStore s)).

Definition issueTelemetry (self : instance) (topic : string) (newData : Data)
    : M stores unit :=
  modify (λ s, Stores (eventStore s) (<[topic := newData]> (telemetryStore s))).

Definition issueCommand (self : instance) (topic : string) (newData : Data)
    (defaultTimeOut : Z) : M stores unit := mret tt.

(** ** Runs of calls *)

(** A call of a method that returns nothing of interest. *)
Inductive call : Type :=
  | ResetTopic (self : instance)
  | ShutDownSal (self : instance)
  | SetTimeOut (self : instance) (timeout : Z)
  | GetCommand (self : instance) (topic : string)
  | IssueEvent (self : instance) (topic : string) (newData : Data)
  | IssueTelemetry (self : instance) (topic : string) (newData : Data)
  | IssueCommand (self : instance) (topic : string) (newData : Data)
                 (defaultTimeOut : Z).

Definition perform (c : call) : M stores unit :=
  match c with
  | ResetTopic self => resetTopic self
  | ShutDownSal self => shutDownSal self
  | SetTimeOut self timeout => setTimeOut self timeout
  | GetCommand self topic => _ ← getCommand self topic; mret tt
  | IssueEvent self topic newData => issueEvent self topic newData
  | IssueTelemetry self topic newData => issueTelemetry self topic newData
  | IssueCommand self topic newData t => issueCommand self topic newData t
  end.

(** The data the last [issueEvent] on a topic gave, if there is one. *)
Fixpoint lastEvent (calls : list call) (topic : string) : option Data :=
  match calls with
  | [] => None
  | c :: calls' =>
      match lastEvent calls' topic with
      | Some d => Some d
      | None =>
          match c with
          | IssueEvent _ topic' d =>
              if bool_decide (topic' = topic) then Some d else None
          | _ => None
          end
      end
  end.

Fixpoint lastTelemetry (calls : list call) (topic : string) : option Data :=
  match calls with
  | [] => None
  | c :: calls' =>
      match lastTelemetry calls' topic with
      | Some d => Some d
      | None =>
          match c with
          | IssueTelemetry _ topic' d =>
              if bool_decide (topic' = topic) then Some d else None
          | _ => None
          end
      end
  end.

(** The stores after a run of calls. *)
Lemma for_perform calls s :
  ∃ s', for_ calls perform s = (Ok tt, s') ∧
    (∀ topic, eventStore s' !! topic
              = match lastEvent calls topic with
                | Some d => Some d
                | None => eventStore s !! topic
                end) ∧
    (∀ topic, telemetryStore s' !! topic
              = match lastTelemetry calls topic with
                | Some d => Some d
                | None => telemetryStore s !! topic
                end).
Proof.
  revert s. induction calls as [|c calls IH]; intros s.
  - by exists s.
  - cbn [for_ lastEvent lastTelemetry]. unfold mbind, M_bind.
    assert (∃ s1, perform c s = (Ok tt, s1) ∧
      (∀ topic, eventStore s1 !! topic
                = match c with
                  | IssueEvent _ topic' d =>
                      if bool_decide (topic' = topic) then Some d
                      else eventStore s !! topic
                  | _ => eventStore s !! topic
                  end) ∧
      (∀ topic, telemetryStore s1 !! topic
                = match c with
                  | IssueTelemetry _ topic' d =>
                      if bool_decide (topic' = topic) then Some d
                      else telemetryStore s !! topic
                  | _ => telemetryStore s !! topic
                  end)) as (s1 & -> & Hev & Htel).
    { destruct c as [?|?|? ?|? ?|? tp d|? tp d|? ? ? ?]; eexists;
        (split; [reflexivity|]); cbn; split; intros tq; try done;
        rewrite lookup_insert; repeat case_decide; repeat case_bool_decide;
        congruence. }
    destruct (IH s1) as (s' & -> & Hev' & Htel'). exists s'.
    split; [done|]. split; intros topic.
    + rewrite Hev', Hev. destruct (lastEvent calls topic); [done|].
      destruct c as [?|?|? ?|? ?|? tp d|? tp d|? ? ? ?]; try done.
      by case_bool_decide.
    + rewrite Htel', Htel. destruct (lastTelemetry calls topic); [done|].
      destruct c as [?|?|? ?|? ?|? tp d|? tp d|? ? ? ?]; try done.
      by case_bool_decide.
Qed.

(** After any run of calls, made by whatever instances, [getEvent] on a
    topic returns the data of the last [issueEvent] on that topic, and
    [getTelemetry] the data of the last [issueTelemetry]; a topic never
    issued in the run is as it was before the run, so that reading it
    raises [KeyError] when it had never been issued.  The other calls,
    and the calls on the other store, change nothing; no call of the run
    raises. *)
Theorem get_after_calls calls s self topic :
  ∃ s',
    for_ calls perform s = (Ok tt, s') ∧
    getEvent self topic s'
    = (match lastEvent calls topic with
       | Some d => Ok d
       | None => getitem (eventStore s) topic
       end, s') ∧
    getTelemetry self topic s'
    = (match lastTelemetry calls topic with
       | Some d => Ok d
       | None => getitem (telemetryStore s) topic
       end, s').
Proof.
  destruct (for_perform calls s) as (s' & Hrun & Hev & Htel).
  exists s'. split; [done|].
  unfold getEvent, getTelemetry, get_state, lift, getitem, mbind, M_bind.
  rewrite Hev, Htel.
  by destruct (lastEvent calls topic), (lastTelemetry calls topic).
Qed.

End Middleware.

End MockMiddleware.
